(** * WebRTC call / file-transfer core of the chat front end

  A shallow embedding of the TypeScript sources
  - [webrtc/AbstractPeerConnection.ts], [webrtc/file/FilePeerConnection.ts],
  - the call handler ([CallHandler]),
  - the type converters ([getRoomsBaseDict]) and the Vuex store
    ([utils/store.ts]),
  together with the properties of the design document that concern them.

  Conventions.  A JavaScript [string] is a [string]; an array is a [list];
  an object used as a dictionary is a [gmap]; [T | null] is [option T].
  A method that mutates [this] and talks to collaborators (logger, [sub],
  the web-socket handler, the store, the native WebRTC objects) is a
  computation in the monad [Eff.M]: it threads the receiver's fields,
  appends to a trace of observable effects and may throw. *)

From Stdlib Require Import ZArith NArith Lia Ascii DecimalString.
From Stdlib Require String.
From Stdlib Require DecimalPos DecimalN.
From stdpp Require Import gmap strings list.

Set Default Proof Using "Type".

(* ===================================================================== *)
(** * Part I: the program                                                 *)
(* ===================================================================== *)

(** ** JavaScript primitives used by the sources *)
Module Js.

(** The exceptions the modelled code can raise: [throw Error(msg)] written
    in the source, and the [TypeError] of reading a property of
    [undefined] / [null]. *)
Inductive Exn : Type :=
| Error (msg : string)
| TypeError.

Inductive Outcome (A : Type) : Type :=
| Ret (a : A)
| Throw (e : Exn).
Arguments Ret {A} a.
Arguments Throw {A} e.

(** Line feed, the separator of [sdp.split('\n')] and [join('\n')]. *)
Definition LF : ascii := Ascii.ascii_of_nat 10.

(** [s.split(sep)] for a one-character separator: always at least one
    piece, an empty last piece when [s] ends with the separator. *)
Fixpoint split (sep : ascii) (s : string) : list string :=
  match s with
  | EmptyString => [EmptyString]
  | String c s' =>
      if Ascii.eqb c sep then EmptyString :: split sep s'
      else match split sep s' with
           | l :: ls => String c l :: ls
           | [] => [String c EmptyString]
           end
  end.

(** [ls.join(sep)]. *)
Definition join (sep : string) (ls : list string) : string :=
  String.concat sep ls.

(** [s.indexOf(needle) === 0]. *)
Definition indexOf_is_0 (s needle : string) : bool := String.prefix needle s.

(** ['' + n] for a non-negative integer below 2^53: its decimal digits. *)
Definition toString (n : N) : string := NilZero.string_of_uint (N.to_uint n).

(** Truthiness of a [string | null] value: [null] and [''] are falsy. *)
Definition truthy (o : option string) : bool :=
  match o with
  | None => false
  | Some s => negb (String.eqb s EmptyString)
  end.

(** The one-character string ['\n']. *)
Definition nl : string := String LF EmptyString.

(** [a > b] on strings: lexicographic on code units. *)
Definition gt (a b : string) : bool :=
  match String.compare a b with
  | Gt => true
  | _ => false
  end.

End Js.

(** ** Methods as effectful computations

  [M S E A]: a computation over the receiver's fields [S] that appends
  effects of type [E] to a trace and returns an [A] or throws.  What was
  assigned and emitted before a throw stays assigned and emitted. *)
Module Eff.
Import Js.

Definition M (S E A : Type) : Type := S → Outcome A * S * list E.

Section ops.
Context {S E : Type}.

Definition ret {A} (a : A) : M S E A := λ s, (Ret a, s, []).

Definition bind {A B} (m : M S E A) (k : A → M S E B) : M S E B :=
  λ s, match m s with
       | (Ret a, s1, t1) =>
           match k a s1 with (r, s2, t2) => (r, s2, t1 ++ t2) end
       | (Throw e, s1, t1) => (Throw e, s1, t1)
       end.

Definition throw {A} (e : Exn) : M S E A := λ s, (Throw e, s, []).

Definition gets {A} (f : S → A) : M S E A := λ s, (Ret (f s), s, []).

Definition modify (f : S → S) : M S E unit := λ s, (Ret tt, f s, []).

Definition emit (e : E) : M S E unit := λ s, (Ret tt, s, [e]).

(** [try { m } catch (e) { h e }]. *)
Definition tryCatch {A} (m : M S E A) (h : Exn → M S E A) : M S E A :=
  λ s, match m s with
       | (Throw e, s1, t1) =>
           match h e s1 with (r, s2, t2) => (r, s2, t1 ++ t2) end
       | returned => returned
       end.

(** [l.forEach(f)]. *)
Fixpoint forEach {A} (l : list A) (f : A → M S E unit) : M S E unit :=
  match l with
  | [] => ret tt
  | x :: xs => bind (f x) (λ _, forEach xs f)
  end.

(** The three components of a run. *)
Definition outcome {A} (r : Outcome A * S * list E) : Outcome A := r.1.1.
Definition final {A} (r : Outcome A * S * list E) : S := r.1.2.
Definition trace {A} (r : Outcome A * S * list E) : list E := r.2.
End ops.

#[global] Instance M_ret {S E} : MRet (M S E) := λ A, ret.
#[global] Instance M_bind {S E} : MBind (M S E) := λ A B k m, bind m k.

End Eff.

(** ** Keys of the subscription router and the messages it carries *)
Module Subscription.

(** Modelled from the spec: [utils/Subscription] is not among the sources.
    Section 4.1 gives two key families, "one scoped to a session
    ([connectionId]), one scoped to a session+opponent pair
    ([connectionId:opponentId])". *)
Definition getTransferId (connectionId : string) : string := connectionId.

(** Modelled from the spec: the pair-scoped key of section 4.1,
    [connectionId:opponentId]; [utils/Subscription] is not among the sources. *)
Definition getPeerConnectionId (connectionId opponentWsId : string) : string :=
  connectionId +:+ ":" +:+ opponentWsId.

End Subscription.

Module Messages.

(** A [MediaStream] object is shared by reference between the call handler
    and its peer links: messages carry the reference. *)
Definition MediaStreamRef : Type := nat.

(** The local directives sent through [sub.notify], one constructor per
    [action]; the arguments are the fields of the payload. *)
Inductive SubMessage : Type :=
| connectToRemote (handler : string) (stream : option MediaStreamRef)
| streamChanged (handler : string) (newStream : MediaStreamRef)
                (oldStream : option MediaStreamRef)
| removePeerConnection (handler : string) (opponentWsId : string).

Definition handler (m : SubMessage) : string :=
  match m with
  | connectToRemote h _ | streamChanged h _ _ | removePeerConnection h _ => h
  end.

(** The [content] of an [OnSendRtcDataMessage]: a session description
    (has [sdp]), an ICE candidate (has [candidate]) or an application
    envelope (has [message]). *)
Record RtcContent : Type := mkRtcContent {
  sdp : option string;
  candidate : option string;
  message : option string;
}.

Record OnSendRtcDataMessage : Type := mkOnSendRtcData {
  content : RtcContent;
}.

End Messages.

(** ** types/model.ts: the data kept by the store *)
Module Model.
Import Messages.

(** JavaScript numbers: identifiers, counters and times are integers; the
    sound levels are floats that the store only keeps and hands out. *)
Definition number : Type := Z.

Inductive FileTransferStatus : Type :=
| NOT_DECIDED_YET | DECLINED_BY_OPPONENT | DECLINED_BY_YOU
| FINISHED | ERROR | IN_PROGRESS.

Inductive GrowlType : Type := SUCCESS | INFO | GROWL_ERROR.

Record GrowlModel : Type := mkGrowl {
  growl_id : number; html : string; growl_type : GrowlType }.

Record EditingMessage : Type := mkEditing {
  em_messageId : number; em_roomId : number; isEditingNow : bool }.

Record CurrentUserSettingsModel : Type := mkSettings {
  embeddedYoutube : bool; highlightCode : bool; incomingFileCallSound : bool;
  messageSound : bool; onlineChangeSound : bool; sendLogs : bool;
  suggestions : bool; theme : string; logs : bool }.

Inductive SexModelString : Type := Secret | Male | Female.

Record CurrentUserInfoModel : Type := mkUserInfo {
  ui_userId : number; ui_user : string; ui_name : string; ui_city : string;
  surname : string; email : string; birthday : string; contacts : string;
  ui_sex : SexModelString }.

Record Location : Type := mkLocation {
  city : option string; country : option string;
  countryCode : option string; region : option string }.

Record UserModel : Type := mkUser {
  user : string; user_id : number; sex : SexModelString; location : Location }.

Record FileModel : Type := mkFile {
  file_id : option number; url : option string;
  file_type : string; preview : option string }.

Record UploadProgressModel : Type := mkUpload {
  total : number; uploaded : number }.

Record MessageTransferInfo : Type := mkTransferInfo {
  upload : option UploadProgressModel; error : option string }.

Record MessageModel : Type := mkMessage {
  msg_id : number; time : number; files : option (gmap string FileModel);
  msg_content : option string; symbol : option string; deleted : bool;
  giphy : option string; edited : option number; msg_roomId : number;
  msg_userId : number; transfer : option MessageTransferInfo }.

Record RoomSettingsModel : Type := mkRoomSettings {
  rs_id : number; rs_name : string; rs_notifications : bool; rs_volume : number }.

Record SearchModel : Type := mkSearch {
  searchActive : bool; searchedIds : list number;
  searchText : string; locked : bool }.

Record ChangeOnline : Type := mkChangeOnline {
  co_userId : number; isWentOnline : bool; co_time : number }.

Record SendingFileTransfer : Type := mkSendingTransfer {
  st_status : FileTransferStatus; st_userId : number;
  st_upload : UploadProgressModel; st_error : option string }.

Record ReceivingFile : Type := mkReceivingFile {
  rf_time : number; rf_upload : UploadProgressModel;
  rf_status : FileTransferStatus; rf_fileName : string;
  rf_opponentWsId : string; rf_roomId : number; rf_connId : string;
  anchor : option string; rf_error : option string; rf_userId : number }.

Record SendingFile : Type := mkSendingFile {
  sf_time : number; sf_fileName : string; sf_roomId : number;
  sf_connId : string; fileSize : number;
  transfers : gmap string SendingFileTransfer }.

Record CallInfoModel : Type := mkCallInfo {
  call_mediaStreamLink : option string; connected : bool;
  call_userId : number; opponentCurrentVoice : number }.

Record CallsInfoModel : Type := mkCallsInfo {
  calls : gmap string CallInfoModel;
  callContainer : bool;
  showMic : bool;
  currentMicLevel : number;
  mediaStreamLink : option string;
  currentMic : option string;
  currentSpeaker : option string;
  currentWebcam : option string;
  showVideo : bool;
  shareScreen : bool;
  callActive : bool }.

Record RoomModel : Type := mkRoom {
  room_id : number;
  name : string;
  notifications : bool;
  volume : number;
  users : list number;
  callInfo : CallsInfoModel;
  sendingFiles : gmap string SendingFile;
  receivingFiles : gmap string ReceivingFile;
  messages : gmap Z MessageModel;
  allLoaded : bool;
  search : SearchModel;
  newMessagesCount : number;
  changeOnline : list ChangeOnline }.

Record IncomingCallModel : Type := mkIncomingCall {
  ic_roomId : number; ic_userId : number; ic_connId : string }.

(** Assignments to one field of an object. *)
Definition set_calls v (c : CallsInfoModel) : CallsInfoModel :=
  let 'mkCallsInfo _ b c d e f g h i j k := c in mkCallsInfo v b c d e f g h i j k.
Definition set_callContainer v (c : CallsInfoModel) : CallsInfoModel :=
  let 'mkCallsInfo a _ c d e f g h i j k := c in mkCallsInfo a v c d e f g h i j k.
Definition set_showMic v (c : CallsInfoModel) : CallsInfoModel :=
  let 'mkCallsInfo a b _ d e f g h i j k := c in mkCallsInfo a b v d e f g h i j k.
Definition set_currentMicLevel v (c : CallsInfoModel) : CallsInfoModel :=
  let 'mkCallsInfo a b c _ e f g h i j k := c in mkCallsInfo a b c v e f g h i j k.
Definition set_mediaStreamLink v (c : CallsInfoModel) : CallsInfoModel :=
  let 'mkCallsInfo a b c d _ f g h i j k := c in mkCallsInfo a b c d v f g h i j k.
Definition set_currentMic v (c : CallsInfoModel) : CallsInfoModel :=
  let 'mkCallsInfo a b c d e _ g h i j k := c in mkCallsInfo a b c d e v g h i j k.
Definition set_currentSpeaker v (c : CallsInfoModel) : CallsInfoModel :=
  let 'mkCallsInfo a b c d e f _ h i j k := c in mkCallsInfo a b c d e f v h i j k.
Definition set_currentWebcam v (c : CallsInfoModel) : CallsInfoModel :=
  let 'mkCallsInfo a b c d e f g _ i j k := c in mkCallsInfo a b c d e f g v i j k.
Definition set_showVideo v (c : CallsInfoModel) : CallsInfoModel :=
  let 'mkCallsInfo a b c d e f g h _ j k := c in mkCallsInfo a b c d e f g h v j k.
Definition set_shareScreen v (c : CallsInfoModel) : CallsInfoModel :=
  let 'mkCallsInfo a b c d e f g h i _ k := c in mkCallsInfo a b c d e f g h i v k.
Definition set_callActive v (c : CallsInfoModel) : CallsInfoModel :=
  let 'mkCallsInfo a b c d e f g h i j _ := c in mkCallsInfo a b c d e f g h i j v.

Definition set_name v (r : RoomModel) : RoomModel :=
  let 'mkRoom a _ c d e f g h i j k l m := r in mkRoom a v c d e f g h i j k l m.
Definition set_notifications v (r : RoomModel) : RoomModel :=
  let 'mkRoom a b _ d e f g h i j k l m := r in mkRoom a b v d e f g h i j k l m.
Definition set_volume v (r : RoomModel) : RoomModel :=
  let 'mkRoom a b c _ e f g h i j k l m := r in mkRoom a b c v e f g h i j k l m.
Definition set_users v (r : RoomModel) : RoomModel :=
  let 'mkRoom a b c d _ f g h i j k l m := r in mkRoom a b c d v f g h i j k l m.
Definition set_callInfo v (r : RoomModel) : RoomModel :=
  let 'mkRoom a b c d e _ g h i j k l m := r in mkRoom a b c d e v g h i j k l m.
Definition set_sendingFiles v (r : RoomModel) : RoomModel :=
  let 'mkRoom a b c d e f _ h i j k l m := r in mkRoom a b c d e f v h i j k l m.
Definition set_receivingFiles v (r : RoomModel) : RoomModel :=
  let 'mkRoom a b c d e f g _ i j k l m := r in mkRoom a b c d e f g v i j k l m.
Definition set_messages v (r : RoomModel) : RoomModel :=
  let 'mkRoom a b c d e f g h _ j k l m := r in mkRoom a b c d e f g h v j k l m.
Definition set_allLoaded v (r : RoomModel) : RoomModel :=
  let 'mkRoom a b c d e f g h i _ k l m := r in mkRoom a b c d e f g h i v k l m.
Definition set_search v (r : RoomModel) : RoomModel :=
  let 'mkRoom a b c d e f g h i j _ l m := r in mkRoom a b c d e f g h i j v l m.
Definition set_newMessagesCount v (r : RoomModel) : RoomModel :=
  let 'mkRoom a b c d e f g h i j k _ m := r in mkRoom a b c d e f g h i j k v m.
Definition set_changeOnline v (r : RoomModel) : RoomModel :=
  let 'mkRoom a b c d e f g h i j k l _ := r in mkRoom a b c d e f g h i j k l v.

End Model.

(** ** types/converters.ts *)
Module Converters.
Import Model.

Definition getRoomsBaseDict
    (roomId : number) (volume : number) (notifications : bool)
    (name : string) (users : list number)
    (oldRoom : option RoomModel) : RoomModel :=
  {| room_id := roomId;
     receivingFiles := match oldRoom with Some o => receivingFiles o | None => ∅ end;
     sendingFiles := match oldRoom with Some o => sendingFiles o | None => ∅ end;
     Model.volume := volume;
     callInfo := {|
       calls := ∅;
       mediaStreamLink := None;
       showMic := true;
       callContainer := false;
       callActive := false;
       shareScreen := false;
       showVideo := true;
       currentMic := None;
       currentSpeaker := None;
       currentWebcam := None;
       currentMicLevel := 0%Z |};
     Model.notifications := notifications;
     Model.name := name;
     messages := match oldRoom with Some o => messages o | None => ∅ end;
     newMessagesCount := match oldRoom with Some o => newMessagesCount o | None => 0%Z end;
     changeOnline := match oldRoom with Some o => changeOnline o | None => [] end;
     allLoaded := match oldRoom with Some o => allLoaded o | None => false end;
     search := match oldRoom with
               | Some o => search o
               | None => {| searchActive := false; searchText := "";
                            searchedIds := []; locked := false |}
               end;
     Model.users := users |}.

End Converters.

(** ** AbstractPeerConnection.ts: the SDP bandwidth line *)
Module Sdp.
Import Js.

(** The [for] loop of [setMediaBitrate]: [line = i + 1] at the first
    [i] with [lines[i].indexOf('m=') === 0]; [None] stands for [-1]. *)
Fixpoint findMLine (lines : list string) (i : nat) : option nat :=
  match lines with
  | [] => None
  | l :: rest =>
      if indexOf_is_0 l "m=" then Some (S i) else findMLine rest (S i)
  end.

Definition isIC (l : string) : bool :=
  indexOf_is_0 l "i=" || indexOf_is_0 l "c=".

(** The [while] loop, run on the lines from index [line] on: it stops at
    the first line that starts with neither [i=] nor [c=]; running off the
    end of the array reads [undefined.indexOf], a [TypeError] ([None]). *)
Fixpoint skipIC (rest : list string) (line : nat) : option nat :=
  match rest with
  | [] => None
  | l :: rest' => if isIC l then skipIC rest' (S line) else Some line
  end.

Definition bLine (bitrate : N) : string := "b=AS:" +:+ toString bitrate.

Definition setMediaBitrate (sdp : string) (bitrate : N) : Outcome string :=
  let lines := split LF sdp in
  match findMLine lines 0 with
  | None => Ret sdp
  | Some line0 =>
      match skipIC (drop line0 lines) line0 with
      | None => Throw TypeError
      | Some line =>
          match lines !! line with
          | None => Throw TypeError
          | Some l =>
              if indexOf_is_0 l "b" then
                Ret (join (String LF EmptyString) (<[line := bLine bitrate]> lines))
              else
                Ret (join (String LF EmptyString)
                       (take line lines ++ [bLine bitrate] ++ drop line lines))
          end
      end
  end.

End Sdp.

(** ** AbstractPeerConnection.ts: one link to one opponent *)
Module AbstractPeerConnection.
Import Js Eff Messages.

(** Modelled from the spec: the [ConnectionStatus] type is declared in
    [types/types], not among the sources; section 3 lists its values
    "new, negotiating, connected, closed". *)
Inductive ConnectionStatus : Type :=
| status_new | status_negotiating | status_connected | status_closed.

(** The native objects, as far as the sources read them.  [close()] of
    the platform is synchronous on these attributes.  A closed
    [RTCPeerConnection] reports [closed] for both states, and closing it
    closes its data channels with it: their [readyState] is [closed] at
    once, without the closing procedure.  A data channel closed by its own
    [close()] reports [closing] until the platform has torn it down. *)
Inductive RTCSignalingState : Type :=
| sig_stable | sig_have_local_offer | sig_have_remote_offer
| sig_have_local_pranswer | sig_have_remote_pranswer | sig_closed.

Inductive RTCIceConnectionState : Type :=
| ice_new | ice_checking | ice_connected | ice_completed
| ice_failed | ice_disconnected | ice_closed.

Inductive RTCDataChannelState : Type :=
| dc_connecting | dc_open | dc_closing | dc_closed.

Record RTCPeerConnection : Type := mkPc {
  signalingState : RTCSignalingState;
  iceConnectionState : RTCIceConnectionState;
}.

Record RTCDataChannel : Type := mkDc {
  readyState : RTCDataChannelState;
}.

#[global] Instance RTCSignalingState_eq_dec : EqDecision RTCSignalingState.
Proof. solve_decision. Defined.
#[global] Instance RTCIceConnectionState_eq_dec : EqDecision RTCIceConnectionState.
Proof. solve_decision. Defined.
#[global] Instance RTCDataChannelState_eq_dec : EqDecision RTCDataChannelState.
Proof. solve_decision. Defined.
#[global] Instance ConnectionStatus_eq_dec : EqDecision ConnectionStatus.
Proof. solve_decision. Defined.
#[global] Instance RtcContent_eq_dec : EqDecision RtcContent.
Proof. solve_decision. Defined.
#[global] Instance OnSendRtcDataMessage_eq_dec : EqDecision OnSendRtcDataMessage.
Proof. solve_decision. Defined.
#[global] Instance SubMessage_eq_dec : EqDecision SubMessage.
Proof. solve_decision. Defined.

(** [pc.close()], on the connection itself. *)
Definition pc_close (p : RTCPeerConnection) : RTCPeerConnection :=
  {| signalingState := sig_closed; iceConnectionState := ice_closed |}.

(** [pc.close()], on a data channel of the connection. *)
Definition dc_abort (c : RTCDataChannel) : RTCDataChannel :=
  {| readyState := dc_closed |}.

(** [channel.close()]. *)
Definition dc_close (c : RTCDataChannel) : RTCDataChannel :=
  match readyState c with
  | dc_closed => c
  | _ => {| readyState := dc_closing |}
  end.

(** The fields of the class.  [sendChannel] is a data channel of [pc]: the
    subclasses (not among the sources) assign it from the connection, the
    base class only declares it. *)
Record PeerConn : Type := mkPeerConn {
  roomId : Z;
  connectionId : string;
  opponentWsId : string;
  offerCreator : bool;
  sendRtcDataQueue : list OnSendRtcDataMessage;
  pc : option RTCPeerConnection;
  connectionStatus : ConnectionStatus;
  sendChannel : option RTCDataChannel;
  connectedToRemote : bool;
}.

Definition set_connectionStatus (v : ConnectionStatus) (s : PeerConn) : PeerConn :=
  {| roomId := roomId s; connectionId := connectionId s;
     opponentWsId := opponentWsId s; offerCreator := offerCreator s;
     sendRtcDataQueue := sendRtcDataQueue s; pc := pc s;
     connectionStatus := v; sendChannel := sendChannel s;
     connectedToRemote := connectedToRemote s |}.

Definition set_pc (v : option RTCPeerConnection) (s : PeerConn) : PeerConn :=
  {| roomId := roomId s; connectionId := connectionId s;
     opponentWsId := opponentWsId s; offerCreator := offerCreator s;
     sendRtcDataQueue := sendRtcDataQueue s; pc := v;
     connectionStatus := connectionStatus s; sendChannel := sendChannel s;
     connectedToRemote := connectedToRemote s |}.

Definition set_sendChannel (v : option RTCDataChannel) (s : PeerConn) : PeerConn :=
  {| roomId := roomId s; connectionId := connectionId s;
     opponentWsId := opponentWsId s; offerCreator := offerCreator s;
     sendRtcDataQueue := sendRtcDataQueue s; pc := pc s;
     connectionStatus := connectionStatus s; sendChannel := v;
     connectedToRemote := connectedToRemote s |}.

Definition set_sendRtcDataQueue (v : list OnSendRtcDataMessage) (s : PeerConn) : PeerConn :=
  {| roomId := roomId s; connectionId := connectionId s;
     opponentWsId := opponentWsId s; offerCreator := offerCreator s;
     sendRtcDataQueue := v; pc := pc s;
     connectionStatus := connectionStatus s; sendChannel := sendChannel s;
     connectedToRemote := connectedToRemote s |}.

Definition set_connectedToRemote (v : bool) (s : PeerConn) : PeerConn :=
  {| roomId := roomId s; connectionId := connectionId s;
     opponentWsId := opponentWsId s; offerCreator := offerCreator s;
     sendRtcDataQueue := sendRtcDataQueue s; pc := pc s;
     connectionStatus := connectionStatus s; sendChannel := sendChannel s;
     connectedToRemote := v |}.

(** What a link does to the world around it. *)
Inductive Event : Type :=
| Log (msg : string)                       (* logger.log / logger.debug *)
| LogError (msg : string)                  (* logger.error *)
| Notify (m : SubMessage)                  (* sub.notify *)
| Unsubscribe (key : string)               (* sub.unsubscribe *)
| PcClose                                  (* this.pc.close() *)
| ChannelClose                             (* this.sendChannel.close() *)
| Handling (m : OnSendRtcDataMessage)      (* the log line 'onsendRtcData',
                                              tagged with the message at hand *)
| SetRemoteDescription (d : RtcContent)    (* this.pc.setRemoteDescription *)
| AddIceCandidate (d : RtcContent)         (* this.pc.addIceCandidate *)
| NewRTCPeerConnection.                    (* new RTCPeerConnection(...) *)

#[global] Instance Event_eq_dec : EqDecision Event.
Proof. solve_decision. Defined.

Abbreviation Link := (M PeerConn Event).

Definition setConnectionStatus (newStatus : ConnectionStatus) : Link unit :=
  modify (set_connectionStatus newStatus);;
  emit (Log "Setting connection status to {}").

Definition getConnectionStatus : Link ConnectionStatus := gets connectionStatus.

Definition onDestroy (reason : option string) : Link unit :=
  emit (Log "Destroying {}, because {}");;
  connId ← gets connectionId;
  opp ← gets opponentWsId;
  emit (Notify (removePeerConnection (Subscription.getTransferId connId) opp));;
  emit (Unsubscribe (Subscription.getPeerConnectionId connId opp)).

(** [createPeerConnection]; [supported] is [window.RTCPeerConnection]. *)
Definition createPeerConnection (supported : bool) : Link unit :=
  emit (Log "Creating RTCPeerConnection");;
  if supported then
    emit NewRTCPeerConnection;;
    modify (set_pc (Some {| signalingState := sig_stable;
                            iceConnectionState := ice_new |}))
  else throw (Error "Your browser doesn't support RTCPeerConnection").

Definition closePeerConnection : Link unit :=
  setConnectionStatus status_closed;;
  p ← gets pc;
  match p with
  | Some p' =>
      if decide (signalingState p' = sig_closed) then
        emit (Log "No peer connection to close")
      else
        emit (Log "Closing peer connection");;
        emit PcClose;;
        modify (set_pc (Some (pc_close p')));;
        modify (λ s, set_sendChannel (dc_abort <$> sendChannel s) s)
  | None => emit (Log "No peer connection to close")
  end.

Definition onsendRtcData (message : OnSendRtcDataMessage) : Link unit :=
  connected ← gets connectedToRemote;
  if negb connected then
    emit (Log "Connection is not accepted yet, pushing data to queue");;
    modify (λ s, set_sendRtcDataQueue (sendRtcDataQueue s ++ [message]) s)
  else
    let data := content message in
    emit (Handling message);;
    p ← gets pc;
    match p with
    | None => throw TypeError
    | Some p' =>
        if decide (iceConnectionState p' = ice_closed) then
          emit (LogError "Skipping ws message for closed connection")
        else if truthy (sdp data) then emit (SetRemoteDescription data)
        else if truthy (candidate data) then emit (AddIceCandidate data)
        else if truthy (Messages.message data) then
          mret tt  (* [this.logger.warn(...)] builds the log call and drops it *)
        else mret tt
    end.

(** Modelled from the spec: the flush of the pending queue.  It lives in
    the [connectToRemote] of the call and file subclasses, which are not
    among the sources.  Section 4.2: "Outbound signaling while
    status != connected: queued in pendingOutboundQueue rather than sent,
    preserving submission order; flushed in order once connected";
    section 8: "flushed in submission order exactly once, never
    duplicated". *)
Definition flushSendRtcDataQueue : Link unit :=
  queue ← gets sendRtcDataQueue;
  modify (set_sendRtcDataQueue []);;
  forEach queue onsendRtcData.

(** Modelled from the spec: the transition to connected of a subclass
    (not among the sources): the link is marked connected to the remote side,
    the native connection is created and the pending queue is flushed
    (section 4.2, as for [flushSendRtcDataQueue]). *)
Definition connectToRemote (supported : bool) : Link unit :=
  emit (Log "Connect to remote");;
  modify (set_connectedToRemote true);;
  createPeerConnection supported;;
  flushSendRtcDataQueue.

(** *** Reading a trace *)

(** The messages handed to [sub.notify], in order. *)
Definition notified (t : list Event) : list SubMessage :=
  omap (λ e, match e with Notify m => Some m | _ => None end) t.

(** How often the native connection was closed. *)
Definition pcCloses (t : list Event) : nat :=
  length (filter (λ e, e = PcClose) t).

(** The signaling payloads taken up for processing, in order. *)
Definition handled (t : list Event) : list OnSendRtcDataMessage :=
  omap (λ e, match e with Handling m => Some m | _ => None end) t.

(** A native connection exists and is not closed. *)
Definition isOpen (s : PeerConn) : bool :=
  match pc s with
  | Some p => bool_decide (signalingState p ≠ sig_closed)
  | None => false
  end.

(** What a connected link with a native connection that is not closed does
    with one payload. *)
Definition deliver (m : OnSendRtcDataMessage) : list Event :=
  if truthy (sdp (content m)) then [SetRemoteDescription (content m)]
  else if truthy (candidate (content m)) then [AddIceCandidate (content m)]
  else [].

Definition deliverable (m : OnSendRtcDataMessage) : bool :=
  truthy (sdp (content m)) || truthy (candidate (content m)).

(** The payloads handed to the native connection, in order. *)
Definition applied (t : list Event) : list RtcContent :=
  omap (λ e, match e with
             | SetRemoteDescription d | AddIceCandidate d => Some d
             | _ => None
             end) t.

End AbstractPeerConnection.

(** ** FilePeerConnection.ts *)
Module FilePeerConnection.
Import Js Eff Messages AbstractPeerConnection.

(** A file link: the fields of the base class and the status of the
    transfer record this link reports to (it lives in the store). *)
Record FileLink : Type := mkFileLink {
  link : PeerConn;
  transfer : Model.FileTransferStatus;
}.

Inductive FileEvent : Type :=
| Base (e : Event)
| OnDataChannelClose (text : string).      (* this.ondatachannelclose(text) *)

Abbreviation File := (M FileLink FileEvent).

(** A method of the base class run on a file link. *)
Definition super {A} (m : M PeerConn Event A) : File A :=
  λ s, match m (link s) with
       | (r, l, t) => (r, {| link := l; transfer := transfer s |}, Base <$> t)
       end.

(** Modelled from the spec: [ondatachannelclose] is abstract in
    [AbstractPeerConnection] and its implementations (the file sender and
    receiver links) are not among the sources.  Section 4.4: [closeEvents]
    "treats it as a transfer failure, notifies the transfer record
    (status -> error, or declined if the local/remote end explicitly
    declined)"; section 8: a transfer that is [in_progress] "must end in
    error, not silently remain in_progress".  A record that already
    reached a final status keeps it. *)
Definition ondatachannelclose (text : string) : File unit :=
  emit (OnDataChannelClose text);;
  modify (λ s, {| link := link s;
                  transfer := match transfer s with
                              | Model.IN_PROGRESS | Model.NOT_DECIDED_YET => Model.ERROR
                              | settled => settled
                              end |}).

Definition closeEvents (text : option string) : File unit :=
  (if truthy text then ondatachannelclose (default "" text) else mret tt);;
  emit (Base (LogError "Closing event from {}"));;
  super closePeerConnection;;
  ch ← gets (λ s, sendChannel (link s));
  match ch with
  | Some c =>
      if decide (readyState c = dc_closed) then
        emit (Base (Log "No channels to close"))
      else
        emit (Base (Log "Closing chanel"));;
        emit (Base ChannelClose);;
        super (modify (set_sendChannel (Some (dc_close c))))
  | None => emit (Base (Log "No channels to close"))
  end.

Definition oniceconnectionstatechange : File unit :=
  p ← gets (λ s, pc (link s));
  match p with
  | None => throw TypeError
  | Some p' =>
      if decide (iceConnectionState p' = ice_disconnected)
      then closeEvents (Some "Connection has been lost")
      else mret tt
  end.

End FilePeerConnection.

(** ** The persistence interface the store calls into *)
Module IStorage.
Import Model.

Inductive Call : Type :=
| saveMessage (m : MessageModel)
| saveMessages (ms : list MessageModel)
| deleteMessage (id : number)
| deleteRoom (id : number)
| updateRoom (m : RoomSettingsModel)
| setRooms (rooms : gmap Z RoomModel)
| saveRoom (room : RoomModel)
| setUserProfile (user : CurrentUserInfoModel)
| setUserSettings (settings : CurrentUserSettingsModel)
| saveRoomUsers (roomId : number) (users : list number)
| setUsers (users : gmap Z UserModel)
| saveUser (u : UserModel)
| clearMessages
| clearStorage.

End IStorage.

(** ** utils/store.ts: the state of [DefaultStore] and its mutations *)
Module DefaultStore.
Import Js Eff Messages Model.

(** The fields of the Vuex module.  [storage] tells whether the storage
    proxy has been installed ([setStorage]); before that it is [null].
    [mediaLinkId] is the counter [i] closed over by [mediaLinkIdGetter]. *)
Record State : Type := mkStore {
  storage : bool;
  isOnline : bool;
  growls : list GrowlModel;
  dim : bool;
  incomingCall : option IncomingCallModel;
  microphones : gmap string string;
  speakers : gmap string string;
  webcams : gmap string string;
  editedMessage : option EditingMessage;
  activeRoomId : option number;
  activeUserId : option number;
  userInfo : option CurrentUserInfoModel;
  userSettings : option CurrentUserSettingsModel;
  userImage : option string;
  allUsersDict : gmap Z UserModel;
  regHeader : option string;
  online : list number;
  roomsDict : gmap Z RoomModel;
  mediaObjects : gmap string (option MediaStreamRef);
  mediaLinkId : N }.

(** Assignment to one field of the state. *)
Definition set_storage (v : bool) (s : State) : State :=
  let 'mkStore _ x1 x2 x3 x4 x5 x6 x7 x8 x9 x10 x11 x12 x13 x14 x15 x16 x17 x18 x19 := s in
  mkStore v x1 x2 x3 x4 x5 x6 x7 x8 x9 x10 x11 x12 x13 x14 x15 x16 x17 x18 x19.
Definition set_isOnline (v : bool) (s : State) : State :=
  let 'mkStore x0 _ x2 x3 x4 x5 x6 x7 x8 x9 x10 x11 x12 x13 x14 x15 x16 x17 x18 x19 := s in
  mkStore x0 v x2 x3 x4 x5 x6 x7 x8 x9 x10 x11 x12 x13 x14 x15 x16 x17 x18 x19.
Definition set_growls (v : list GrowlModel) (s : State) : State :=
  let 'mkStore x0 x1 _ x3 x4 x5 x6 x7 x8 x9 x10 x11 x12 x13 x14 x15 x16 x17 x18 x19 := s in
  mkStore x0 x1 v x3 x4 x5 x6 x7 x8 x9 x10 x11 x12 x13 x14 x15 x16 x17 x18 x19.
Definition set_dim (v : bool) (s : State) : State :=
  let 'mkStore x0 x1 x2 _ x4 x5 x6 x7 x8 x9 x10 x11 x12 x13 x14 x15 x16 x17 x18 x19 := s in
  mkStore x0 x1 x2 v x4 x5 x6 x7 x8 x9 x10 x11 x12 x13 x14 x15 x16 x17 x18 x19.
Definition set_incomingCall (v : option IncomingCallModel) (s : State) : State :=
  let 'mkStore x0 x1 x2 x3 _ x5 x6 x7 x8 x9 x10 x11 x12 x13 x14 x15 x16 x17 x18 x19 := s in
  mkStore x0 x1 x2 x3 v x5 x6 x7 x8 x9 x10 x11 x12 x13 x14 x15 x16 x17 x18 x19.
Definition set_microphones (v : gmap string string) (s : State) : State :=
  let 'mkStore x0 x1 x2 x3 x4 _ x6 x7 x8 x9 x10 x11 x12 x13 x14 x15 x16 x17 x18 x19 := s in
  mkStore x0 x1 x2 x3 x4 v x6 x7 x8 x9 x10 x11 x12 x13 x14 x15 x16 x17 x18 x19.
Definition set_speakers (v : gmap string string) (s : State) : State :=
  let 'mkStore x0 x1 x2 x3 x4 x5 _ x7 x8 x9 x10 x11 x12 x13 x14 x15 x16 x17 x18 x19 := s in
  mkStore x0 x1 x2 x3 x4 x5 v x7 x8 x9 x10 x11 x12 x13 x14 x15 x16 x17 x18 x19.
Definition set_webcams (v : gmap string string) (s : State) : State :=
  let 'mkStore x0 x1 x2 x3 x4 x5 x6 _ x8 x9 x10 x11 x12 x13 x14 x15 x16 x17 x18 x19 := s in
  mkStore x0 x1 x2 x3 x4 x5 x6 v x8 x9 x10 x11 x12 x13 x14 x15 x16 x17 x18 x19.
Definition set_editedMessage (v : option EditingMessage) (s : State) : State :=
  let 'mkStore x0 x1 x2 x3 x4 x5 x6 x7 _ x9 x10 x11 x12 x13 x14 x15 x16 x17 x18 x19 := s in
  mkStore x0 x1 x2 x3 x4 x5 x6 x7 v x9 x10 x11 x12 x13 x14 x15 x16 x17 x18 x19.
Definition set_activeRoomId (v : option number) (s : State) : State :=
  let 'mkStore x0 x1 x2 x3 x4 x5 x6 x7 x8 _ x10 x11 x12 x13 x14 x15 x16 x17 x18 x19 := s in
  mkStore x0 x1 x2 x3 x4 x5 x6 x7 x8 v x10 x11 x12 x13 x14 x15 x16 x17 x18 x19.
Definition set_activeUserId (v : option number) (s : State) : State :=
  let 'mkStore x0 x1 x2 x3 x4 x5 x6 x7 x8 x9 _ x11 x12 x13 x14 x15 x16 x17 x18 x19 := s in
  mkStore x0 x1 x2 x3 x4 x5 x6 x7 x8 x9 v x11 x12 x13 x14 x15 x16 x17 x18 x19.
Definition set_userInfo (v : option CurrentUserInfoModel) (s : State) : State :=
  let 'mkStore x0 x1 x2 x3 x4 x5 x6 x7 x8 x9 x10 _ x12 x13 x14 x15 x16 x17 x18 x19 := s in
  mkStore x0 x1 x2 x3 x4 x5 x6 x7 x8 x9 x10 v x12 x13 x14 x15 x16 x17 x18 x19.
Definition set_userSettings (v : option CurrentUserSettingsModel) (s : State) : State :=
  let 'mkStore x0 x1 x2 x3 x4 x5 x6 x7 x8 x9 x10 x11 _ x13 x14 x15 x16 x17 x18 x19 := s in
  mkStore x0 x1 x2 x3 x4 x5 x6 x7 x8 x9 x10 x11 v x13 x14 x15 x16 x17 x18 x19.
Definition set_userImage (v : option string) (s : State) : State :=
  let 'mkStore x0 x1 x2 x3 x4 x5 x6 x7 x8 x9 x10 x11 x12 _ x14 x15 x16 x17 x18 x19 := s in
  mkStore x0 x1 x2 x3 x4 x5 x6 x7 x8 x9 x10 x11 x12 v x14 x15 x16 x17 x18 x19.
Definition set_allUsersDict (v : gmap Z UserModel) (s : State) : State :=
  let 'mkStore x0 x1 x2 x3 x4 x5 x6 x7 x8 x9 x10 x11 x12 x13 _ x15 x16 x17 x18 x19 := s in
  mkStore x0 x1 x2 x3 x4 x5 x6 x7 x8 x9 x10 x11 x12 x13 v x15 x16 x17 x18 x19.
Definition set_regHeader (v : option string) (s : State) : State :=
  let 'mkStore x0 x1 x2 x3 x4 x5 x6 x7 x8 x9 x10 x11 x12 x13 x14 _ x16 x17 x18 x19 := s in
  mkStore x0 x1 x2 x3 x4 x5 x6 x7 x8 x9 x10 x11 x12 x13 x14 v x16 x17 x18 x19.
Definition set_online (v : list number) (s : State) : State :=
  let 'mkStore x0 x1 x2 x3 x4 x5 x6 x7 x8 x9 x10 x11 x12 x13 x14 x15 _ x17 x18 x19 := s in
  mkStore x0 x1 x2 x3 x4 x5 x6 x7 x8 x9 x10 x11 x12 x13 x14 x15 v x17 x18 x19.
Definition set_roomsDict (v : gmap Z RoomModel) (s : State) : State :=
  let 'mkStore x0 x1 x2 x3 x4 x5 x6 x7 x8 x9 x10 x11 x12 x13 x14 x15 x16 _ x18 x19 := s in
  mkStore x0 x1 x2 x3 x4 x5 x6 x7 x8 x9 x10 x11 x12 x13 x14 x15 x16 v x18 x19.
Definition set_mediaObjects (v : gmap string (option MediaStreamRef)) (s : State) : State :=
  let 'mkStore x0 x1 x2 x3 x4 x5 x6 x7 x8 x9 x10 x11 x12 x13 x14 x15 x16 x17 _ x19 := s in
  mkStore x0 x1 x2 x3 x4 x5 x6 x7 x8 x9 x10 x11 x12 x13 x14 x15 x16 x17 v x19.
Definition set_mediaLinkId (v : N) (s : State) : State :=
  let 'mkStore x0 x1 x2 x3 x4 x5 x6 x7 x8 x9 x10 x11 x12 x13 x14 x15 x16 x17 x18 _ := s in
  mkStore x0 x1 x2 x3 x4 x5 x6 x7 x8 x9 x10 x11 x12 x13 x14 x15 x16 x17 x18 v.

#[global] Instance GrowlType_eq_dec : EqDecision GrowlType.
Proof. solve_decision. Defined.
#[global] Instance GrowlModel_eq_dec : EqDecision GrowlModel.
Proof. solve_decision. Defined.

Abbreviation Store := (M State IStorage.Call).

Definition mediaLinkIdGetter : Store string :=
  i ← gets mediaLinkId;
  modify (set_mediaLinkId (i + 1)%N);;
  mret (toString i).

(** [this.storage.f(...)]: a [TypeError] while [storage] is still [null]. *)
Definition callStorage (c : IStorage.Call) : Store unit :=
  st ← gets storage;
  if (st : bool) then emit c else throw TypeError.

(** The [Validate] decorator: whatever the mutation throws is replaced by
    an [Error] naming the mutation (the text also prints the arguments and
    the state). *)
Definition Validate (propertyKey : string) (original : Store unit) : Store unit :=
  tryCatch original (λ _, throw (Error ("store." +:+ propertyKey))).

(** [this.roomsDict[id]], read for a property access: a [TypeError] when
    the room is absent. *)
Definition getRoom (id : number) : Store RoomModel :=
  rooms ← gets roomsDict;
  match rooms !! id with
  | Some r => mret r
  | None => throw TypeError
  end.

(** An in-place update of the room object [this.roomsDict[id]]. *)
Definition withRoom (id : number) (f : RoomModel → Outcome RoomModel) : Store unit :=
  r ← getRoom id;
  match f r with
  | Ret r' => modify (λ s, set_roomsDict (<[id := r']> (roomsDict s)) s)
  | Throw e => throw e
  end.

Definition withCallInfo (id : number) (f : CallsInfoModel → CallsInfoModel) : Store unit :=
  withRoom id (λ r, Ret (set_callInfo (f (callInfo r)) r)).

Definition set_transfer (v : option MessageTransferInfo) (m : MessageModel) : MessageModel :=
  let 'mkMessage a b c d e f g h i j _ := m in mkMessage a b c d e f g h i j v.

(** An in-place update of [this.roomsDict[roomId].messages[messageId]]. *)
Definition withMessage (roomId messageId : number)
    (f : MessageModel → Outcome MessageModel) : Store unit :=
  withRoom roomId (λ r,
    match messages r !! messageId with
    | None => Throw TypeError
    | Some m =>
        match f m with
        | Ret m' => Ret (set_messages (<[messageId := m']> (messages r)) r)
        | Throw e => Throw e
        end
    end).

Definition setMessageProgress (roomId messageId uploaded : number) : Store unit :=
  withMessage roomId messageId (λ m,
    match transfer m with
    | Some t =>
        match upload t with
        | Some u =>
            Ret (set_transfer
                   (Some {| upload := Some {| total := total u; uploaded := uploaded |};
                            error := error t |}) m)
        | None => Throw (Error "Transfer upload doesn't exist")
        end
    | None => Throw (Error "Transfer upload doesn't exist")
    end).

Definition setStorage : Store unit := modify (set_storage true).

Definition setUploadProgress (roomId messageId : number)
    (upload : UploadProgressModel) : Store unit :=
  withMessage roomId messageId (λ m,
    match transfer m with
    | Some t => Ret (set_transfer (Some {| Model.upload := Some upload; error := error t |}) m)
    | None => Throw (Error "Transfer upload doesn't exist")
    end).

Definition setIncomingCall (payload : option IncomingCallModel) : Store unit :=
  modify (set_incomingCall payload).

Definition setCallOpponent (roomId : number) (opponentWsId : string)
    (callInfoModel : option CallInfoModel) : Store unit :=
  Validate "setCallOpponent"
    (withCallInfo roomId (λ ci,
       match callInfoModel with
       | Some c => set_calls (<[opponentWsId := c]> (calls ci)) ci
       | None => set_calls (delete opponentWsId (calls ci)) ci
       end)).

(** An in-place update of [this.roomsDict[roomId].callInfo.calls[opponentWsId]]. *)
Definition withCall (roomId : number) (opponentWsId : string)
    (f : CallInfoModel → CallInfoModel) : Store unit :=
  withRoom roomId (λ r,
    match calls (callInfo r) !! opponentWsId with
    | None => Throw TypeError
    | Some c =>
        Ret (set_callInfo
               (set_calls (<[opponentWsId := f c]> (calls (callInfo r))) (callInfo r)) r)
    end).

Definition setOpponentVoice (roomId : number) (opponentWsId : string)
    (voice : number) : Store unit :=
  Validate "setOpponentVoice"
    (withCall roomId opponentWsId (λ c,
       {| call_mediaStreamLink := call_mediaStreamLink c; connected := connected c;
          call_userId := call_userId c; opponentCurrentVoice := voice |})).

Definition setOpponentAnchor (roomId : number) (opponentWsId : string)
    (anchor : MediaStreamRef) : Store unit :=
  key ← mediaLinkIdGetter;
  withCall roomId opponentWsId (λ c,
    {| call_mediaStreamLink := Some key; connected := connected c;
       call_userId := call_userId c;
       opponentCurrentVoice := opponentCurrentVoice c |});;
  modify (λ s, set_mediaObjects (<[key := Some anchor]> (mediaObjects s)) s).

Definition setDim (payload : bool) : Store unit := modify (set_dim payload).

Definition addSendingFile (payload : SendingFile) : Store unit :=
  withRoom (sf_roomId payload) (λ r,
    Ret (set_sendingFiles (<[sf_connId payload := payload]> (sendingFiles r)) r)).

Definition toggleContainer (roomId : number) : Store unit :=
  withCallInfo roomId (λ ci, set_callContainer (negb (callContainer ci)) ci).

Definition setContainerToState (id : number) (state : bool) : Store unit :=
  withCallInfo id (set_callContainer state).

Definition setCurrentMicLevel (id : number) (state : number) : Store unit :=
  withCallInfo id (set_currentMicLevel state).

Definition setCurrentMic (id : number) (state : string) : Store unit :=
  withCallInfo id (set_currentMic (Some state)).

Definition setCurrentSpeaker (id : number) (state : string) : Store unit :=
  withCallInfo id (set_currentSpeaker (Some state)).

Definition setCurrentWebcam (id : number) (state : string) : Store unit :=
  withCallInfo id (set_currentWebcam (Some state)).

Definition setMicToState (id : number) (state : bool) : Store unit :=
  withCallInfo id (set_showMic state).

Definition setVideoToState (id : number) (state : bool) : Store unit :=
  withCallInfo id (λ ci, set_shareScreen false (set_showVideo state ci)).

Definition setDevices (microphones webcams speakers : gmap string string) : Store unit :=
  modify (set_microphones microphones);;
  modify (set_webcams webcams);;
  modify (set_speakers speakers).

Definition setShareScreenToState (id : number) (state : bool) : Store unit :=
  withCallInfo id (λ ci, set_showVideo false (set_shareScreen state ci)).

Definition setCallActiveToState (id : number) (state : bool) : Store unit :=
  withCallInfo id (set_callActive state).

Definition setLocalStreamSrc (id : number) (media : option MediaStreamRef) : Store unit :=
  Validate "setLocalStreamSrc"
    (key ← mediaLinkIdGetter;
     modify (λ s, set_mediaObjects (<[key := media]> (mediaObjects s)) s);;
     withCallInfo id (set_mediaStreamLink (Some key))).

Definition addReceivingFile (payload : ReceivingFile) : Store unit :=
  withRoom (rf_roomId payload) (λ r,
    Ret (set_receivingFiles (<[rf_connId payload := payload]> (receivingFiles r)) r)).

(** An in-place update of [this.roomsDict[roomId].sendingFiles[connId]]. *)
Definition withSendingFile (roomId : number) (connId : string)
    (f : SendingFile → Outcome SendingFile) : Store unit :=
  withRoom roomId (λ r,
    match sendingFiles r !! connId with
    | None => Throw TypeError
    | Some sf =>
        match f sf with
        | Ret sf' => Ret (set_sendingFiles (<[connId := sf']> (sendingFiles r)) r)
        | Throw e => Throw e
        end
    end).

Definition set_transfers (v : gmap string SendingFileTransfer) (f : SendingFile) : SendingFile :=
  {| sf_time := sf_time f; sf_fileName := sf_fileName f; sf_roomId := sf_roomId f;
     sf_connId := sf_connId f; fileSize := fileSize f; transfers := v |}.

(** An in-place update of
    [this.roomsDict[roomId].sendingFiles[connId].transfers[transfer]]. *)
Definition withSendingTransfer (roomId : number) (connId transferId : string)
    (f : SendingFileTransfer → SendingFileTransfer) : Store unit :=
  withSendingFile roomId connId (λ sf,
    match transfers sf !! transferId with
    | None => Throw TypeError
    | Some t => Ret (set_transfers (<[transferId := f t]> (transfers sf)) sf)
    end).

(** An in-place update of [this.roomsDict[roomId].receivingFiles[connId]]. *)
Definition withReceivingFile (roomId : number) (connId : string)
    (f : ReceivingFile → ReceivingFile) : Store unit :=
  withRoom roomId (λ r,
    match receivingFiles r !! connId with
    | None => Throw TypeError
    | Some rf => Ret (set_receivingFiles (<[connId := f rf]> (receivingFiles r)) r)
    end).

Definition addSendingFileTransfer (roomId : number) (connId transferId : string)
    (transfer : SendingFileTransfer) : Store unit :=
  Validate "addSendingFileTransfer"
    (withSendingFile roomId connId (λ sf,
       Ret (set_transfers (<[transferId := transfer]> (transfers sf)) sf))).

(** In the two status payloads [error] and [anchor] may be left out
    ([undefined], here the outer [None]) or given, possibly as [null]. *)
Definition setReceivingFileStatus (roomId : number) (connId : string)
    (status : FileTransferStatus) (error : option (option string))
    (anchor : option (option string)) : Store unit :=
  withReceivingFile roomId connId (λ rf,
    {| rf_time := rf_time rf; rf_upload := rf_upload rf; rf_status := status;
       rf_fileName := rf_fileName rf; rf_opponentWsId := rf_opponentWsId rf;
       rf_roomId := rf_roomId rf; rf_connId := rf_connId rf;
       Model.anchor := default (Model.anchor rf) anchor;
       rf_error := default (rf_error rf) error;
       rf_userId := rf_userId rf |}).

Definition setSendingFileStatus (roomId : number) (connId transfer : string)
    (status : FileTransferStatus) (error : option (option string)) : Store unit :=
  Validate "setSendingFileStatus"
    (withSendingTransfer roomId connId transfer (λ t,
       {| st_status := status; st_userId := st_userId t; st_upload := st_upload t;
          st_error := default (st_error t) error |})).

Definition setSendingFileUploaded (roomId : number) (connId transfer : string)
    (uploaded : number) : Store unit :=
  withSendingTransfer roomId connId transfer (λ t,
    {| st_status := st_status t; st_userId := st_userId t;
       st_upload := {| total := total (st_upload t); Model.uploaded := uploaded |};
       st_error := st_error t |}).

Definition setReceivingFileUploaded (roomId : number) (connId : string)
    (uploaded : number) : Store unit :=
  withReceivingFile roomId connId (λ rf,
    {| rf_time := rf_time rf;
       rf_upload := {| total := total (rf_upload rf); Model.uploaded := uploaded |};
       rf_status := rf_status rf;
       rf_fileName := rf_fileName rf; rf_opponentWsId := rf_opponentWsId rf;
       rf_roomId := rf_roomId rf; rf_connId := rf_connId rf;
       anchor := anchor rf; rf_error := rf_error rf; rf_userId := rf_userId rf |}).

Definition incNewMessagesCount (roomId : number) : Store unit :=
  withRoom roomId (λ r, Ret (set_newMessagesCount (newMessagesCount r + 1)%Z r)).

Definition removeMessageProgress (roomId messageId : number) : Store unit :=
  withMessage roomId messageId (λ m,
    match transfer m with
    | Some t => Ret (set_transfer (Some {| upload := None; error := error t |}) m)
    | None => Throw TypeError
    end).

Definition setMessageProgressError (roomId messageId : number)
    (error : option string) : Store unit :=
  withMessage roomId messageId (λ m,
    match transfer m with
    | Some t => Ret (set_transfer (Some {| upload := upload t; Model.error := error |}) m)
    | None => Throw TypeError
    end).

Definition addMessage (m : MessageModel) : Store unit :=
  withRoom (msg_roomId m) (λ r,
    Ret (set_messages (<[msg_id m := m]> (messages r)) r));;
  callStorage (IStorage.saveMessage m).

Definition deleteMessage (roomId messageId : number) : Store unit :=
  withRoom roomId (λ r, Ret (set_messages (delete messageId (messages r)) r));;
  callStorage (IStorage.deleteMessage messageId).

Definition addMessages (roomId : number) (ms : list MessageModel) : Store unit :=
  withRoom roomId (λ r,
    Ret (set_messages (foldl (λ om m, <[msg_id m := m]> om) (messages r) ms) r));;
  callStorage (IStorage.saveMessages ms).

Definition setEditedMessage (editedMessage : option EditingMessage) : Store unit :=
  modify (set_editedMessage editedMessage);;
  modify (set_activeUserId None).

Definition setSearchTo (roomId : number) (search : SearchModel) : Store unit :=
  withRoom roomId (λ r, Ret (set_search search r)).

Definition setActiveUserId (activeUserId : number) : Store unit :=
  modify (set_activeUserId (Some activeUserId));;
  modify (set_editedMessage None).

Definition setAllLoaded (roomId : number) : Store unit :=
  withRoom roomId (λ r, Ret (set_allLoaded true r)).

Definition setRoomSettings (srm : RoomSettingsModel) : Store unit :=
  withRoom (rs_id srm) (λ r,
    Ret (set_name (rs_name srm)
           (set_volume (rs_volume srm)
              (set_notifications (rs_notifications srm) r))));;
  callStorage (IStorage.updateRoom srm).

Definition clearMessages : Store unit :=
  modify (λ s, set_roomsDict (set_messages ∅ <$> roomsDict s) s);;
  callStorage IStorage.clearMessages.

Definition deleteRoom (roomId : number) : Store unit :=
  modify (λ s, set_roomsDict (delete roomId (roomsDict s)) s);;
  callStorage (IStorage.deleteRoom roomId).

Definition setRoomsUsers (roomId : number) (users : list number) : Store unit :=
  withRoom roomId (λ r, Ret (set_users users r));;
  callStorage (IStorage.saveRoomUsers roomId users).

Definition setIsOnline (isOnline : bool) : Store unit :=
  modify (set_isOnline isOnline).

Definition addGrowl (growlModel : GrowlModel) : Store unit :=
  modify (λ s, set_growls (growls s ++ [growlModel]) s).

(** [indexOf] then [splice(index, 1)]: the first occurrence goes.  Growl
    objects are compared by identity in the source, by their fields here. *)
Fixpoint removeFirst (g : GrowlModel) (l : list GrowlModel) : list GrowlModel :=
  match l with
  | [] => []
  | x :: xs => if decide (x = g) then xs else x :: removeFirst g xs
  end.

Definition removeGrowl (growlModel : GrowlModel) : Store unit :=
  modify (λ s, set_growls (removeFirst growlModel (growls s)) s).

Definition setActiveRoomId (id : number) : Store unit :=
  modify (set_activeRoomId (Some id));;
  modify (λ s, set_roomsDict (alter (set_newMessagesCount 0%Z) id (roomsDict s)) s);;
  modify (set_editedMessage None).

Definition setRegHeader (regHeader : string) : Store unit :=
  modify (set_regHeader (Some regHeader)).

Section consts.
(** [ALL_ROOM_ID] of [utils/consts], which is not among the sources. *)
Context (ALL_ROOM_ID : number).

Definition addUser (u : UserModel) : Store unit :=
  modify (λ s, set_allUsersDict (<[user_id u := u]> (allUsersDict s)) s);;
  modify (λ s,
    set_roomsDict
      (alter (λ r, if decide (user_id u ∈ users r) then r
                   else set_users (users r ++ [user_id u]) r)
             ALL_ROOM_ID (roomsDict s)) s);;
  callStorage (IStorage.saveUser u).
End consts.

Definition addChangeOnlineEntry (roomIds : list number)
    (changeOnline : ChangeOnline) : Store unit :=
  forEach roomIds (λ r,
    withRoom r (λ room,
      Ret (set_changeOnline (Model.changeOnline room ++ [changeOnline]) room))).

Definition setOnline (ids : list number) : Store unit := modify (set_online ids).

Definition setUsers (users : gmap Z UserModel) : Store unit :=
  modify (set_allUsersDict users);;
  callStorage (IStorage.setUsers users).

Definition setUser (user : UserModel) : Store unit :=
  us ← gets allUsersDict;
  match us !! user_id user with
  | None => throw TypeError
  | Some u =>
      modify (set_allUsersDict
                (<[user_id user := {| Model.user := Model.user user; user_id := user_id u;
                                      sex := sex user; location := location u |}]> us));;
      callStorage (IStorage.saveUser user)
  end.

Definition setUserInfo (userInfo : CurrentUserInfoModel) : Store unit :=
  modify (set_userInfo (Some userInfo));;
  callStorage (IStorage.setUserProfile userInfo).

Definition setUserSettings (userInfo : CurrentUserSettingsModel) : Store unit :=
  modify (set_userSettings (Some userInfo));;
  callStorage (IStorage.setUserSettings userInfo).

Definition setUserImage (userImage : string) : Store unit :=
  modify (set_userImage (Some userImage)).

Definition setRooms (rooms : gmap Z RoomModel) : Store unit :=
  modify (set_roomsDict rooms);;
  callStorage (IStorage.setRooms rooms).

Definition init (roomsDict : gmap Z RoomModel) (profile : CurrentUserInfoModel)
    (settings : CurrentUserSettingsModel) (allUsersDict : gmap Z UserModel) : Store unit :=
  modify (set_roomsDict roomsDict);;
  modify (set_userInfo (Some profile));;
  modify (set_userSettings (Some settings));;
  modify (set_allUsersDict allUsersDict).

Definition addRoom (room : RoomModel) : Store unit :=
  modify (λ s, set_roomsDict (<[room_id room := room]> (roomsDict s)) s);;
  callStorage (IStorage.saveRoom room).

Definition logout : Store unit :=
  modify (set_userInfo None);;
  modify (set_userSettings None);;
  modify (set_userImage None);;
  modify (set_roomsDict ∅);;
  modify (set_allUsersDict ∅);;
  modify (set_activeUserId None);;
  modify (set_online []);;
  modify (set_activeRoomId None);;
  modify (set_editedMessage None);;
  callStorage IStorage.clearStorage.

(** The mutations as data: one constructor per [@Mutation] method of the
    class, with the fields of its payload as arguments. *)
Inductive Mutation : Type :=
| SetMessageProgress (roomId messageId uploaded : number)
| SetStorage
| SetUploadProgress (roomId messageId : number) (upload : UploadProgressModel)
| SetIncomingCall (payload : option IncomingCallModel)
| SetCallOpponent (roomId : number) (opponentWsId : string) (callInfoModel : option CallInfoModel)
| SetOpponentVoice (roomId : number) (opponentWsId : string) (voice : number)
| SetOpponentAnchor (roomId : number) (opponentWsId : string) (anchor : MediaStreamRef)
| SetDim (payload : bool)
| AddSendingFile (payload : SendingFile)
| ToggleContainer (roomId : number)
| SetContainerToState (id : number) (state : bool)
| SetCurrentMicLevel (id : number) (state : number)
| SetCurrentMic (id : number) (state : string)
| SetCurrentSpeaker (id : number) (state : string)
| SetCurrentWebcam (id : number) (state : string)
| SetMicToState (id : number) (state : bool)
| SetVideoToState (id : number) (state : bool)
| SetDevices (microphones webcams speakers : gmap string string)
| SetShareScreenToState (id : number) (state : bool)
| SetCallActiveToState (id : number) (state : bool)
| SetLocalStreamSrc (id : number) (media : option MediaStreamRef)
| AddReceivingFile (payload : ReceivingFile)
| AddSendingFileTransfer (roomId : number) (connId transferId : string) (transfer : SendingFileTransfer)
| SetReceivingFileStatus (roomId : number) (connId : string) (status : FileTransferStatus) (error anchor : option (option string))
| SetSendingFileStatus (roomId : number) (connId transfer : string) (status : FileTransferStatus) (error : option (option string))
| SetSendingFileUploaded (roomId : number) (connId transfer : string) (uploaded : number)
| SetReceivingFileUploaded (roomId : number) (connId : string) (uploaded : number)
| IncNewMessagesCount (roomId : number)
| RemoveMessageProgress (roomId messageId : number)
| SetMessageProgressError (roomId messageId : number) (error : option string)
| AddMessage (m : MessageModel)
| DeleteMessage (roomId messageId : number)
| AddMessages (roomId : number) (ms : list MessageModel)
| SetEditedMessage (editedMessage : option EditingMessage)
| SetSearchTo (roomId : number) (search : SearchModel)
| SetActiveUserId (activeUserId : number)
| SetAllLoaded (roomId : number)
| SetRoomSettings (srm : RoomSettingsModel)
| ClearMessages
| DeleteRoom (roomId : number)
| SetRoomsUsers (roomId : number) (users : list number)
| SetIsOnline (isOnline : bool)
| AddGrowl (growlModel : GrowlModel)
| RemoveGrowl (growlModel : GrowlModel)
| SetActiveRoomId (id : number)
| SetRegHeader (regHeader : string)
| AddUser (u : UserModel)
| AddChangeOnlineEntry (roomIds : list number) (changeOnline : ChangeOnline)
| SetOnline (ids : list number)
| SetUsers (users : gmap Z UserModel)
| SetUser (user : UserModel)
| SetUserInfo (userInfo : CurrentUserInfoModel)
| SetUserSettings (userInfo : CurrentUserSettingsModel)
| SetUserImage (userImage : string)
| SetRooms (rooms : gmap Z RoomModel)
| Init (roomsDict : gmap Z RoomModel) (profile : CurrentUserInfoModel) (settings : CurrentUserSettingsModel) (allUsersDict : gmap Z UserModel)
| AddRoom (room : RoomModel)
| Logout.

Section commit.
Context (ALL_ROOM_ID : number).

(** [store.m(payload)]. *)
Definition commit (m : Mutation) : Store unit :=
  match m with
  | SetMessageProgress roomId messageId uploaded => setMessageProgress roomId messageId uploaded
  | SetStorage => setStorage
  | SetUploadProgress roomId messageId upload => setUploadProgress roomId messageId upload
  | SetIncomingCall payload => setIncomingCall payload
  | SetCallOpponent roomId opponentWsId callInfoModel => setCallOpponent roomId opponentWsId callInfoModel
  | SetOpponentVoice roomId opponentWsId voice => setOpponentVoice roomId opponentWsId voice
  | SetOpponentAnchor roomId opponentWsId anchor => setOpponentAnchor roomId opponentWsId anchor
  | SetDim payload => setDim payload
  | AddSendingFile payload => addSendingFile payload
  | ToggleContainer roomId => toggleContainer roomId
  | SetContainerToState id state => setContainerToState id state
  | SetCurrentMicLevel id state => setCurrentMicLevel id state
  | SetCurrentMic id state => setCurrentMic id state
  | SetCurrentSpeaker id state => setCurrentSpeaker id state
  | SetCurrentWebcam id state => setCurrentWebcam id state
  | SetMicToState id state => setMicToState id state
  | SetVideoToState id state => setVideoToState id state
  | SetDevices microphones webcams speakers => setDevices microphones webcams speakers
  | SetShareScreenToState id state => setShareScreenToState id state
  | SetCallActiveToState id state => setCallActiveToState id state
  | SetLocalStreamSrc id media => setLocalStreamSrc id media
  | AddReceivingFile payload => addReceivingFile payload
  | AddSendingFileTransfer roomId connId transferId transfer => addSendingFileTransfer roomId connId transferId transfer
  | SetReceivingFileStatus roomId connId status error anchor => setReceivingFileStatus roomId connId status error anchor
  | SetSendingFileStatus roomId connId transfer status error => setSendingFileStatus roomId connId transfer status error
  | SetSendingFileUploaded roomId connId transfer uploaded => setSendingFileUploaded roomId connId transfer uploaded
  | SetReceivingFileUploaded roomId connId uploaded => setReceivingFileUploaded roomId connId uploaded
  | IncNewMessagesCount roomId => incNewMessagesCount roomId
  | RemoveMessageProgress roomId messageId => removeMessageProgress roomId messageId
  | SetMessageProgressError roomId messageId error => setMessageProgressError roomId messageId error
  | AddMessage m => addMessage m
  | DeleteMessage roomId messageId => deleteMessage roomId messageId
  | AddMessages roomId ms => addMessages roomId ms
  | SetEditedMessage editedMessage => setEditedMessage editedMessage
  | SetSearchTo roomId search => setSearchTo roomId search
  | SetActiveUserId activeUserId => setActiveUserId activeUserId
  | SetAllLoaded roomId => setAllLoaded roomId
  | SetRoomSettings srm => setRoomSettings srm
  | ClearMessages => clearMessages
  | DeleteRoom roomId => deleteRoom roomId
  | SetRoomsUsers roomId users => setRoomsUsers roomId users
  | SetIsOnline isOnline => setIsOnline isOnline
  | AddGrowl growlModel => addGrowl growlModel
  | RemoveGrowl growlModel => removeGrowl growlModel
  | SetActiveRoomId id => setActiveRoomId id
  | SetRegHeader regHeader => setRegHeader regHeader
  | AddUser u => addUser ALL_ROOM_ID u
  | AddChangeOnlineEntry roomIds changeOnline => addChangeOnlineEntry roomIds changeOnline
  | SetOnline ids => setOnline ids
  | SetUsers users => setUsers users
  | SetUser user => setUser user
  | SetUserInfo userInfo => setUserInfo userInfo
  | SetUserSettings userInfo => setUserSettings userInfo
  | SetUserImage userImage => setUserImage userImage
  | SetRooms rooms => setRooms rooms
  | Init roomsDict profile settings allUsersDict => init roomsDict profile settings allUsersDict
  | AddRoom room => addRoom room
  | Logout => logout
  end.

(** A sequence of commits, in order.  A mutation that throws leaves what it
    had assigned; the caller of a Vuex commit sees the exception, the store
    goes on with the next commit. *)
Fixpoint run (ms : list Mutation) (s : State) : State :=
  match ms with
  | [] => s
  | m :: rest => run rest (final (commit m s))
  end.
End commit.

(** The state of the module before any commit. *)
Definition initial : State :=
  {| storage := false; isOnline := false; growls := []; dim := false;
     incomingCall := None; microphones := ∅; speakers := ∅; webcams := ∅;
     editedMessage := None; activeRoomId := None; activeUserId := None;
     userInfo := None; userSettings := None; userImage := None;
     allUsersDict := ∅; regHeader := None; online := []; roomsDict := ∅;
     mediaObjects := ∅; mediaLinkId := 0%N |}.

(** *** The two video flags of a room *)

(** [showVideo] and [shareScreen] of a room's call info. *)
Definition flags (r : RoomModel) : bool * bool :=
  (showVideo (callInfo r), shareScreen (callInfo r)).

(** Camera video and screen sharing are not both switched on. *)
Definition exclusive (fl : bool * bool) : Prop := ¬ (fl.1 = true ∧ fl.2 = true).

Definition storeExclusive (s : State) : Prop :=
  ∀ id r, roomsDict s !! id = Some r → exclusive (flags r).

(** The room objects a mutation brings into [roomsDict] from its payload. *)
Definition installs (m : Mutation) (r : RoomModel) : Prop :=
  match m with
  | AddRoom room => r = room
  | SetRooms rooms | Init rooms _ _ _ => ∃ id, rooms !! id = Some r
  | _ => False
  end.

(** What committing [m] makes of the flags [old] of the room [id]. *)
Definition flagsAfter (m : Mutation) (id : number) (old : bool * bool) : bool * bool :=
  match m with
  | SetVideoToState id' state => if decide (id' = id) then (state, false) else old
  | SetShareScreenToState id' state => if decide (id' = id) then (false, state) else old
  | _ => old
  end.

(** [m] leaves the flags alone: a room found after [m], whether [m] returns
    or throws, was there before under the same key and with the same
    flags. *)
Definition keepsFlags {A} (m : Store A) : Prop :=
  ∀ s id r', roomsDict (final (m s)) !! id = Some r' →
             ∃ r, roomsDict s !! id = Some r ∧ flags r' = flags r.

End DefaultStore.

(** ** The call handler *)
Module CallHandler.
Import Js Eff Messages.

(** [CallStatus] of [types/messages]: the four values the handler assigns
    and tests. *)
Inductive CallStatus : Type :=
| not_inited | sent_offer | received_offer | accepted.

#[global] Instance CallStatus_eq_dec : EqDecision CallStatus.
Proof. solve_decision. Defined.

(** The media objects of the browser, as far as the handler reads and
    changes them.  A stream is the array of its tracks ([getTracks()]); it
    is [active] while one of them has not ended. *)
Inductive TrackKind : Type := audio | video.
Inductive TrackState : Type := live | ended.

Record MediaStreamTrack : Type := mkTrack {
  kind : TrackKind;
  isShare : bool;
  enabled : bool;
  readyState : TrackState }.

Definition MediaStream : Type := list MediaStreamTrack.

#[global] Instance TrackState_eq_dec : EqDecision TrackState.
Proof. solve_decision. Defined.

(** [track.stop()]. *)
Definition stop (t : MediaStreamTrack) : MediaStreamTrack :=
  {| kind := kind t; isShare := isShare t; enabled := enabled t; readyState := ended |}.

Definition active (ms : MediaStream) : bool :=
  existsb (λ t, bool_decide (readyState t = live)) ms.

(** The fields of the handler ([webrtcConnnectionsIds] and [connectionId]
    come from [BaseTransferHandler]).  [wsConnectionId] is what
    [this.wsHandler.getWsConnectionId()] answers.  [streams] holds the
    [MediaStream] objects allocated so far: a [MediaStreamRef] is an index
    into it, so that two references to one stream see the same tracks.
    [audioProcessor] is [null] or an analyzer whose [onaudioprocess]
    callback is installed ([Some true]) or removed ([Some false]). *)
Record Handler : Type := mkHandler {
  roomId : Z;
  connectionId : option string;
  webrtcConnnectionsIds : list string;
  wsConnectionId : string;
  localStream : option MediaStreamRef;
  audioProcessor : option bool;
  callStatus : CallStatus;
  acceptedPeers : list string;
  streams : list MediaStream }.

Definition set_connectionId (v : option string) (s : Handler) : Handler :=
  let 'mkHandler x0 _ x2 x3 x4 x5 x6 x7 x8 := s in mkHandler x0 v x2 x3 x4 x5 x6 x7 x8.
Definition set_webrtcConnnectionsIds (v : list string) (s : Handler) : Handler :=
  let 'mkHandler x0 x1 _ x3 x4 x5 x6 x7 x8 := s in mkHandler x0 x1 v x3 x4 x5 x6 x7 x8.
Definition set_localStream (v : option MediaStreamRef) (s : Handler) : Handler :=
  let 'mkHandler x0 x1 x2 x3 _ x5 x6 x7 x8 := s in mkHandler x0 x1 x2 x3 v x5 x6 x7 x8.
Definition set_audioProcessor (v : option bool) (s : Handler) : Handler :=
  let 'mkHandler x0 x1 x2 x3 x4 _ x6 x7 x8 := s in mkHandler x0 x1 x2 x3 x4 v x6 x7 x8.
Definition set_callStatus (v : CallStatus) (s : Handler) : Handler :=
  let 'mkHandler x0 x1 x2 x3 x4 x5 _ x7 x8 := s in mkHandler x0 x1 x2 x3 x4 x5 v x7 x8.
Definition set_acceptedPeers (v : list string) (s : Handler) : Handler :=
  let 'mkHandler x0 x1 x2 x3 x4 x5 x6 _ x8 := s in mkHandler x0 x1 x2 x3 x4 x5 x6 v x8.
Definition set_streams (v : list MediaStream) (s : Handler) : Handler :=
  let 'mkHandler x0 x1 x2 x3 x4 x5 x6 x7 _ := s in mkHandler x0 x1 x2 x3 x4 x5 x6 x7 v.

(** What the browser answers while a method runs: the outcome of
    [captureInput] (the tracks of the stream obtained from the devices, or
    the error it fails with) and the analyzer that
    [createMicrophoneLevelVoice] builds for that stream. *)
Record Browser : Type := mkBrowser {
  captured : Outcome MediaStream;
  analyzer : option bool }.

(** What the handler does to its collaborators. *)
Inductive Event : Type :=
| Log (msg : string)                               (* logger.log / debug *)
| LogError (msg : string)                          (* logger.error *)
| Notify (m : SubMessage)                          (* sub.notify *)
| Subscribe (key : string)                         (* sub.subscribe(key, this) *)
| WsReplyCall (connId : string)                    (* wsHandler.replyCall *)
| WsAcceptCall (connId : option string)            (* wsHandler.acceptCall *)
| Commit (m : DefaultStore.Mutation)               (* this.store.m(payload) *)
| GrowlErrorRaw (e : Exn)                          (* store.growlErrorRaw *)
| NewCallSenderPeerConnection
    (roomId : Z) (connectionId : option string) (opponentWsId : string) (userId : Z)
| NewCallReceiverPeerConnection
    (roomId : Z) (connectionId : option string) (opponentWsId : string) (userId : Z)
| MediaCapture                                     (* captureInput asks the devices *)
| TrackStop (stream : MediaStreamRef) (track : nat)  (* stream.getTracks()[track].stop() *)
| CreateMicrophoneLevelVoice (stream : MediaStreamRef)
| RouterReplace (roomId : Z).                      (* router.replace(`/chat/${roomId}`) *)

Abbreviation Call := (M Handler Event).

(** [this.connectionId!] handed to a function that builds a key from it:
    string concatenation renders [null] as ['null']. *)
Definition keyPart (connectionId : option string) : string :=
  default "null" connectionId.

Definition setCallStatus (status : CallStatus) : Call unit :=
  emit (Log "Setting call status to {}");;
  modify (set_callStatus status).

Definition onacceptCall (opponentWsId : string) : Call unit :=
  status ← gets callStatus;
  if decide (status ≠ received_offer) then
    connId ← gets connectionId;
    if negb (truthy connId) then throw (Error "Conn is is null")
    else
      stream ← gets localStream;
      emit (Notify (connectToRemote
                      (Subscription.getPeerConnectionId (keyPart connId) opponentWsId)
                      stream))
  else
    modify (λ s, set_acceptedPeers (acceptedPeers s ++ [opponentWsId]) s).

(** [captureInput]: the devices are asked for a stream; the browser's
    answer is a fresh [MediaStream] object or a rejection. *)
Definition captureInput (env : Browser) : Call MediaStreamRef :=
  emit (Log "capturing input");;
  emit MediaCapture;;
  match captured env with
  | Ret tracks =>
      ss ← gets streams;
      modify (set_streams (ss ++ [tracks]));;
      mret (length ss)
  | Throw e => throw e
  end.

Definition destroyStreamData (endStream : option MediaStreamRef) : Call unit :=
  match endStream with
  | None => mret tt
  | Some r =>
      ss ← gets streams;
      match ss !! r with
      | None => mret tt
      | Some tracks =>
          forEach (seq 0 (length tracks)) (λ i, emit (TrackStop r i));;
          modify (set_streams (<[r := stop <$> tracks]> ss))
      end
  end.

Definition destroyAudioProcessor : Call unit :=
  ap ← gets audioProcessor;
  match ap with
  | Some true =>
      emit (Log "Removing local audioproc");;
      modify (set_audioProcessor (Some false))
  | _ => mret tt
  end.

Definition stopLocalStream : Call unit :=
  destroyAudioProcessor;;
  stream ← gets localStream;
  destroyStreamData stream.

(** The body of [setCallIconsState] is commented out in the source. *)
Definition setCallIconsState : Call unit := mret tt.

(** [this.logger.log('Local stream has been attached')] builds the log
    call and drops it: nothing is logged. *)
Definition attachLocalStream (env : Browser) (stream : option MediaStreamRef) : Call unit :=
  match stream with
  | Some r =>
      modify (set_localStream (Some r));;
      emit (CreateMicrophoneLevelVoice r);;
      modify (set_audioProcessor (analyzer env));;
      id ← gets roomId;
      emit (Commit (DefaultStore.SetLocalStreamSrc id (Some r)))
  | None => mret tt
  end;;
  setCallIconsState.

(** The text of the growl names the devices asked for (read from the
    store) and the error; the event keeps the error. *)
Definition handleStream (e : Exn) (endStream : option MediaStreamRef) : Call unit :=
  destroyStreamData endStream;;
  emit (GrowlErrorRaw e);;
  emit (LogError "onFailedCaptureSource {}").

(** [this.localStream && this.localStream.active]. *)
Definition localStreamActive (s : Handler) : bool :=
  match localStream s with
  | Some r => match streams s !! r with
              | Some tracks => active tracks
              | None => false
              end
  | None => false
  end.

(** In the [try] block only [captureInput] can throw, and the local
    [stream] is still [null] then: that is what [handleStream] gets. *)
Definition updateConnection (env : Browser) : Call unit :=
  emit (Log "updateConnection");;
  isActive ← gets localStreamActive;
  if (isActive : bool) then
    tryCatch
      (stream ← captureInput env;
       stopLocalStream;;
       attachLocalStream env (Some stream);;
       ids ← gets webrtcConnnectionsIds;
       forEach ids (λ pcName,
         connId ← gets connectionId;
         current ← gets localStream;
         emit (Notify (streamChanged
                         (Subscription.getPeerConnectionId (keyPart connId) pcName)
                         stream current))))
      (λ e, handleStream e None)
  else mret tt.

Definition createCallPeerConnection (opponentWsId : string) (userId : Z) : Call unit :=
  self ← gets wsConnectionId;
  room ← gets roomId;
  connId ← gets connectionId;
  (if gt opponentWsId self
   then emit (NewCallSenderPeerConnection room connId opponentWsId userId)
   else emit (NewCallReceiverPeerConnection room connId opponentWsId userId));;
  modify (λ s, set_webrtcConnnectionsIds (webrtcConnnectionsIds s ++ [opponentWsId]) s).

Definition replyCall (opponentWsId : string) (userId : Z) : Call unit :=
  createCallPeerConnection opponentWsId userId.

(** The arguments are the fields of the [OfferCall] message. *)
Definition initAndDisplayOffer (connId : string) (roomId userId : Z)
    (opponentWsId : string) : Call unit :=
  setCallStatus received_offer;;
  old ← gets connectionId;
  (if truthy old then emit (LogError "Old connId still exists {}") else mret tt);;
  modify (set_connectionId (Some connId));;
  emit (Subscribe (Subscription.getTransferId connId));;
  emit (Log "CallHandler initialized");;
  emit (WsReplyCall connId);;
  modify (λ s, set_acceptedPeers (acceptedPeers s ++ [opponentWsId]) s);;
  emit (Commit (DefaultStore.SetIncomingCall
                  (Some {| Model.ic_connId := connId; Model.ic_roomId := roomId;
                           Model.ic_userId := userId |})));;
  createCallPeerConnection opponentWsId userId.

Definition doAnswer (env : Browser) (withVideo : bool) : Call unit :=
  id ← gets CallHandler.roomId;
  emit (Commit (DefaultStore.SetIncomingCall None));;
  emit (Commit (DefaultStore.SetCallActiveToState id true));;
  emit (Commit (DefaultStore.SetContainerToState id true));;
  emit (Commit (DefaultStore.SetVideoToState id withVideo));;
  emit (Commit (DefaultStore.SetMicToState id true));;
  setCallStatus accepted;;
  stream ← captureInput env;
  attachLocalStream env (Some stream);;
  connId ← gets connectionId;
  emit (WsAcceptCall connId);;
  peers ← gets acceptedPeers;
  forEach peers (λ e,
    current ← gets localStream;
    connId ← gets connectionId;
    emit (Notify (connectToRemote
                    (Subscription.getPeerConnectionId (keyPart connId) e)
                    current)));;
  emit (RouterReplace id).

Definition answerCall (env : Browser) : Call unit := doAnswer env false.

(** [doAnswer] in its two parts, cut at [await this.captureInput()] while
    the devices are asked: a message of the relay that arrives in the
    meantime is handled between the two. *)
Definition doAnswerUntilCapture (withVideo : bool) : Call unit :=
  id ← gets CallHandler.roomId;
  emit (Commit (DefaultStore.SetIncomingCall None));;
  emit (Commit (DefaultStore.SetCallActiveToState id true));;
  emit (Commit (DefaultStore.SetContainerToState id true));;
  emit (Commit (DefaultStore.SetVideoToState id withVideo));;
  emit (Commit (DefaultStore.SetMicToState id true));;
  setCallStatus accepted;;
  emit (Log "capturing input");;
  emit MediaCapture.

Definition doAnswerFromCapture (env : Browser) : Call unit :=
  stream ← match captured env with
           | Ret tracks =>
               ss ← gets streams;
               modify (set_streams (ss ++ [tracks]));;
               mret (length ss)
           | Throw e => throw e
           end;
  attachLocalStream env (Some stream);;
  connId ← gets connectionId;
  emit (WsAcceptCall connId);;
  peers ← gets acceptedPeers;
  forEach peers (λ e,
    current ← gets localStream;
    connId ← gets connectionId;
    emit (Notify (connectToRemote
                    (Subscription.getPeerConnectionId (keyPart connId) e)
                    current)));;
  id ← gets CallHandler.roomId;
  emit (RouterReplace id).

Definition videoAnswerCall (env : Browser) : Call unit := doAnswer env true.

(** *** Reading a trace *)

(** The messages handed to [sub.notify], in order. *)
Definition notified (t : list Event) : list SubMessage :=
  omap (λ e, match e with Notify m => Some m | _ => None end) t.

(** The two peer-connection classes of a call, [CallSenderPeerConnection]
    and [CallReceiverPeerConnection].  The handler only constructs them;
    what each of them does is not among the sources. *)
Inductive PeerRole : Type := Sender | Receiver.

(** The links constructed, in order: the class and the opponent. *)
Definition constructed (t : list Event) : list (PeerRole * string) :=
  omap (λ e, match e with
             | NewCallSenderPeerConnection _ _ opp _ => Some (Sender, opp)
             | NewCallReceiverPeerConnection _ _ opp _ => Some (Receiver, opp)
             | _ => None
             end) t.

Definition isTrackStop (e : Event) : bool :=
  match e with TrackStop _ _ => true | _ => false end.

Definition isNotify (e : Event) : bool :=
  match e with Notify _ => true | _ => false end.

Definition isCapture (e : Event) : bool :=
  match e with MediaCapture => true | _ => false end.

(** Every notification precedes every stop of a track of stream [old]. *)
Definition notifiedBeforeStopped (old : MediaStreamRef) (t : list Event) : Prop :=
  ∀ i j m k, t !! i = Some (Notify m) → t !! j = Some (TrackStop old k) → i < j.

End CallHandler.

(** ** Scenarios

    Concrete handlers, links and browser answers on which the properties of
    Part II are tried. *)
Module Scenarios.
Import Js Messages.

Module Calls.
Import CallHandler.

Definition alice : Handler :=
  {| roomId := 1; connectionId := Some "conn"; webrtcConnnectionsIds := [];
     wsConnectionId := "0001:aaaa"; localStream := None; audioProcessor := None;
     callStatus := sent_offer; acceptedPeers := []; streams := [] |}.

Definition bob : Handler :=
  {| roomId := 1; connectionId := Some "conn"; webrtcConnnectionsIds := [];
     wsConnectionId := "0002:bbbb"; localStream := None; audioProcessor := None;
     callStatus := received_offer; acceptedPeers := []; streams := [] |}.

Definition caller : Handler :=
  {| roomId := 1; connectionId := Some "conn"; webrtcConnnectionsIds := ["0002:bbbb"];
     wsConnectionId := "0001:aaaa"; localStream := Some 0; audioProcessor := Some true;
     callStatus := sent_offer; acceptedPeers := [];
     streams := [[ {| kind := audio; isShare := false; enabled := true;
                      readyState := live |} ]] |}.

Definition callee : Handler :=
  {| roomId := 1; connectionId := Some "conn"; webrtcConnnectionsIds := ["0001:aaaa"];
     wsConnectionId := "0002:bbbb"; localStream := None; audioProcessor := None;
     callStatus := received_offer; acceptedPeers := ["0001:aaaa"; "0003:cccc"];
     streams := [] |}.

Definition microphone : MediaStreamTrack :=
  {| kind := audio; isShare := false; enabled := true; readyState := live |}.

Definition camera : MediaStreamTrack :=
  {| kind := video; isShare := false; enabled := true; readyState := live |}.

Definition devices : Browser :=
  {| captured := Ret [microphone; camera]; analyzer := Some true |}.

Definition inCall : Handler :=
  {| roomId := 1; connectionId := Some "conn";
     webrtcConnnectionsIds := ["0002:bbbb"; "0003:cccc"];
     wsConnectionId := "0001:aaaa"; localStream := Some 0; audioProcessor := Some true;
     callStatus := accepted; acceptedPeers := []; streams := [[microphone]] |}.

End Calls.

Module Links.
Import AbstractPeerConnection FilePeerConnection.

Definition openLink : PeerConn :=
  {| roomId := 1; connectionId := "conn"; opponentWsId := "0002:bbbb";
     offerCreator := true; sendRtcDataQueue := [];
     pc := Some {| signalingState := sig_stable; iceConnectionState := ice_connected |};
     connectionStatus := status_connected;
     sendChannel := Some {| readyState := dc_open |};
     connectedToRemote := true |}.

Definition newLink : PeerConn :=
  {| roomId := 1; connectionId := "conn"; opponentWsId := "0002:bbbb";
     offerCreator := false; sendRtcDataQueue := []; pc := None;
     connectionStatus := status_new; sendChannel := None;
     connectedToRemote := false |}.

Definition offer : OnSendRtcDataMessage :=
  {| content := {| sdp := Some "v=0"; candidate := None; message := None |} |}.

Definition ice : OnSendRtcDataMessage :=
  {| content := {| sdp := None; candidate := Some "candidate:1 1 UDP";
                   message := None |} |}.

Definition transferring : FileLink :=
  {| link :=
       {| roomId := 1; connectionId := "conn"; opponentWsId := "0002:bbbb";
          offerCreator := true; sendRtcDataQueue := [];
          pc := Some {| signalingState := sig_stable;
                        iceConnectionState := ice_disconnected |};
          connectionStatus := status_connected;
          sendChannel := Some {| readyState := dc_open |};
          connectedToRemote := true |};
     transfer := Model.IN_PROGRESS |}.

End Links.

Module Rooms.
Import Model DefaultStore.

(** A room is added as [getRoomsBaseDict] builds it, the user shares the
    screen, then switches the camera on. *)
Definition screenThenCamera : list Mutation :=
  [ AddRoom (Converters.getRoomsBaseDict 1%Z 100%Z true "all" [7%Z] None);
    SetShareScreenToState 1%Z true;
    SetVideoToState 1%Z true ].

End Rooms.

End Scenarios.

(** ** utils/store.ts: the getters over messages, and what a mutation
    addresses *)
Module StoreViews.
Import Js Eff Messages Model DefaultStore.

(** The room a mutation reads as [this.roomsDict[...]] and then
    dereferences without a test. *)
Definition roomOf (m : Mutation) : option number :=
  match m with
  | SetMessageProgress r _ _ => Some r
  | SetUploadProgress r _ _ => Some r
  | SetCallOpponent r _ _ => Some r
  | SetOpponentVoice r _ _ => Some r
  | SetOpponentAnchor r _ _ => Some r
  | AddSendingFile p => Some (sf_roomId p)
  | ToggleContainer r => Some r
  | SetContainerToState r _ => Some r
  | SetCurrentMicLevel r _ => Some r
  | SetCurrentMic r _ => Some r
  | SetCurrentSpeaker r _ => Some r
  | SetCurrentWebcam r _ => Some r
  | SetMicToState r _ => Some r
  | SetVideoToState r _ => Some r
  | SetShareScreenToState r _ => Some r
  | SetCallActiveToState r _ => Some r
  | SetLocalStreamSrc r _ => Some r
  | AddReceivingFile p => Some (rf_roomId p)
  | AddSendingFileTransfer r _ _ _ => Some r
  | SetReceivingFileStatus r _ _ _ _ => Some r
  | SetSendingFileStatus r _ _ _ _ => Some r
  | SetSendingFileUploaded r _ _ _ => Some r
  | SetReceivingFileUploaded r _ _ => Some r
  | IncNewMessagesCount r => Some r
  | RemoveMessageProgress r _ => Some r
  | SetMessageProgressError r _ _ => Some r
  | AddMessage m' => Some (msg_roomId m')
  | DeleteMessage r _ => Some r
  | AddMessages r _ => Some r
  | SetSearchTo r _ => Some r
  | SetAllLoaded r => Some r
  | SetRoomSettings srm => Some (rs_id srm)
  | SetRoomsUsers r _ => Some r
  | _ => None
  end.

(** Every key of [mediaObjects] was handed out by [mediaLinkIdGetter]. *)
Definition mediaKeysIssued (s : State) : Prop :=
  ∀ key, is_Some (mediaObjects s !! key) →
         ∃ i, (i < mediaLinkId s)%N ∧ key = toString i.

(** [m] neither touches [mediaObjects] nor draws a key. *)
Definition keepsMedia {A} (m : Store A) : Prop :=
  ∀ s, mediaObjects (final (m s)) = mediaObjects s ∧
       mediaLinkId (final (m s)) = mediaLinkId s.

(** [!x] for a [number | null] (or [number | undefined]) value. *)
Definition falsy (x : option number) : bool :=
  match x with
  | None => true
  | Some v => (v =? 0)%Z
  end.

(** One turn of the loop of [maxId]:
    [if (!maxId || !(messages[m].id <= maxId)) maxId = messages[m].id]. *)
Definition stepMaxId (maxId : option number) (id : number) : option number :=
  if falsy maxId || negb (id <=? default 0 maxId)%Z then Some id else maxId.

(** One turn of the loop of [minId]:
    [if (id > 0 && (!minId || id < minId)) minId = id]. *)
Definition stepMinId (minId : option number) (id : number) : option number :=
  if (0 <? id)%Z && (falsy minId || (id <? default 0 minId)%Z) then Some id else minId.

(** The two loops run over the messages in the order in which
    [for (const m in messages)] enumerates them. *)
Definition maxIdOver (enumeration : list MessageModel) : option number :=
  foldl stepMaxId None (msg_id <$> enumeration).

Definition minIdOver (enumeration : list MessageModel) : option number :=
  foldl stepMinId None (msg_id <$> enumeration).

(** The getters.  [enumerate] is the order in which the engine enumerates
    the properties of a [messages] object (it depends on when each
    message was inserted, which the map does not record). *)
Definition maxId (enumerate : gmap Z MessageModel → list MessageModel)
    (s : State) (id : number) : Outcome (option number) :=
  match roomsDict s !! id with
  | None => Throw TypeError
  | Some r => Ret (maxIdOver (enumerate (messages r)))
  end.

Definition minId (enumerate : gmap Z MessageModel → list MessageModel)
    (s : State) (id : number) : Outcome (option number) :=
  match roomsDict s !! id with
  | None => Throw TypeError
  | Some r => Ret (minIdOver (enumerate (messages r)))
  end.

(** An enumeration that visits every message once. *)
Definition enumerates (enumerate : gmap Z MessageModel → list MessageModel) : Prop :=
  ∀ msgs, enumerate msgs ≡ₚ (map_to_list msgs).*2.

(** What the loop of [minId] holds after the ids [seen]. *)
Definition leastPositive (acc : option number) (seen : list number) : Prop :=
  match acc with
  | None => ∀ x, x ∈ seen → (x ≤ 0)%Z
  | Some v => (0 < v)%Z ∧ v ∈ seen ∧ ∀ x, x ∈ seen → (0 < x)%Z → (v ≤ x)%Z
  end.

(** What the loop of [maxId] holds after the ids [seen], none of them 0. *)
Definition greatest (acc : option number) (seen : list number) : Prop :=
  match acc with
  | None => seen = []
  | Some v => v ≠ 0%Z ∧ v ∈ seen ∧ ∀ x, x ∈ seen → (x ≤ v)%Z
  end.

(** A computation that leaves a field of the state as it was. *)
Definition keepsField {A B} (field : State → B) (m : Store A) : Prop :=
  ∀ s, field (final (m s)) = field s.

(** What a commit does to the list of growls. *)
Definition growlStep (l : list GrowlModel) (m : Mutation) : list GrowlModel :=
  match m with
  | AddGrowl g => l ++ [g]
  | RemoveGrowl g => removeFirst g l
  | _ => l
  end.

(** The action [showGrowl]: the growl is added, and removed after the
    sleep; [meanwhile] is what is committed while the action sleeps. *)
Definition showGrowl (growl : GrowlModel) (meanwhile : list Mutation) : list Mutation :=
  AddGrowl growl :: meanwhile ++ [RemoveGrowl growl].

(** The values of a map of messages, in the order of the keys. *)
Definition byKey (msgs : gmap Z MessageModel) : list MessageModel :=
  (map_to_list msgs).*2.

End StoreViews.

(** ** The storage kept in the browser's [localStorage] (the class
    [LocalStorage], an [IStorage]) *)
Module LocalStorage.
Import Model.

Record LocalStorageMessage : Type := mkHeaderIds { f : number; h : number }.

(** [cache] is the field of the class; [item] is what the browser holds
    under [wsHeaderIds], read as the object it is the JSON text of, absent
    while nothing (or the empty text) is stored. *)
Record Storage : Type := mkStorage {
  cache : gmap Z LocalStorageMessage;
  item : option (gmap Z number) }.

Definition set_cache v (s : Storage) : Storage := {| cache := v; item := item s |}.
Definition set_item v (s : Storage) : Storage := {| cache := cache s; item := v |}.

(** [new LocalStorage()], given what [getItem] returns. *)
Definition construct (ms : option (gmap Z number)) : Storage :=
  match ms with
  | Some loaded =>
      {| cache := (λ v, {| h := v; f := v |}) <$> loaded; item := Some loaded |}
  | None => {| cache := ∅; item := Some ∅ |}
  end.

Definition applyCache (roomId value : number) (s : Storage) : bool * Storage :=
  match cache s !! roomId with
  | None => (false, set_cache (<[roomId := {| h := value; f := value |}]> (cache s)) s)
  | Some c =>
      if (value <? h c)%Z
      then (false, set_cache (<[roomId := {| h := value; f := f c |}]> (cache s)) s)
      else if (f c <? value)%Z
      then (false, set_cache (<[roomId := {| h := h c; f := value |}]> (cache s)) s)
      else (true, s)
  end.

(** [JSON.parse(localStorage.getItem(..) || '{}')]. *)
Definition parsed (s : Storage) : gmap Z number := default ∅ (item s).

(** [!lm[k] || value < lm[k]]. *)
Definition lower (lm : gmap Z number) (k : Z) (value : number) : bool :=
  StoreViews.falsy (lm !! k) || (value <? default 0%Z (lm !! k))%Z.

Definition saveJson (roomId value : number) (s : Storage) : Storage :=
  let lm := parsed s in
  if lower lm roomId value then set_item (Some (<[roomId := value]> lm)) s else s.

Definition setRoomHeaderId (roomId value : number) (s : Storage) : Storage :=
  let '(inside, s) := applyCache roomId value s in
  if inside then s else saveJson roomId value s.

Definition saveMessage (message : MessageModel) : Storage → Storage :=
  setRoomHeaderId (msg_roomId message) (msg_id message).

(** The loop over the keys of [cache] writes [lm[k]] for the key [k] it is
    at and reads nothing else of [lm], so the order of the keys does not
    matter. *)
Definition saveMessages (messages : list MessageModel) (s : Storage) : Storage :=
  let s := foldl (λ s message, (applyCache (msg_roomId message) (msg_id message) s).2)
             s messages in
  let lm := map_fold (λ k c lm, if lower lm k (h c) then <[k := h c]> lm else lm)
              (parsed s) (cache s) in
  set_item (Some lm) s.

Definition clearStorage (s : Storage) : Storage := {| cache := ∅; item := Some ∅ |}.

Definition clearMessages : Storage → Storage := clearStorage.

(** What comes to the storage: the calls of the store, and
    [setRoomHeaderId], which is public too. *)
Inductive Request : Type :=
| FromStore (c : IStorage.Call)
| SetRoomHeaderId (roomId value : number).

Definition request (q : Request) : Storage → Storage :=
  match q with
  | FromStore (IStorage.saveMessage m) => saveMessage m
  | FromStore (IStorage.saveMessages ms) => saveMessages ms
  | FromStore IStorage.clearMessages => clearMessages
  | FromStore IStorage.clearStorage => clearStorage
  | FromStore _ => λ s, s
  | SetRoomHeaderId roomId value => setRoomHeaderId roomId value
  end.

Definition serve (qs : list Request) (s : Storage) : Storage :=
  foldl (λ s q, request q s) s qs.

(** The message ids a request brings, each with its room. *)
Definition given (q : Request) : list (number * number) :=
  match q with
  | FromStore (IStorage.saveMessage m) => [(msg_roomId m, msg_id m)]
  | FromStore (IStorage.saveMessages ms) => (λ m, (msg_roomId m, msg_id m)) <$> ms
  | SetRoomHeaderId roomId value => [(roomId, value)]
  | _ => []
  end.

Definition clears (q : Request) : bool :=
  match q with
  | FromStore IStorage.clearMessages | FromStore IStorage.clearStorage => true
  | _ => false
  end.

(** The ids brought since the storage was last cleared. *)
Definition sinceCleared (hist : list (number * number)) (qs : list Request) :
    list (number * number) :=
  foldl (λ hist q, if clears q then [] else hist ++ given q) hist qs.

(** The header id the browser holds for a room. *)
Definition persisted (s : Storage) (roomId : number) : option number :=
  parsed s !! roomId.

(** What holds of a storage that has been brought the ids [hist] since it
    was empty: the browser holds the [h] of each room of the cache, and [h]
    and [f] are the least and the greatest id brought for the room. *)
Definition tracks (s : Storage) (hist : list (number * number)) : Prop :=
  ∀ k : number, match cache s !! k with
       | None => ∀ v, (k, v) ∉ hist
       | Some c => (k, h c) ∈ hist ∧ (k, f c) ∈ hist ∧
                   ∀ v, (k, v) ∈ hist → (h c ≤ v ≤ f c)%Z
       end.

Definition synced (s : Storage) : Prop :=
  ∀ k : number, persisted s k = h <$> cache s !! k.

(** Half way through [saveMessages]: what the browser holds is no lower
    than the cache. *)
Definition behind (s : Storage) : Prop :=
  ∀ k : number, match persisted s k with
       | None => True
       | Some x => x ≠ 0%Z ∧ ∃ c, cache s !! k = Some c ∧ (h c ≤ x)%Z
       end.

Definition nonzero (hist : list (number * number)) : Prop :=
  Forall (λ p, p.2 ≠ 0%Z) hist.

End LocalStorage.

(** ** The rest of [CallHandler]: placing, declining and ending a call,
    the tracks and the devices *)
Module CallControl.
Import Js Eff Messages CallHandler.

(** What these methods do to their collaborators besides what the
    methods above do. *)
Inductive Event : Type :=
| Handled (e : CallHandler.Event)
| WsOfferCall (roomId : Z)                         (* wsHandler.offerCall *)
| WsDeclineCall (connectionId : option string)     (* wsHandler.declineCall *)
| CloseAllPeerConnections.                         (* this.closeAllPeerConnections() *)

Abbreviation Control := (M Handler Event).

(** A method of the handler above, run among these. *)
Definition lift {A} (m : Call A) : Control A :=
  λ s, match m s with (r, s', t) => (r, s', Handled <$> t) end.

(** As in [updateConnection], only [captureInput] throws in the [try]
    block, while [stream] is still [null]. *)
Definition offerCall (env : Browser) : Control unit :=
  tryCatch
    (stream ← lift (captureInput env);
     lift (emit (Log "got local stream {}"));;
     lift (attachLocalStream env (Some stream));;
     lift (setCallStatus sent_offer);;
     id ← gets roomId;
     lift (emit (Commit (DefaultStore.SetCallActiveToState id true)));;
     emit (WsOfferCall id))
    (λ e, lift (handleStream e None)).

(** The callback handed to [wsHandler.offerCall], called with the
    [connId] of the relay's answer. *)
Definition onSetConnectionId (connId : option string) : Call unit :=
  match connId with
  | Some c =>
      if truthy connId
      then modify (set_connectionId (Some c));;
           emit (Subscribe (Subscription.getTransferId c))
      else mret tt
  | None => mret tt
  end.

(** The messages of the relay that the [handlers] table routes to
    [replyCall] and [onacceptCall]. *)
Inductive Incoming : Type :=
| ReplyCall (opponentWsId : string) (userId : Z)
| AcceptCall (opponentWsId : string).

Definition handle (m : Incoming) : Call unit :=
  match m with
  | ReplyCall opponentWsId userId => replyCall opponentWsId userId
  | AcceptCall opponentWsId => onacceptCall opponentWsId
  end.

(** *** Tracks *)

(** [VideoType] of [types/types]. *)
Inductive VideoType : Type := AUDIO | VIDEO | SHARE.

#[global] Instance VideoType_eq_dec : EqDecision VideoType.
Proof. solve_decision. Defined.

#[global] Instance TrackKind_eq_dec : EqDecision TrackKind.
Proof. solve_decision. Defined.

(** [getAudioTracks()] and [getVideoTracks()]: the tracks of one kind, in
    order, each with its place in [getTracks()]. *)
Definition tracksOf (k : TrackKind) (ms : MediaStream) : list (nat * MediaStreamTrack) :=
  filter (λ p, kind p.2 = k) (imap (λ i t, (i, t)) ms).

(** A track is named by its stream and its place in the stream. *)
Definition getTrack (kind : VideoType) (s : Handler) : option (MediaStreamRef * nat) :=
  match localStream s with
  | None => None
  | Some r =>
      let tracks :=
        tracksOf (match kind with AUDIO => audio | _ => video end)
                 (default [] (streams s !! r)) in
      match tracks with
      | [] => None
      | (i, t) :: _ =>
          if isShare t && bool_decide (kind = SHARE) then Some (r, i)
          else if negb (isShare t) && bool_decide (kind = VIDEO) then Some (r, i)
          else if bool_decide (kind = AUDIO) then Some (r, i)
          else None
      end
  end.

Definition set_enabled (v : bool) (t : MediaStreamTrack) : MediaStreamTrack :=
  {| kind := CallHandler.kind t; isShare := isShare t; enabled := v;
     readyState := readyState t |}.

(** The track a reference names. *)
Definition trackAt (s : Handler) (ref : MediaStreamRef * nat) : option MediaStreamTrack :=
  streams s !! ref.1 ≫= (.!! ref.2).

(** [callInfo] is the call info of the handler's room in the store. *)
Definition toggleDevice (env : Browser) (callInfo : Model.CallsInfoModel)
    (videoType : VideoType) : Call unit :=
  track ← gets (getTrack videoType);
  ss ← gets streams;
  match track with
  | Some (r, i) =>
      match ss !! r with
      | Some tracks =>
          match tracks !! i with
          | Some t =>
              if bool_decide (readyState t = live) then
                emit (Log "toggleDevice");;
                let state :=
                  match videoType with
                  | AUDIO => Model.showMic callInfo
                  | SHARE => Model.shareScreen callInfo
                  | VIDEO => Model.showVideo callInfo
                  end in
                modify (set_streams (<[r := <[i := set_enabled state t]> tracks]> ss))
              else updateConnection env
          | None => updateConnection env
          end
      | None => updateConnection env
      end
  | None => updateConnection env
  end.

(** *** Devices *)

Inductive MediaDeviceKind : Type := audioinput | audiooutput | videoinput.

#[global] Instance MediaDeviceKind_eq_dec : EqDecision MediaDeviceKind.
Proof. solve_decision. Defined.

Record MediaDeviceInfo : Type := mkDevice {
  device_kind : MediaDeviceKind; deviceId : string; label : string }.

(** A JavaScript number that may be [NaN]. *)
Definition counter : Type := option N.

(** [++x], which makes [NaN] of [undefined] and leaves [NaN]. *)
Definition increment (x : counter) : counter := N.succ <$> x.

Definition shown (x : counter) : string := from_option toString "NaN" x.

(** [label || fallback]. *)
Definition labelOr (label fallback : string) : string :=
  if truthy (Some label) then label else fallback.

Record Inflating : Type := mkInflating {
  n : counter; k : counter; c : counter;
  microphones : gmap string string;
  speakers : gmap string string;
  webcams : gmap string string }.

(** [let n, k, c = 0]: only [c] is given a value. *)
Definition inflating : Inflating :=
  {| n := None; k := None; c := Some 0%N;
     microphones := ∅; speakers := ∅; webcams := ∅ |}.

Definition inflate (st : Inflating) (device : MediaDeviceInfo) : Inflating :=
  match device_kind device with
  | audioinput =>
      if truthy (Some (label device))
      then {| n := n st; k := k st; c := c st;
              microphones := <[deviceId device := label device]> (microphones st);
              speakers := speakers st; webcams := webcams st |}
      else {| n := increment (n st); k := k st; c := c st;
              microphones := <[deviceId device := "Microphone " +:+ shown (increment (n st))]>
                               (microphones st);
              speakers := speakers st; webcams := webcams st |}
  | audiooutput =>
      if truthy (Some (label device))
      then {| n := n st; k := k st; c := c st;
              microphones := microphones st;
              speakers := <[deviceId device := label device]> (speakers st);
              webcams := webcams st |}
      else {| n := n st; k := increment (k st); c := c st;
              microphones := microphones st;
              speakers := <[deviceId device := "Speaker " +:+ shown (increment (k st))]>
                            (speakers st);
              webcams := webcams st |}
  | videoinput =>
      if truthy (Some (label device))
      then {| n := n st; k := k st; c := c st;
              microphones := microphones st; speakers := speakers st;
              webcams := <[deviceId device := label device]> (webcams st) |}
      else {| n := n st; k := k st; c := increment (c st);
              microphones := microphones st; speakers := speakers st;
              webcams := <[deviceId device := "Camera " +:+ shown (increment (c st))]>
                           (webcams st) |}
  end.

Definition inflateDevices (devices : option (list MediaDeviceInfo)) : Call unit :=
  let st := foldl inflate inflating (default [] devices) in
  emit (Commit (DefaultStore.SetDevices (microphones st) (webcams st) (speakers st))).

(** *** Reading a trace *)

Definition handled (t : list Event) : list CallHandler.Event :=
  omap (λ e, match e with Handled e => Some e | _ => None end) t.

Definition offers (t : list Event) : list Z :=
  omap (λ e, match e with WsOfferCall roomId => Some roomId | _ => None end) t.

(** The opponents whose acceptance arrives, in order. *)
Definition accepting (ms : list Incoming) : list string :=
  omap (λ m, match m with AcceptCall opp => Some opp | _ => None end) ms.

(** The opponents whose reply arrives, in order. *)
Definition replying (ms : list Incoming) : list string :=
  omap (λ m, match m with ReplyCall opp _ => Some opp | _ => None end) ms.

(** The unlabelled cameras among the devices. *)
Definition unlabelled (kind : MediaDeviceKind) (devices : list MediaDeviceInfo) :
    list MediaDeviceInfo :=
  filter (λ d, device_kind d = kind ∧ truthy (Some (label d)) = false) devices.

(** The map of the payload that the devices of a kind go to. *)
Definition devicesOf (kind : MediaDeviceKind) (st : Inflating) : gmap string string :=
  match kind with
  | audioinput => microphones st
  | audiooutput => speakers st
  | videoinput => webcams st
  end.

(** The text an unlabelled device is shown with when it comes after the
    devices [before]. *)
Definition fallback (kind : MediaDeviceKind) (before : list MediaDeviceInfo) : string :=
  match kind with
  | audioinput => "Microphone NaN"
  | audiooutput => "Speaker NaN"
  | videoinput =>
      "Camera " +:+ toString (N.of_nat (S (length (unlabelled videoinput before))))
  end.

(** The streams once the tracks of the local stream are stopped. *)
Definition stoppedStreams (s : Handler) : list MediaStream :=
  match localStream s with
  | Some r => match streams s !! r with
              | Some tracks => <[r := stop <$> tracks]> (streams s)
              | None => streams s
              end
  | None => streams s
  end.

End CallControl.

(** ** The call handler and the store it commits to

    The methods of [CallHandler] whose commits to the store can fail, run
    on the fields of the handler and the state of the store together. *)
Module CallSession.
Import Js Eff Messages CallHandler.

Record World : Type := mkWorld {
  handler : Handler;
  store : DefaultStore.State }.

Definition set_handler (h : Handler) (w : World) : World :=
  {| handler := h; store := store w |}.

Definition set_store (st : DefaultStore.State) (w : World) : World :=
  {| handler := handler w; store := st |}.

(** A constraint of [getUserMedia] for the tracks of one kind: a boolean,
    [{deviceId}], or the desktop source that the extension has named. *)
Inductive Constraint : Type :=
| Plain (wanted : bool)
| Device (deviceId : string)
| Desktop (chromeMediaSourceId : string).

Inductive Event : Type :=
| Did (e : CallControl.Event)          (* what the handler does, as above *)
| Storage (c : IStorage.Call)          (* what a mutation hands to [this.storage] *)
| GetUserMedia (audio video : Constraint)
| EnumerateDevices
| GetDisplayMedia
| GrowlInfo (text : string)            (* store.growlInfo *)
| PingExtension                        (* PYCHAT_SCREEN_SHARE_PING *)
| ScreenShareRequest                   (* PYCHAT_SCREEN_SHARE_REQUEST *)
| GrowlFailedCapture (what : list string) (e : Exn).   (* store.growlErrorRaw *)

Abbreviation Session := (M World Event).

(** A method of the handler that does not call the store. *)
Definition onHandler {A} (m : Call A) : Session A :=
  λ w, match m (handler w) with
       | (r, h, t) => (r, set_handler h w, (λ e, Did (CallControl.Handled e)) <$> t)
       end.

Section session.
Context (ALL_ROOM_ID : Model.number).

(** [this.store.m(payload)]: the mutation runs on the store; what it
    throws, the method that commits throws. *)
Definition commit (m : DefaultStore.Mutation) : Session unit :=
  λ w, match DefaultStore.commit ALL_ROOM_ID m (store w) with
       | (r, st, t) =>
           (r, set_store st w, Did (CallControl.Handled (Commit m)) :: (Storage <$> t))
       end.

Definition onDestroy : Session unit :=
  onHandler stopLocalStream;;
  id ← gets (λ w, roomId (handler w));
  commit (DefaultStore.SetLocalStreamSrc id None);;
  onHandler (modify (set_connectionId None));;
  commit (DefaultStore.SetCallActiveToState id false).

Definition declineCall : Session unit :=
  commit (DefaultStore.SetIncomingCall None);;
  connId ← gets (λ w, connectionId (handler w));
  emit (Did (CallControl.WsDeclineCall connId));;
  onDestroy.

Definition hangCall : Session unit :=
  onHandler (emit (Log "on hangCall called"));;
  ids ← gets (λ w, webrtcConnnectionsIds (handler w));
  if bool_decide (0 < length ids)
  then emit (Did CallControl.CloseAllPeerConnections)
  else onDestroy.

(** *** Capturing the devices *)

(** The answer of the screen-share extension to a message. *)
Record ExtensionResponse : Type := mkResponse {
  data : string;
  streamId : string }.

(** [navigator.mediaDevices]: what [getUserMedia] answers to the
    constraints for audio and video, and what [enumerateDevices] and
    [getDisplayMedia] answer where the browser has them.  An answer is the
    value a promise resolves to (for a stream: its tracks) or what it is
    rejected with. *)
Record MediaDevices : Type := mkMediaDevices {
  getUserMedia : Constraint → Constraint → Outcome MediaStream;
  enumerateDevices : option (Outcome (list CallControl.MediaDeviceInfo));
  getDisplayMedia : option (Outcome MediaStream) }.

(** What the browser is and answers while the devices are captured.
    [chromeVersion], [isChrome] and [isMobile] are of [utils/utils] and
    [utils/singletons]; [runtime] tells whether [chrome.runtime] and its
    [sendMessage] are there; [ping] is what the extension answers to the
    ping within the 500 ms ([None]: nothing in time; a falsy answer is
    [Some None]); [shareRequest] is its answer to the request for the
    screen; [voiceAnalyzer] is the analyzer that
    [createMicrophoneLevelVoice] builds. *)
Record Navigator : Type := mkNavigator {
  mediaDevices : option MediaDevices;
  chromeVersion : option N;
  isChrome : bool;
  isMobile : bool;
  runtime : bool;
  ping : option (option ExtensionResponse);
  shareRequest : option ExtensionResponse;
  voiceAnalyzer : option bool }.

(** [await p]. *)
Definition awaited {A} (answer : Outcome A) : Session A :=
  match answer with
  | Ret a => mret a
  | Throw e => throw e
  end.

(** A new [MediaStream] object with these tracks. *)
Definition allocate (tracks : MediaStream) : Session MediaStreamRef :=
  onHandler (ss ← gets streams;
             modify (set_streams (ss ++ [tracks]));;
             mret (length ss)).

(** [this.callInfo]: [this.store.roomsDict[this.roomId].callInfo]. *)
Definition callInfo : Session Model.CallsInfoModel :=
  id ← gets (λ w, roomId (handler w));
  rooms ← gets (λ w, DefaultStore.roomsDict (store w));
  match rooms !! id with
  | Some room => mret (Model.callInfo room)
  | None => throw TypeError
  end.

Definition inflateDevices (devices : list CallControl.MediaDeviceInfo) : Session unit :=
  let st := foldl CallControl.inflate CallControl.inflating devices in
  commit (DefaultStore.SetDevices (CallControl.microphones st) (CallControl.webcams st)
            (CallControl.speakers st)).

(** What the promise of [pingExtension] is rejected with when the
    extension is not there: it stands for [error], whose [rawError] is
    this text followed by a link to [CHROME_EXTENSION_URL] of
    [utils/consts]. *)
Definition installExtension : string :=
  "To share your screen you need chrome extension.".

(** What is rejected with a value that is no [Error] ([error], or the
    [data] of the answer) is thrown here as an [Error] with that text. *)
Definition pingExtension (nav : Navigator) : Session unit :=
  if runtime nav then
    emit PingExtension;;
    match ping nav with
    | None => throw (Error installExtension)
    | Some response =>
        match response with
        | Some r =>
            if String.eqb (data r) "success" then mret tt
            else if truthy (Some (data r)) then throw (Error (data r))
            else throw (Error installExtension)
        | None => throw (Error installExtension)
        end
    end
  else throw (Error installExtension).

Definition getDesktopShareFromExtension (nav : Navigator) : Session string :=
  if negb (isChrome nav) then
    throw (Error "ScreenCast feature is only available from chrome atm")
  else if isMobile nav then
    throw (Error "ScreenCast is not available for mobile phones yet")
  else
    pingExtension nav;;
    onHandler (emit (Log "Ping to extension succeeded"));;
    emit ScreenShareRequest;;
    match shareRequest nav with
    | Some r =>
        if String.eqb (data r) "success" then
          onHandler (emit (Log "Getting desktop share succeeded"));;
          mret (streamId r)
        else throw (Error "Failed to capture desktop stream")
    | None => throw (Error "Failed to capture desktop stream")
    end.

(** [tracks[0].isShare = true]. *)
Definition tagShare (t : MediaStreamTrack) : MediaStreamTrack :=
  {| kind := kind t; isShare := true; enabled := enabled t; readyState := readyState t |}.

(** [endStream.addTrack(track)], for a track that is not in the stream. *)
Definition addTrack (r : MediaStreamRef) (t : MediaStreamTrack) : Session unit :=
  onHandler (modify (λ h, set_streams (alter (λ tracks, tracks ++ [t]) r (streams h)) h)).

(** The tracks of the stream of the screen. *)
Definition captureScreen (nav : Navigator) : Session MediaStream :=
  let viaExtension :=
    (match chromeVersion nav with
     | Some v =>
         if (70 <? v)%N
         then emit (GrowlInfo "You can now use chrome://flags/#enable-experimental-web-platform-features to share your screen")
         else mret tt
     | None => mret tt
     end);;
    streamId ← getDesktopShareFromExtension nav;
    onHandler (emit (Log "Resolving userMedia from dekstopShare"));;
    match mediaDevices nav with
    | Some md =>
        emit (GetUserMedia (Plain false) (Desktop streamId));;
        awaited (getUserMedia md (Plain false) (Desktop streamId))
    | None => throw TypeError
    end in
  match mediaDevices nav with
  | Some md =>
      match getDisplayMedia md with
      | Some answer =>
          onHandler (emit (Log "Getting shareScreen from  navigator.getDisplayMedia"));;
          emit GetDisplayMedia;;
          awaited answer
      | None => viaExtension
      end
  | None => viaExtension
  end.

(** The stream object of the screen is not kept once its first video
    track has been added to [endStream]. *)
Definition captureInput (nav : Navigator) : Session MediaStreamRef :=
  onHandler (emit (Log "capturing input"));;
  ci ← callInfo;
  endStream ←
    (if Model.showMic ci || Model.showVideo ci then
       let audio := if truthy (Model.currentMic ci) && Model.showMic ci
                    then Device (default "" (Model.currentMic ci))
                    else Plain (Model.showMic ci) in
       let video := if truthy (Model.currentWebcam ci) && Model.showVideo ci
                    then Device (default "" (Model.currentWebcam ci))
                    else Plain (Model.showVideo ci) in
       match mediaDevices nav with
       | Some md =>
           emit (GetUserMedia audio video);;
           tracks ← awaited (getUserMedia md audio video);
           stream ← allocate tracks;
           onHandler (emit (Log "navigator.mediaDevices.getUserMedia({audio, video})"));;
           match enumerateDevices md with
           | Some answer =>
               emit EnumerateDevices;;
               devices ← awaited answer;
               inflateDevices devices
           | None => mret tt
           end;;
           mret (Some stream)
       | None => throw TypeError
       end
     else mret None);
  ci ← callInfo;
  endStream ←
    (if Model.shareScreen ci then
       tracks ← captureScreen nav;
       match CallControl.tracksOf video tracks with
       | [] => throw (Error "No video tracks from captured screen")
       | (i, t) :: _ =>
           match endStream with
           | Some r => addTrack r (tagShare t);; mret (Some r)
           | None =>
               r ← allocate (<[i := tagShare t]> tracks);
               mret (Some r)
           end
       end
     else mret endStream);
  match endStream with
  | Some r => mret r
  | None => throw (Error "Unable to capture stream")
  end.

(** The growl names the devices asked for. *)
Definition handleStream (e : Exn) (endStream : option MediaStreamRef) : Session unit :=
  ci ← callInfo;
  let what :=
    (if Model.showMic ci then ["audio"] else []) ++
    (if Model.showVideo ci then ["video"] else []) ++
    (if Model.shareScreen ci then ["screenshare"] else []) in
  onHandler (destroyStreamData endStream);;
  emit (GrowlFailedCapture what e);;
  onHandler (emit (LogError "onFailedCaptureSource {}")).

Definition attachLocalStream (nav : Navigator) (stream : MediaStreamRef) : Session unit :=
  onHandler (modify (set_localStream (Some stream)));;
  onHandler (emit (CreateMicrophoneLevelVoice stream));;
  onHandler (modify (set_audioProcessor (voiceAnalyzer nav)));;
  id ← gets (λ w, roomId (handler w));
  commit (DefaultStore.SetLocalStreamSrc id (Some stream));;
  onHandler setCallIconsState.

(** [let x = null; try { x = await m; k x } catch (e) { h e x }]. *)
Definition tryFrom {A} (m : Session A) (k : A → Session unit)
    (h : Exn → option A → Session unit) : Session unit :=
  λ w, match m w with
       | (Ret a, w1, t1) =>
           match tryCatch (k a) (λ e, h e (Some a)) w1 with
           | (r, w2, t2) => (r, w2, t1 ++ t2)
           end
       | (Throw e, w1, t1) =>
           match h e None w1 with
           | (r, w2, t2) => (r, w2, t1 ++ t2)
           end
       end.

Definition offerCall (nav : Navigator) : Session unit :=
  tryFrom (captureInput nav)
    (λ stream,
       onHandler (emit (Log "got local stream {}"));;
       attachLocalStream nav stream;;
       onHandler (setCallStatus sent_offer);;
       id ← gets (λ w, roomId (handler w));
       commit (DefaultStore.SetCallActiveToState id true);;
       emit (Did (CallControl.WsOfferCall id)))
    handleStream.

End session.

(** *** Reading a trace *)

Definition offers (t : list Event) : list Z :=
  omap (λ e, match e with Did (CallControl.WsOfferCall roomId) => Some roomId | _ => None end) t.

(** The tracks stopped. *)
Definition stops (t : list Event) : list (MediaStreamRef * nat) :=
  omap (λ e, match e with
             | Did (CallControl.Handled (TrackStop r i)) => Some (r, i)
             | _ => None
             end) t.


(** *** A frame for the capture *)


End CallSession.

(** ** webrtc/AbstractPeerConnection.ts: offers and answers *)
Module Negotiation.
Import Js Eff Messages AbstractPeerConnection.

Inductive RTCSdpType : Type := offer | answer.

(** [RTCSessionDescriptionInit]. *)
Record SessionDescription : Type := mkDescription {
  type : RTCSdpType;
  description_sdp : option string }.

(** What the platform answers while a method runs: the description that
    [createOffer] or [createAnswer] hands to the success callback (its
    [sdp]) or the error handed to the failure callback, and the same for
    [setLocalDescription] and [setRemoteDescription].  The callbacks are
    run as the platform calls them, with nothing of the link in between. *)
Record Platform : Type := mkPlatform {
  created : Outcome (option string);
  described : Outcome unit;
  remote : Outcome unit }.

Inductive Event : Type :=
| Linked (e : AbstractPeerConnection.Event)
| PcCreateOffer                                    (* this.pc.createOffer *)
| PcCreateAnswer                                   (* this.pc.createAnswer *)
| PcSetLocalDescription (d : SessionDescription)   (* this.pc.setLocalDescription *)
| WsSendRtcData (d : SessionDescription) (connectionId opponentWsId : string)
                                                   (* wsHandler.sendRtcData *)
| GrowlError (parent : string) (e : Exn).          (* store.growlError *)

Abbreviation Negotiating := (M PeerConn Event).

Definition set_offerCreator (v : bool) (s : PeerConn) : PeerConn :=
  {| roomId := roomId s; connectionId := connectionId s;
     opponentWsId := opponentWsId s; offerCreator := v;
     sendRtcDataQueue := sendRtcDataQueue s; pc := pc s;
     connectionStatus := connectionStatus s; sendChannel := sendChannel s;
     connectedToRemote := connectedToRemote s |}.

Definition sendWebRtcEvent (d : SessionDescription) : Negotiating unit :=
  connId ← gets connectionId;
  opp ← gets opponentWsId;
  emit (WsSendRtcData d connId opp).

(** The function [failWebRtc(parent)] returns, called with the error. *)
Definition failWebRtc (parent : string) (e : Exn) : Negotiating unit :=
  emit (GrowlError parent e);;
  emit (Linked (LogError "failWebRtc {}")).

(** [if (offer.sdp) { offer.sdp = this.setMediaBitrate(offer.sdp, 1638400) }]. *)
Definition withBitrate (sdp : option string) : Negotiating (option string) :=
  match sdp with
  | Some text =>
      if truthy sdp then
        match Sdp.setMediaBitrate text 1638400 with
        | Ret out => mret (Some out)
        | Throw e => throw e
        end
      else mret sdp
  | None => mret None
  end.

Definition createOffer (env : Platform) : Negotiating unit :=
  emit (Linked (Log "Creating offer..."));;
  modify (set_offerCreator true);;
  p ← gets pc;
  match p with
  | None => throw TypeError
  | Some _ =>
      emit PcCreateOffer;;
      match created env with
      | Ret sdp =>
          sdp ← withBitrate sdp;
          emit (Linked (Log "Created offer, setting local description"));;
          emit (PcSetLocalDescription {| type := offer; description_sdp := sdp |});;
          match described env with
          | Ret _ =>
              emit (Linked (Log "Sending offer to remote"));;
              sendWebRtcEvent {| type := offer; description_sdp := sdp |}
          | Throw e => failWebRtc "setLocalDescription" e
          end
      | Throw e => failWebRtc "createOffer" e
      end
  end.

Definition respondeOffer (env : Platform) : Negotiating unit :=
  emit (Linked (Log "Responding to offer"));;
  modify (set_offerCreator false);;
  p ← gets pc;
  match p with
  | None => throw TypeError
  | Some _ =>
      emit PcCreateAnswer;;
      match created env with
      | Ret sdp =>
          sdp ← withBitrate sdp;
          emit (Linked (Log "Sending answer"));;
          emit (PcSetLocalDescription {| type := answer; description_sdp := sdp |});;
          match described env with
          | Ret _ => sendWebRtcEvent {| type := answer; description_sdp := sdp |}
          | Throw e => failWebRtc "setLocalDescription" e
          end
      | Throw e => failWebRtc "createAnswer" e
      end
  end.

Definition handleAnswer (env : Platform) : Negotiating unit :=
  emit (Linked (Log "Creating answer"));;
  creator ← gets offerCreator;
  (if negb creator then respondeOffer env else mret tt);;
  modify (set_offerCreator false).

(** [onsendRtcData] with the callbacks given to [setRemoteDescription]. *)
Definition onsendRtcData (env : Platform) (message : OnSendRtcDataMessage) :
    Negotiating unit :=
  connected ← gets connectedToRemote;
  if negb connected then
    emit (Linked (Log "Connection is not accepted yet, pushing data to queue"));;
    modify (λ s, set_sendRtcDataQueue (sendRtcDataQueue s ++ [message]) s)
  else
    let data := content message in
    emit (Linked (Handling message));;
    p ← gets pc;
    match p with
    | None => throw TypeError
    | Some p' =>
        if decide (iceConnectionState p' = ice_closed) then
          emit (Linked (LogError "Skipping ws message for closed connection"))
        else if truthy (sdp data) then
          emit (Linked (SetRemoteDescription data));;
          match remote env with
          | Ret _ => handleAnswer env
          | Throw e => failWebRtc "setRemoteDescription" e
          end
        else if truthy (candidate data) then emit (Linked (AddIceCandidate data))
        else mret tt
    end.

(** *** Reading a trace *)

Definition linked (t : list Event) : list AbstractPeerConnection.Event :=
  omap (λ e, match e with Linked e => Some e | _ => None end) t.

(** The descriptions given to the relay, in order. *)
Definition sent (t : list Event) : list SessionDescription :=
  omap (λ e, match e with WsSendRtcData d _ _ => Some d | _ => None end) t.

(** The descriptions set as the local one, in order. *)
Definition localDescriptions (t : list Event) : list SessionDescription :=
  omap (λ e, match e with PcSetLocalDescription d => Some d | _ => None end) t.

Definition failures (t : list Event) : list string :=
  omap (λ e, match e with GrowlError parent _ => Some parent | _ => None end) t.

Definition isCreateAnswer (e : Event) : bool :=
  match e with PcCreateAnswer => true | _ => false end.

Definition isCreateOffer (e : Event) : bool :=
  match e with PcCreateOffer => true | _ => false end.

Definition answersCreated (t : list Event) : nat := length (filter isCreateAnswer t).

Definition offersCreated (t : list Event) : nat := length (filter isCreateOffer t).

(** What the relay hands to the other side for a description. *)
Definition relayed (d : SessionDescription) : OnSendRtcDataMessage :=
  {| content := {| sdp := description_sdp d; candidate := None; message := None |} |}.

(** What holds of a run of [createOffer] ([side] is [offer]) or
    [respondeOffer] ([answer]): at most one description is set, of that
    side; what is sent is what was set, and only if setting it succeeded. *)
Definition orderly (side : RTCSdpType) (env : Platform)
    (r : Outcome unit * PeerConn * list Event) : Prop :=
  length (localDescriptions (trace r)) ≤ 1 ∧
  Forall (λ d, type d = side) (localDescriptions (trace r)) ∧
  (sent (trace r) = [] ∨
   sent (trace r) = localDescriptions (trace r) ∧ sent (trace r) ≠ [] ∧
   described env = Ret tt ∧ failures (trace r) = [] ∧ outcome r = Ret tt) ∧
  (described env ≠ Ret tt ∨ (∃ e, created env = Throw e) → sent (trace r) = []).

(** A link that can negotiate: told to connect, with a native connection
    that is not closed. *)
Definition ready (s : PeerConn) : Prop :=
  connectedToRemote s = true ∧
  ∃ p, pc s = Some p ∧ iceConnectionState p ≠ ice_closed.

End Negotiation.

(** ** The storage kept in a WebSQL database (the class
    [DatabaseWrapper], an [IStorage]), with the converters of
    [types/converters] it uses *)
Module DatabaseWrapper.
Import Js Eff Model.

(** *** Rows ([types/db]): one field per column *)

(** [SexDB] is [0 | 1 | 2], as the [CHECK] of the tables has it. *)
Inductive SexDB : Type := sex_0 | sex_1 | sex_2.

(** [BooleanDB]: a column that holds 0 or 1. *)
Definition BooleanDB : Type := number.

Record UserDB : Type := mkUserDB {
  udb_id : number; udb_user : string; udb_sex : SexDB; udb_deleted : BooleanDB;
  udb_country_code : option string; udb_country : option string;
  udb_region : option string; udb_city : option string }.

Record RoomDB : Type := mkRoomDB {
  rdb_id : number; rdb_name : string; rdb_notifications : BooleanDB;
  rdb_volume : number; rdb_deleted : BooleanDB }.

Record RoomUsersDB : Type := mkRoomUsersDB { rudb_room_id : number; rudb_user_id : number }.

Record MessageDB : Type := mkMessageDB {
  mdb_id : number; mdb_time : number; mdb_content : option string;
  mdb_symbol : option string; mdb_deleted : BooleanDB; mdb_giphy : option string;
  mdb_edited : option number; mdb_roomId : number; mdb_userId : number;
  mdb_sending : BooleanDB }.

Record FileDB : Type := mkFileDB {
  fdb_id : option number; fdb_symbol : string; fdb_url : option string;
  fdb_message_id : number; fdb_type : string; fdb_preview : option string }.

Record SettingsDB : Type := mkSettingsDB {
  sdb_userId : number; sdb_embeddedYoutube : BooleanDB; sdb_highlightCode : BooleanDB;
  sdb_incomingFileCallSound : BooleanDB; sdb_messageSound : BooleanDB;
  sdb_onlineChangeSound : BooleanDB; sdb_sendLogs : BooleanDB;
  sdb_suggestions : BooleanDB; sdb_theme : string; sdb_logs : BooleanDB }.

Record ProfileDB : Type := mkProfileDB {
  pdb_userId : number; pdb_user : string; pdb_name : string; pdb_city : string;
  pdb_surname : string; pdb_email : string; pdb_birthday : string;
  pdb_contacts : string; pdb_sex : SexDB }.

(** *** [types/converters] *)

(** The last branch of the source throws for a string that is none of the
    three; a [SexModelString] is one of them. *)
Definition convertSexToNumber (m : SexModelString) : SexDB :=
  match m with Secret => sex_0 | Male => sex_1 | Female => sex_2 end.

Definition convertNumberToSex (m : SexDB) : SexModelString :=
  match m with sex_0 => Secret | sex_1 => Male | sex_2 => Female end.

Definition convertSexToString (m : SexDB) : SexModelString :=
  match m with sex_0 => Secret | sex_1 => Male | sex_2 => Female end.

Definition convertToBoolean (value : BooleanDB) : bool := (value =? 1)%Z.

Definition convertStringSexToNumber (m : SexModelString) : SexDB :=
  match m with Secret => sex_0 | Male => sex_1 | Female => sex_2 end.

(** [b ? 1 : 0]. *)
Definition oneOrZero (b : bool) : BooleanDB := if b then 1%Z else 0%Z.

(** [s || null]. *)
Definition orNull (s : option string) : option string :=
  if truthy s then s else None.

(** *** Writing *)

(** The statements of the class, with what is bound to their [?]. *)
Inductive Statement : Type :=
| DeleteFrom (table : string)
| InsertOrReplaceMessage (row : MessageDB)
| InsertOrReplaceFile (row : FileDB)
| UpdateRoomSetDeleted
| DeleteFromRoomUsers
| InsertOrReplaceUser (row : UserDB)
| UpdateUserSetDeleted
| InsertOrReplaceProfile (row : ProfileDB)
| InsertOrReplaceSettings (row : SettingsDB)
| DeleteFromFileWhere (message_id : number)
| DeleteFromMessageWhere (id : number)
| UpdateRoomSetDeletedWhere (id : number)
| DeleteFromRoomUsersWhere (room_id : number)
| UpdateRoom (name : string) (volume : number) (notifications : BooleanDB) (id : number)
| InsertOrReplaceRoom (row : RoomDB)
| InsertRoomUsers (row : RoomUsersDB).

(** [executeSql(t, sql, args, cb)]: a statement and what its callback
    executes in turn. *)
#[local] Unset Elimination Schemes.
Inductive Sql : Type := Exec (statement : Statement) (callback : list Sql).
#[local] Set Elimination Schemes.

(** [db] tells whether [connect] has opened the database. *)
Record Db : Type := mkDb { db : bool; cache : gmap Z number }.

Definition set_cache (v : gmap Z number) (s : Db) : Db := {| db := db s; cache := v |}.

Abbreviation Writing := (M Db Sql).

(** [browserVersion] is of [utils/singletons]; the text stands for the
    message built with it. *)
Definition transaction {A} (cb : Writing A) : Writing A :=
  opened ← gets db;
  if (opened : bool) then cb else throw (Error "{} failed to get db").

Definition write {A} (cb : Writing A) : Writing A := transaction cb.

Definition setRoomHeaderId (roomId headerId : number) : Writing unit :=
  modify (λ s,
    if StoreViews.falsy (cache s !! roomId) ||
       (default 0%Z (cache s !! roomId) <? headerId)%Z
    then set_cache (<[roomId := headerId]> (cache s)) s else s).

Definition messageRow (message : MessageModel) : MessageDB :=
  {| mdb_id := msg_id message; mdb_time := time message;
     mdb_content := msg_content message; mdb_symbol := orNull (symbol message);
     mdb_deleted := oneOrZero (deleted message); mdb_giphy := orNull (giphy message);
     mdb_edited := edited message; mdb_roomId := msg_roomId message;
     mdb_userId := msg_userId message;
     mdb_sending := oneOrZero (bool_decide (is_Some (transfer message))) |}.

Definition fileRow (message : MessageModel) (k : string) (f : FileModel) : FileDB :=
  {| fdb_id := file_id f; fdb_symbol := k; fdb_url := url f;
     fdb_message_id := msg_id message; fdb_type := file_type f;
     fdb_preview := preview f |}.

(** [for (const k in message.files)]: the keys come in the order the
    object gives them. *)
Definition insertMessage (message : MessageModel) : Writing unit :=
  setRoomHeaderId (msg_roomId message) (msg_id message);;
  emit (Exec (InsertOrReplaceMessage (messageRow message))
          ((λ kf, Exec (InsertOrReplaceFile (fileRow message kf.1 kf.2)) [])
             <$> map_to_list (default ∅ (files message)))).

Definition roomRow (room : RoomSettingsModel) : RoomDB :=
  {| rdb_id := rs_id room; rdb_name := rs_name room;
     rdb_notifications := oneOrZero (rs_notifications room);
     rdb_volume := rs_volume room; rdb_deleted := 0%Z |}.

Definition setRoom (room : RoomSettingsModel) : Sql :=
  Exec (InsertOrReplaceRoom (roomRow room)) [].

Definition insertRoomUsers (roomId userId : number) : Sql :=
  Exec (InsertRoomUsers {| rudb_room_id := roomId; rudb_user_id := userId |}) [].

Definition setRoomUsers (roomId : number) (users : list number) : Sql :=
  Exec (DeleteFromRoomUsersWhere roomId) (insertRoomUsers roomId <$> users).

(** The settings of a room object. *)
Definition settingsOf (room : RoomModel) : RoomSettingsModel :=
  {| rs_id := room_id room; rs_name := name room;
     rs_notifications := notifications room; rs_volume := volume room |}.

Definition saveRoom (room : RoomModel) : Writing unit :=
  write (emit (setRoom (settingsOf room));;
         emit (setRoomUsers (room_id room) (users room))).

Definition setRooms (rooms : list RoomModel) : Writing unit :=
  write (emit (Exec UpdateRoomSetDeleted ((λ r, setRoom (settingsOf r)) <$> rooms));;
         emit (Exec DeleteFromRoomUsers
                 (concat ((λ r, insertRoomUsers (room_id r) <$> users r) <$> rooms)))).

Definition userRow (user : UserModel) : UserDB :=
  {| udb_id := user_id user; udb_user := Model.user user;
     udb_sex := convertSexToNumber (sex user); udb_deleted := 0%Z;
     udb_country_code := countryCode (location user);
     udb_country := country (location user);
     udb_region := region (location user); udb_city := city (location user) |}.

Definition insertUser (user : UserModel) : Writing unit :=
  emit (Exec (InsertOrReplaceUser (userRow user)) []).

Definition saveUser (user : UserModel) : Writing unit := write (insertUser user).

Definition setUsers (users : list UserModel) : Writing unit :=
  write (emit (Exec UpdateUserSetDeleted []);; forEach users insertUser).

Definition profileRow (user : CurrentUserInfoModel) : ProfileDB :=
  {| pdb_userId := ui_userId user; pdb_user := ui_user user; pdb_name := ui_name user;
     pdb_city := ui_city user; pdb_surname := surname user; pdb_email := email user;
     pdb_birthday := birthday user; pdb_contacts := contacts user;
     pdb_sex := convertStringSexToNumber (ui_sex user) |}.

Definition setUserProfile (user : CurrentUserInfoModel) : Writing unit :=
  write (emit (Exec (InsertOrReplaceProfile (profileRow user)) [])).

Definition settingsRow (settings : CurrentUserSettingsModel) : SettingsDB :=
  {| sdb_userId := 1%Z;
     sdb_embeddedYoutube := oneOrZero (embeddedYoutube settings);
     sdb_highlightCode := oneOrZero (highlightCode settings);
     sdb_incomingFileCallSound := oneOrZero (incomingFileCallSound settings);
     sdb_messageSound := oneOrZero (messageSound settings);
     sdb_onlineChangeSound := oneOrZero (onlineChangeSound settings);
     sdb_sendLogs := oneOrZero (sendLogs settings);
     sdb_suggestions := oneOrZero (suggestions settings);
     sdb_theme := theme settings; sdb_logs := oneOrZero (logs settings) |}.

Definition setUserSettings (settings : CurrentUserSettingsModel) : Writing unit :=
  write (emit (Exec (InsertOrReplaceSettings (settingsRow settings)) [])).

Definition deleteMessage (id : number) : Writing unit :=
  write (emit (Exec (DeleteFromFileWhere id) [Exec (DeleteFromMessageWhere id) []])).

Definition deleteRoom (id : number) : Writing unit :=
  write (emit (Exec (UpdateRoomSetDeletedWhere id) []);;
         emit (Exec (DeleteFromRoomUsersWhere id) [])).

Definition saveRoomUsers (roomId : number) (users : list number) : Writing unit :=
  write (emit (setRoomUsers roomId users)).

Definition updateRoom (r : RoomSettingsModel) : Writing unit :=
  write (emit (Exec (UpdateRoom (rs_name r) (rs_volume r)
                       (oneOrZero (rs_notifications r)) (rs_id r)) [])).

Definition saveMessages (messages : list MessageModel) : Writing unit :=
  write (forEach messages insertMessage).

Definition saveMessage (m : MessageModel) : Writing unit := write (insertMessage m).

Definition clearMessages : Writing unit :=
  write (emit (Exec (DeleteFrom "file") [Exec (DeleteFrom "message") []])).

Definition clearStorage : Writing unit :=
  write (forEach ["room_users"; "user"; "room"; "file"; "message"; "settings"; "profile"]
           (λ table, emit (Exec (DeleteFrom table) []))).

(** *** Reading *)

(** What the seven [select]s of [getAllTree] give: the rooms and the
    users are those that are not deleted. *)
Record Tables : Type := mkTables {
  dbFiles : list FileDB;
  dbProfile : list ProfileDB;
  dbRooms : list RoomDB;
  dbRoomUsers : list RoomUsersDB;
  dbSettings : list SettingsDB;
  dbUsers : list UserDB;
  dbMessages : list MessageDB }.

(** [SetRooms] and [StorageData] of [types/types]. *)
Record SetRooms : Type := mkSetRooms {
  sr_roomsDict : gmap Z RoomModel;
  sr_settings : CurrentUserSettingsModel;
  sr_profile : CurrentUserInfoModel;
  sr_allUsersDict : gmap Z UserModel }.

Record StorageData : Type := mkStorageData {
  sendingMessages : list MessageModel;
  sd_setRooms : SetRooms }.

Definition loadProfile (r : ProfileDB) : CurrentUserInfoModel :=
  {| ui_sex := convertSexToString (pdb_sex r); contacts := pdb_contacts r;
     birthday := pdb_birthday r; email := pdb_email r; surname := pdb_surname r;
     ui_city := pdb_city r; ui_name := pdb_name r; ui_userId := pdb_userId r;
     ui_user := pdb_user r |}.

Definition loadSettings (r : SettingsDB) : CurrentUserSettingsModel :=
  {| embeddedYoutube := convertToBoolean (sdb_embeddedYoutube r);
     highlightCode := convertToBoolean (sdb_highlightCode r);
     incomingFileCallSound := convertToBoolean (sdb_incomingFileCallSound r);
     messageSound := convertToBoolean (sdb_messageSound r);
     onlineChangeSound := convertToBoolean (sdb_onlineChangeSound r);
     sendLogs := convertToBoolean (sdb_sendLogs r);
     suggestions := convertToBoolean (sdb_suggestions r);
     theme := sdb_theme r; logs := convertToBoolean (sdb_logs r) |}.

Definition loadRoom (r : RoomDB) : RoomModel :=
  Converters.getRoomsBaseDict (rdb_id r) (rdb_volume r)
    (convertToBoolean (rdb_notifications r)) (rdb_name r) [] None.

Definition loadUser (u : UserDB) : UserModel :=
  {| user_id := udb_id u; sex := convertNumberToSex (udb_sex u); user := udb_user u;
     location := {| region := udb_region u; city := udb_city u;
                    countryCode := udb_country_code u; country := udb_country u |} |}.

(** [m.sending ? .. : ..] on a number. *)
Definition nonzero (n : number) : bool := negb (n =? 0)%Z.

Definition loadMessage (m : MessageDB) : MessageModel :=
  {| msg_id := mdb_id m; msg_roomId := mdb_roomId m; time := mdb_time m;
     deleted := convertToBoolean (mdb_deleted m);
     transfer := if nonzero (mdb_sending m)
                 then Some {| error := None; upload := None |} else None;
     files := Some ∅; edited := mdb_edited m; symbol := mdb_symbol m;
     msg_content := mdb_content m; msg_userId := mdb_userId m; giphy := mdb_giphy m |}.

Definition loadFile (f : FileDB) : FileModel :=
  {| url := fdb_url f; file_type := fdb_type f; preview := fdb_preview f;
     file_id := fdb_id f |}.

Definition set_files (v : option (gmap string FileModel)) (m : MessageModel) : MessageModel :=
  {| msg_id := msg_id m; time := time m; files := v; msg_content := msg_content m;
     symbol := symbol m; deleted := deleted m; giphy := giphy m; edited := edited m;
     msg_roomId := msg_roomId m; msg_userId := msg_userId m; transfer := transfer m |}.

(** [roomsDict[ru.room_id].users.push(ru.user_id)]. *)
Definition pushUser (roomsDict : Outcome (gmap Z RoomModel)) (ru : RoomUsersDB) :
    Outcome (gmap Z RoomModel) :=
  match roomsDict with
  | Ret rooms =>
      match rooms !! rudb_room_id ru with
      | Some r =>
          Ret (<[rudb_room_id ru := set_users (users r ++ [rudb_user_id ru]) r]> rooms)
      | None => Throw TypeError
      end
  | Throw e => Throw e
  end.

(** The message objects built by the loop over [dbMessages] are shared:
    [sendingMessages], the [messages] of a room and [am] hold the same
    object, and the loop over [dbFiles] writes into it through [am].
    [objects] are the objects in the order they are built, and the three
    hold places in it. *)
Record Loading : Type := mkLoading {
  objects : list MessageModel;
  am : gmap Z nat;
  inRooms : gmap Z (gmap Z nat);
  sending : list nat }.

Definition placeMessage (roomsDict : gmap Z RoomModel) (st : Loading) (m : MessageDB) :
    Loading :=
  let message := length (objects st) in
  {| objects := objects st ++ [loadMessage m];
     sending := if nonzero (mdb_sending m) then sending st ++ [message] else sending st;
     inRooms := match roomsDict !! mdb_roomId m with
                | Some _ =>
                    <[mdb_roomId m :=
                        <[mdb_id m := message]> (default ∅ (inRooms st !! mdb_roomId m))]>
                      (inRooms st)
                | None => inRooms st
                end;
     am := <[mdb_id m := message]> (am st) |}.

Definition attachFile (st : Loading) (f : FileDB) : Loading :=
  match am st !! fdb_message_id f with
  | Some amElement =>
      {| objects :=
           alter (λ m, set_files (Some (<[fdb_symbol f := loadFile f]>
                                          (default ∅ (files m)))) m)
                 amElement (objects st);
         am := am st; inRooms := inRooms st; sending := sending st |}
  | None => st
  end.

(** The objects a collection of places stands for. *)
Definition at_ (st : Loading) (place : nat) : option MessageModel := objects st !! place.

Definition getAllTree (opened : bool) (t : Tables) : Outcome (option StorageData) :=
  if negb opened then Throw (Error "{} failed to get db")
  else
    match dbProfile t with
    | [] => Ret None
    | profileRow0 :: _ =>
        match dbSettings t with
        | [] => Throw TypeError
        | settingsRow0 :: _ =>
            let rooms := foldl (λ d r, <[rdb_id r := loadRoom r]> d) ∅ (dbRooms t) in
            match foldl pushUser (Ret rooms) (dbRoomUsers t) with
            | Throw e => Throw e
            | Ret roomsDict =>
                let allUsersDict :=
                  foldl (λ d u, <[udb_id u := loadUser u]> d) ∅ (dbUsers t) in
                let st := foldl (placeMessage roomsDict)
                            {| objects := []; am := ∅; inRooms := ∅; sending := [] |}
                            (dbMessages t) in
                let st := foldl attachFile st (dbFiles t) in
                Ret (Some
                  {| sendingMessages := omap (at_ st) (sending st);
                     sd_setRooms :=
                       {| sr_roomsDict :=
                            map_imap (λ id r,
                              Some (set_messages
                                      (omap (at_ st) (default ∅ (inRooms st !! id))) r))
                              roomsDict;
                          sr_settings := loadSettings settingsRow0;
                          sr_profile := loadProfile profileRow0;
                          sr_allUsersDict := allUsersDict |} |})
            end
        end
    end.

(** *** Reading what was written *)

(** The statements, each before those of its callback. *)
Fixpoint statements (q : Sql) : list Statement :=
  match q with
  | Exec statement callback => statement :: concat (map statements callback)
  end.

(** The ids given for the rooms, in order, by calls that reach
    [setRoomHeaderId]. *)
Inductive HeaderCall : Type :=
| ViaSaveMessage (m : MessageModel)
| ViaSaveMessages (ms : list MessageModel)
| Direct (roomId headerId : number).

Definition headerCall (c : HeaderCall) : Writing unit :=
  match c with
  | ViaSaveMessage m => saveMessage m
  | ViaSaveMessages ms => saveMessages ms
  | Direct roomId headerId => setRoomHeaderId roomId headerId
  end.

Definition headerIds (c : HeaderCall) : list (number * number) :=
  match c with
  | ViaSaveMessage m => [(msg_roomId m, msg_id m)]
  | ViaSaveMessages ms => (λ m, (msg_roomId m, msg_id m)) <$> ms
  | Direct roomId headerId => [(roomId, headerId)]
  end.

(** The calls, one after the other; one that throws does not keep the
    next from running. *)
Definition headerCalls (cs : list HeaderCall) (s : Db) : Db :=
  foldl (λ s c, final (headerCall c s)) s cs.

(** [cache] holds for each room the greatest of the ids [ids]. *)
Definition greatestOf (cache : gmap Z number) (ids : list (number * number)) : Prop :=
  ∀ roomId : number,
    match cache !! roomId with
    | None => ∀ v, (roomId, v) ∉ ids
    | Some x => (roomId, x) ∈ ids ∧ x ≠ 0%Z ∧ ∀ v, (roomId, v) ∈ ids → (v ≤ x)%Z
    end.

(** The rows handed to the database by the statements, table by table
    and in order.  These are the rows the tables hold when the database
    was empty before and no two of the rows of a table have the same
    primary key or a null one: a row written under a key that is there
    replaces the row that was, and a null key is given a number by the
    database. *)
Definition written (l : list Statement) : Tables :=
  {| dbFiles := omap (λ q, match q with InsertOrReplaceFile r => Some r | _ => None end) l;
     dbProfile :=
       omap (λ q, match q with InsertOrReplaceProfile r => Some r | _ => None end) l;
     dbRooms := omap (λ q, match q with InsertOrReplaceRoom r => Some r | _ => None end) l;
     dbRoomUsers := omap (λ q, match q with InsertRoomUsers r => Some r | _ => None end) l;
     dbSettings :=
       omap (λ q, match q with InsertOrReplaceSettings r => Some r | _ => None end) l;
     dbUsers := omap (λ q, match q with InsertOrReplaceUser r => Some r | _ => None end) l;
     dbMessages :=
       omap (λ q, match q with InsertOrReplaceMessage r => Some r | _ => None end) l |}.

(** The statements of a run. *)
Definition executed {A} (r : Outcome A * Db * list Sql) : list Statement :=
  concat (statements <$> trace r).

(** The room object that [getAllTree] builds for a room. *)
Definition reloaded (room : RoomModel) : RoomModel :=
  Converters.getRoomsBaseDict (room_id room) (volume room) (notifications room)
    (name room) (users room) None.

(** The profile, the settings, the rooms and the users are saved. *)
Definition saveAll (profile : CurrentUserInfoModel) (settings : CurrentUserSettingsModel)
    (rooms : list RoomModel) (users : list UserModel) : Writing unit :=
  setUserProfile profile;;
  setUserSettings settings;;
  setRooms rooms;;
  setUsers users.

(** A message as it comes back from the database. *)
Definition stored (m : MessageModel) : MessageModel :=
  {| msg_id := msg_id m; time := time m; files := Some (default ∅ (files m));
     msg_content := msg_content m; symbol := orNull (symbol m); deleted := deleted m;
     giphy := orNull (giphy m); edited := edited m; msg_roomId := msg_roomId m;
     msg_userId := msg_userId m;
     transfer := if bool_decide (is_Some (transfer m))
                 then Some {| error := None; upload := None |} else None |}.

(** The rows of the files of a message. *)
Definition fileRows (m : MessageModel) : list FileDB :=
  (λ kf, fileRow m kf.1 kf.2) <$> map_to_list (default ∅ (files m)).

(** The primary keys under which the files of the messages are written
    to the table [file]. *)
Definition fileKeys (ms : list MessageModel) : list (option number) :=
  fdb_id <$> concat (fileRows <$> ms).

(** What the loop over [dbMessages] has built from the messages [ms],
    the objects before them being those of [st0]: the objects in order,
    and for each message its place in [am], among [sending] if it is being
    sent, and in its room if the room is loaded. *)
Definition placed (roomsDict : gmap Z RoomModel) (st0 st : Loading)
    (ms : list MessageModel) : Prop :=
  objects st = objects st0 ++ ((λ m, loadMessage (messageRow m)) <$> ms) ∧
  ∀ i m, ms !! i = Some m →
    am st !! msg_id m = Some (length (objects st0) + i) ∧
    (is_Some (transfer m) → length (objects st0) + i ∈ sending st) ∧
    (is_Some (roomsDict !! msg_roomId m) →
     inRooms st !! msg_roomId m ≫= (.!! msg_id m) = Some (length (objects st0) + i)).

(** What was there before stays, but for the ids [ids]. *)
Definition kept (st0 st : Loading) (ids : list number) : Prop :=
  (∀ k : number, k ∉ ids → am st !! k = am st0 !! k) ∧
  (∀ i, i ∈ sending st0 → i ∈ sending st) ∧
  (∀ roomId k : number, k ∉ ids →
     inRooms st !! roomId ≫= (.!! k) = inRooms st0 !! roomId ≫= (.!! k)).

(** The public methods that write to the database. *)
Inductive Operation : Type :=
| DoClearMessages
| DoClearStorage
| DoSaveRoom (room : RoomModel)
| DoSetRooms (rooms : list RoomModel)
| DoSaveUser (user : UserModel)
| DoSetUsers (users : list UserModel)
| DoSetUserProfile (user : CurrentUserInfoModel)
| DoSetUserSettings (settings : CurrentUserSettingsModel)
| DoDeleteMessage (id : number)
| DoDeleteRoom (id : number)
| DoSaveRoomUsers (roomId : number) (users : list number)
| DoUpdateRoom (r : RoomSettingsModel)
| DoSaveMessages (messages : list MessageModel)
| DoSaveMessage (m : MessageModel).

Definition operate (op : Operation) : Writing unit :=
  match op with
  | DoClearMessages => clearMessages
  | DoClearStorage => clearStorage
  | DoSaveRoom room => saveRoom room
  | DoSetRooms rooms => setRooms rooms
  | DoSaveUser user => saveUser user
  | DoSetUsers users => setUsers users
  | DoSetUserProfile user => setUserProfile user
  | DoSetUserSettings settings => setUserSettings settings
  | DoDeleteMessage id => deleteMessage id
  | DoDeleteRoom id => deleteRoom id
  | DoSaveRoomUsers roomId users => saveRoomUsers roomId users
  | DoUpdateRoom r => updateRoom r
  | DoSaveMessages messages => saveMessages messages
  | DoSaveMessage m => saveMessage m
  end.

(** The methods that reach [setRoomHeaderId]. *)
Definition savesMessages (op : Operation) : bool :=
  match op with
  | DoSaveMessages _ | DoSaveMessage _ => true
  | _ => false
  end.

(** Everything is saved: the profile, the settings, the rooms and the
    users, then the messages. *)
Definition saveEverything (profile : CurrentUserInfoModel)
    (settings : CurrentUserSettingsModel) (rooms : list RoomModel)
    (users : list UserModel) (ms : list MessageModel) : Writing unit :=
  saveAll profile settings rooms users;;
  saveMessages ms.

End DatabaseWrapper.

(** ** Further example data *)
Module MoreScenarios.
Import Js Messages.

Module Chat.
Import Model DefaultStore.

Definition greeting : MessageModel :=
  mkMessage 7%Z 0%Z None (Some "hi") None false None None 1%Z 3%Z None.

Definition reply : MessageModel :=
  mkMessage 8%Z 0%Z None (Some "ho") None false None None 1%Z 3%Z None.

(** A message that is still being sent has an id below 0. *)
Definition unsent : MessageModel :=
  mkMessage (-3)%Z 0%Z None (Some "hm") None false None None 1%Z 3%Z None.

Definition lobby : RoomModel :=
  Converters.getRoomsBaseDict 1%Z 100%Z true "all" [7%Z] None.

Definition talk : RoomModel :=
  set_messages (<[7%Z := greeting]> (<[8%Z := reply]> (<[(-3)%Z := unsent]> ∅))) lobby.

Definition chatting : State := set_roomsDict (<[1%Z := talk]> ∅) initial.

Definition eve : UserModel := mkUser "eve" 9%Z Female (mkLocation None None None None).

End Chat.

Module Placing.
Import CallHandler CallControl.

Definition builtIn : list MediaDeviceInfo :=
  [ mkDevice audioinput "default" ""; mkDevice videoinput "front" "";
    mkDevice audiooutput "default" "Headphones" ].

Definition plugged : list MediaDeviceInfo :=
  [ mkDevice audioinput "usb" "USB microphone" ].

Definition idle : Handler :=
  {| roomId := 1; connectionId := None; webrtcConnnectionsIds := [];
     wsConnectionId := "0001:aaaa"; localStream := None; audioProcessor := None;
     callStatus := not_inited; acceptedPeers := []; streams := [] |}.

Definition answers : list Incoming :=
  [ ReplyCall "0002:bbbb" 2; ReplyCall "0003:cccc" 3;
    AcceptCall "0003:cccc"; AcceptCall "0002:bbbb" ].

End Placing.

Module Exchange.
Import AbstractPeerConnection Negotiation.

Definition offerer : PeerConn := Scenarios.Links.openLink.

Definition answerer : PeerConn :=
  {| roomId := 1; connectionId := "conn"; opponentWsId := "0001:aaaa";
     offerCreator := false; sendRtcDataQueue := [];
     pc := Some {| signalingState := sig_stable; iceConnectionState := ice_connected |};
     connectionStatus := status_connected;
     sendChannel := None;
     connectedToRemote := true |}.

Definition willing : Platform :=
  {| created := Ret (Some "v=0"); described := Ret tt; remote := Ret tt |}.

End Exchange.

Module Database.
Import Model DatabaseWrapper.

Definition opened : Db := {| db := true; cache := ∅ |}.

Definition office : RoomModel :=
  Converters.getRoomsBaseDict 2%Z 50%Z false "office" [7%Z; 9%Z] None.

Definition me : CurrentUserInfoModel :=
  mkUserInfo 7%Z "ann" "Ann" "Kyiv" "Lee" "ann@example.org" "2000-01-01" "" Female.

Definition defaults : CurrentUserSettingsModel :=
  mkSettings true true true false true false true "color-reg" false.

Definition calls : list HeaderCall :=
  [ ViaSaveMessage Chat.reply; Direct 2%Z 40%Z;
    ViaSaveMessages [Chat.greeting; Chat.unsent] ].

(** A message with a picture, still being sent, for a room that is not
    saved, and one for the office. *)
Definition photo : MessageModel :=
  mkMessage (-4)%Z 5%Z
    (Some (<["a" := mkFile (Some 11%Z) (Some "/photo/a.png") "image" None]> ∅))
    (Some "look") (Some "a") false None None 2%Z 7%Z
    (Some (mkTransferInfo (Some (mkUpload 100%Z 40%Z)) None)).

Definition stray : MessageModel :=
  mkMessage 12%Z 6%Z None (Some "lost") (Some "") true None None 5%Z 9%Z None.

Definition album : list MessageModel := [Chat.greeting; photo; stray; Chat.reply].

End Database.

Module Capture.
Import CallHandler CallSession.

(** A browser with a microphone and a camera, that lists its devices and
    refuses the screen. *)
Definition studio : Navigator :=
  {| mediaDevices :=
       Some {| getUserMedia := λ _ _, Ret [Scenarios.Calls.microphone; Scenarios.Calls.camera];
               enumerateDevices := Some (Ret Placing.builtIn);
               getDisplayMedia := Some (Throw (Error "Permission denied")) |};
     chromeVersion := Some 71%N; isChrome := true; isMobile := false; runtime := true;
     ping := None; shareRequest := None; voiceAnalyzer := Some true |}.

(** An idle handler for room 1, and the store with that room. *)
Definition inLobby : World :=
  {| handler := Placing.idle; store := Chat.chatting |}.

(** The same once the user has chosen to share the screen. *)
Definition sharing : World :=
  {| handler := Placing.idle;
     store := Eff.final (DefaultStore.setShareScreenToState 1%Z true Chat.chatting) |}.

(** An idle handler whose room the store does not have. *)
Definition astray : World :=
  {| handler := Placing.idle; store := DefaultStore.initial |}.

End Capture.

Module Headers.
Import LocalStorage.

Definition requests : list Request :=
  [ FromStore (IStorage.saveMessage Chat.reply);
    FromStore (IStorage.saveMessages [Chat.greeting; Chat.unsent]);
    SetRoomHeaderId 2%Z 40%Z;
    FromStore (IStorage.saveUser Chat.eve) ].

End Headers.

End MoreScenarios.

(* ===================================================================== *)
(** * Part II: the properties                                             *)
(* ===================================================================== *)

Module SdpFacts.
Import Js Sdp.

Example split_example :
  split LF ("v=0" +:+ nl +:+ "m=audio" +:+ nl +:+ "c=IN" +:+ nl +:+ "a=x" +:+ nl)
  = ["v=0"; "m=audio"; "c=IN"; "a=x"; ""].
Proof. reflexivity. Qed.

Example bitrate_example :
  setMediaBitrate ("v=0" +:+ nl +:+ "m=audio" +:+ nl +:+ "c=IN" +:+ nl +:+ "a=x" +:+ nl) 1638400
  = Ret ("v=0" +:+ nl +:+ "m=audio" +:+ nl +:+ "c=IN" +:+ nl +:+ "b=AS:1638400" +:+ nl +:+ "a=x" +:+ nl).
Proof. reflexivity. Qed.

Example bitrate_replace :
  setMediaBitrate ("m=audio" +:+ nl +:+ "b=AS:5" +:+ nl +:+ "a=x") 7
  = Ret ("m=audio" +:+ nl +:+ "b=AS:7" +:+ nl +:+ "a=x").
Proof. reflexivity. Qed.

Example bitrate_throw : setMediaBitrate "m=audio" 7 = Throw TypeError.
Proof. reflexivity. Qed.

End SdpFacts.

Module SdpProofs.
Import Js Sdp.


Lemma findMLine_first pre m rest i :
  Forall (λ l, indexOf_is_0 l "m=" = false) pre →
  indexOf_is_0 m "m=" = true →
  findMLine (pre ++ m :: rest) i = Some (S (i + length pre)).
Proof.
  intros Hpre Hm. revert i.
  induction Hpre as [|l ls Hl _ IH]; intros i; simpl.
  - rewrite Hm. f_equal. lia.
  - rewrite Hl, IH. f_equal. lia.
Qed.

Lemma skipIC_stops skip l post n :
  Forall (λ x, isIC x = true) skip →
  isIC l = false →
  skipIC (skip ++ l :: post) n = Some (n + length skip).
Proof.
  intros Hs Hl. revert n.
  induction Hs as [|x xs Hx _ IH]; intros n; simpl.
  - rewrite Hl. f_equal. lia.
  - rewrite Hx, IH. f_equal. lia.
Qed.

Lemma skipIC_runs_off skip n :
  Forall (λ x, isIC x = true) skip → skipIC skip n = None.
Proof.
  intros Hs. revert n.
  induction Hs as [|x xs Hx _ IH]; intros n; simpl; [done|].
  by rewrite Hx.
Qed.

(** The source reads [lines[line]] by index at every turn of the loop;
    [skipIC] on the suffix computes the same loop. *)
Lemma skipIC_unfold lines line :
  skipIC (drop line lines) line =
  match lines !! line with
  | None => None
  | Some l => if isIC l then skipIC (drop (S line) lines) (S line) else Some line
  end.
Proof.
  destruct (lines !! line) as [l|] eqn:E.
  - by rewrite (drop_S _ _ _ E).
  - apply lookup_ge_None in E. by rewrite drop_ge.
Qed.

Section decomposition.
Context (pre : list string) (m : string) (skip : list string).
Context (Hpre : Forall (λ x, indexOf_is_0 x "m=" = false) pre).
Context (Hm : indexOf_is_0 m "m=" = true).
Context (Hskip : Forall (λ x, isIC x = true) skip).

Lemma setMediaBitrate_found sdp bitrate l post :
  split LF sdp = pre ++ m :: skip ++ l :: post →
  isIC l = false →
  setMediaBitrate sdp bitrate =
  Ret (join (String LF EmptyString)
         (pre ++ m :: skip ++ bLine bitrate ::
            (if indexOf_is_0 l "b" then post else l :: post))).
Proof using Hpre Hm Hskip.
  intros Hsplit Hl. unfold setMediaBitrate. rewrite Hsplit.
  rewrite (findMLine_first pre m _ 0 Hpre Hm). simpl.
  replace (pre ++ m :: skip ++ l :: post)
    with ((pre ++ [m]) ++ skip ++ l :: post) by (by rewrite <- app_assoc).
  assert (Hlen : S (length pre) = length (pre ++ [m]))
    by (rewrite length_app; simpl; lia).
  rewrite Hlen, drop_app_length, (skipIC_stops _ _ _ _ Hskip Hl).
  set (k := length (pre ++ [m]) + length skip).
  assert (Hk : k = length ((pre ++ [m]) ++ skip)) by (rewrite length_app; done).
  rewrite (app_assoc (pre ++ [m]) skip (l :: post)).
  rewrite Hk. rewrite list_lookup_middle by done.
  destruct (indexOf_is_0 l "b").
  - rewrite insert_app_r_alt by lia. rewrite Nat.sub_diag. simpl.
    by rewrite <- !app_assoc.
  - rewrite take_app_length, drop_app_length. simpl.
    by rewrite <- !app_assoc.
Qed.

Lemma setMediaBitrate_runs_off sdp bitrate :
  split LF sdp = pre ++ m :: skip →
  setMediaBitrate sdp bitrate = Throw TypeError.
Proof using Hpre Hm Hskip.
  intros Hsplit. unfold setMediaBitrate. rewrite Hsplit.
  rewrite (findMLine_first pre m _ 0 Hpre Hm). simpl.
  replace (pre ++ m :: skip) with ((pre ++ [m]) ++ skip) by (by rewrite <- app_assoc).
  assert (Hlen : S (length pre) = length (pre ++ [m]))
    by (rewrite length_app; simpl; lia).
  by rewrite Hlen, drop_app_length, (skipIC_runs_off _ _ Hskip).
Qed.
End decomposition.


Lemma split_nonempty sep s : split sep s ≠ [].
Proof.
  destruct s as [|c s]; simpl; [done|].
  destruct (Ascii.eqb c sep); [done|]. by destruct (split sep s).
Qed.

(** An SDP that ends with a line feed splits into its lines and a last,
    empty piece. *)
Lemma split_terminated s :
  split LF (s +:+ String LF EmptyString) = split LF s ++ [EmptyString].
Proof.
  induction s as [|c s IH]; simpl; [done|].
  destruct (Ascii.eqb c LF); [by rewrite IH|].
  rewrite IH. pose proof (split_nonempty LF s). by destruct (split LF s).
Qed.

Lemma findMLine_Some lines i k :
  findMLine lines i = Some k →
  ∃ j m, k = S (i + j) ∧ lines !! j = Some m ∧ indexOf_is_0 m "m=" = true.
Proof.
  revert i. induction lines as [|l ls IH]; intros i; simpl; [done|].
  destruct (indexOf_is_0 l "m=") eqn:E.
  - intros [= <-]. exists 0, l. split; [f_equal; lia | done].
  - intros H. destruct (IH _ H) as (j & m & -> & Hj & Hm).
    exists (S j), m. split; [f_equal; lia | done].
Qed.

Lemma skipIC_finds rest n :
  Exists (λ l, isIC l = false) rest →
  ∃ k l, skipIC rest n = Some (n + k) ∧ rest !! k = Some l.
Proof.
  intros H. revert n. induction rest as [|x xs IH]; intros n.
  - by apply Exists_nil in H.
  - simpl. destruct (isIC x) eqn:E.
    + apply Exists_cons in H as [H|H]; [congruence|].
      destruct (IH H (S n)) as (k & l & -> & Hl).
      exists (S k), l. split; [f_equal; lia | done].
    + exists 0, x. split; [f_equal; lia | done].
Qed.

(** On an SDP that ends with a line feed [setMediaBitrate] returns. *)
Lemma setMediaBitrate_terminated s bitrate :
  ∃ out, setMediaBitrate (s +:+ String LF EmptyString) bitrate = Ret out.
Proof.
  unfold setMediaBitrate. rewrite split_terminated.
  set (lines := split LF s).
  destruct (findMLine (lines ++ [EmptyString]) 0) as [line0|] eqn:Hm; [|by eexists].
  apply findMLine_Some in Hm as (j & m & -> & Hj & Hmm). simpl.
  assert (Hlt : j < length lines).
  { apply lookup_lt_Some in Hj as Hlen. rewrite length_app in Hlen. simpl in Hlen.
    destruct (decide (j = length lines)) as [->|]; [|lia].
    rewrite lookup_app_r, Nat.sub_diag in Hj by lia. by injection Hj as <-. }
  assert (Hex : Exists (λ l, isIC l = false) (drop (S j) (lines ++ [EmptyString]))).
  { rewrite drop_app_le by lia. apply Exists_app. right. by apply Exists_cons_hd. }
  destruct (skipIC_finds _ (S j) Hex) as (k & l & -> & Hl).
  rewrite lookup_drop in Hl. rewrite Hl.
  destruct (indexOf_is_0 l "b"); by eexists.
Qed.





End SdpProofs.

(** ** Running computations *)
Module EffFacts.
Import Js Eff.

Ltac run :=
  cbv [mbind mret M_bind M_ret bind ret gets modify emit throw tryCatch
       outcome final trace]; simpl.

Section forEach.
Context {S E A : Type}.
Implicit Types (f : A → M S E unit) (l : list A) (s : S).

(** A loop whose body leaves the fields alone and does not throw only adds
    the bodies' effects, in the order of the array. *)
Lemma forEach_stable f (g : A → list E) s l :
  (∀ x, f x s = (Ret tt, s, g x)) →
  forEach l f s = (Ret tt, s, concat (g <$> l)).
Proof.
  intros Hf. induction l as [|x l IH]; simpl; [done|].
  unfold bind. by rewrite Hf, IH.
Qed.

Lemma forEach_emit (g : A → E) s l :
  forEach l (λ x, emit (g x)) s = (Ret tt, s, g <$> l).
Proof.
  rewrite (forEach_stable _ (λ x, [g x])) by done.
  f_equal. induction l; simpl; [done|]. by f_equal.
Qed.
End forEach.

End EffFacts.

(** ** The call handler *)
Module CallHandlerProofs.
Import Js Eff Messages CallHandler EffFacts Scenarios.Calls.

(** *** The class of a link: [createCallPeerConnection] *)

Lemma gt_Gt a b : gt a b = true ↔ String.compare a b = Gt.
Proof. unfold gt. destruct (String.compare a b); split; congruence. Qed.

Lemma gt_lt a b : gt b a = true ↔ String.compare a b = Lt.
Proof.
  rewrite gt_Gt, String.compare_antisym.
  destruct (String.compare a b); simpl; split; congruence.
Qed.

Lemma gt_total a b : a ≠ b → gt a b = negb (gt b a).
Proof.
  intros Hne. unfold gt. rewrite (String.compare_antisym b a).
  destruct (String.compare a b) eqn:E; simpl; try done.
  by apply String.compare_eq_iff in E.
Qed.

Lemma createCallPeerConnection_constructed opp uid h :
  constructed (trace (createCallPeerConnection opp uid h)) =
  [(if gt opp (wsConnectionId h) then Sender else Receiver, opp)].
Proof.
  unfold createCallPeerConnection. run.
  destruct (gt opp (wsConnectionId h)); reflexivity.
Qed.

Lemma createCallPeerConnection_run opp uid h :
  outcome (createCallPeerConnection opp uid h) = Ret tt ∧
  final (createCallPeerConnection opp uid h) =
    set_webrtcConnnectionsIds (webrtcConnnectionsIds h ++ [opp]) h.
Proof.
  unfold createCallPeerConnection. run.
  destruct (gt opp (wsConnectionId h)); done.
Qed.

(** X23.  Two peers with distinct identifiers each run
    [createCallPeerConnection] for the other one.  Whatever else their
    handlers hold, exactly one of them constructs a
    [CallSenderPeerConnection] and the other a
    [CallReceiverPeerConnection], and the one that constructs the sender
    class is the side whose own identifier is the lower one, the
    identifiers compared as strings. *)
Theorem lower_identifier_constructs_sender (a b : Handler) (ua ub : Z) :
  wsConnectionId a ≠ wsConnectionId b →
  ∃ ra rb,
    constructed (trace (createCallPeerConnection (wsConnectionId b) ua a))
      = [(ra, wsConnectionId b)] ∧
    constructed (trace (createCallPeerConnection (wsConnectionId a) ub b))
      = [(rb, wsConnectionId a)] ∧
    ra ≠ rb ∧
    (ra = Sender ↔ String.compare (wsConnectionId a) (wsConnectionId b) = Lt) ∧
    (rb = Sender ↔ String.compare (wsConnectionId b) (wsConnectionId a) = Lt).
Proof.
  intros Hne. rewrite !createCallPeerConnection_constructed.
  do 2 eexists. split; [reflexivity|]. split; [reflexivity|].
  rewrite <- !gt_lt, (gt_total _ _ Hne).
  destruct (gt (wsConnectionId b) (wsConnectionId a)); simpl; naive_solver.
Qed.

Lemma lower_identifier_constructs_sender_witness :
  ∃ ra rb,
    constructed (trace (createCallPeerConnection "0002:bbbb" 2 alice))
      = [(ra, "0002:bbbb")] ∧
    constructed (trace (createCallPeerConnection "0001:aaaa" 1 bob))
      = [(rb, "0001:aaaa")] ∧
    ra ≠ rb ∧
    (ra = Sender ↔ String.compare "0001:aaaa" "0002:bbbb" = Lt) ∧
    (rb = Sender ↔ String.compare "0002:bbbb" "0001:aaaa" = Lt).
Proof. apply (lower_identifier_constructs_sender alice bob 2 1). discriminate. Defined.

(** *** An incoming offer: [initAndDisplayOffer] *)

(** C7, as amended.  Whether or not a session is already active,
    [initAndDisplayOffer] does not throw and takes the offer up: the status
    becomes [received_offer], the new connection id replaces the old one,
    the handler subscribes to it, replies to the relay, queues the offering
    opponent, surfaces the incoming-call model and creates the peer
    connection.  An active session only adds the error log. *)
Theorem initAndDisplayOffer_takes_offer
    (h : Handler) (connId : string) (room user : Z) (opp : string) :
  let r := initAndDisplayOffer connId room user opp h in
  outcome r = Ret tt ∧
  connectionId (final r) = Some connId ∧
  callStatus (final r) = received_offer ∧
  acceptedPeers (final r) = acceptedPeers h ++ [opp] ∧
  webrtcConnnectionsIds (final r) = webrtcConnnectionsIds h ++ [opp] ∧
  trace r =
    Log "Setting call status to {}" ::
    (if truthy (connectionId h) then [LogError "Old connId still exists {}"] else []) ++
    [ Subscribe (Subscription.getTransferId connId);
      Log "CallHandler initialized";
      WsReplyCall connId;
      Commit (DefaultStore.SetIncomingCall
                (Some {| Model.ic_connId := connId; Model.ic_roomId := room;
                         Model.ic_userId := user |}));
      if gt opp (wsConnectionId h)
      then NewCallSenderPeerConnection (roomId h) (Some connId) opp user
      else NewCallReceiverPeerConnection (roomId h) (Some connId) opp user ].
Proof.
  unfold initAndDisplayOffer, setCallStatus, createCallPeerConnection. run.
  destruct h as [rid cid ids ws ls ap st acc ss]; simpl.
  destruct (truthy cid); simpl; destruct (gt opp ws); simpl; done.
Qed.

(** C7 as the claim words it fails: with a session active the new session
    is recorded all the same. *)
Lemma initAndDisplayOffer_rejects_counterexample :
  truthy (connectionId caller) = true ∧
  ¬ connectionId (final (initAndDisplayOffer "conn2" 1 3 "0003:cccc" caller))
      = connectionId caller.
Proof. split; [reflexivity | discriminate]. Qed.

(** *** Answering: [doAnswer] *)

Lemma concat_singletons {A B} (g : A → B) (l : list A) :
  concat ((λ x, [g x]) <$> l) = g <$> l.
Proof. induction l; simpl; [done|]. by f_equal. Qed.

Lemma notified_Notify {A} (g : A → SubMessage) (l : list A) :
  notified ((λ x, Notify (g x)) <$> l) = g <$> l.
Proof. induction l; simpl; [done|]. by f_equal. Qed.

Lemma notified_app t1 t2 : notified (t1 ++ t2) = notified t1 ++ notified t2.
Proof. apply omap_app. Qed.

(** C5, as amended.  When the capture succeeds, [doAnswer] completes, the
    captured stream is the local stream, and every opponent queued in
    [acceptedPeers] has been sent one [connectToRemote] carrying that
    stream, in queue order and after the capture; [acceptedPeers] itself
    is left as it was. *)
Theorem doAnswer_connects_accepted_peers
    (h : Handler) (env : Browser) (tracks : MediaStream) (withVideo : bool) :
  captured env = Ret tracks →
  let r := doAnswer env withVideo h in
  let new := length (streams h) in
  outcome r = Ret tt ∧
  localStream (final r) = Some new ∧
  streams (final r) = streams h ++ [tracks] ∧
  callStatus (final r) = accepted ∧
  notified (trace r) =
    (λ e, connectToRemote
            (Subscription.getPeerConnectionId (keyPart (connectionId h)) e)
            (Some new)) <$> acceptedPeers h ∧
  (∃ before after,
      trace r = before ++ MediaCapture :: after ∧ notified before = []) ∧
  acceptedPeers (final r) = acceptedPeers h.
Proof.
  intros Hc r new. subst r new.
  unfold doAnswer, setCallStatus, captureInput, attachLocalStream, setCallIconsState.
  run. rewrite Hc. simpl.
  destruct h as [rid cid ids ws ls ap st acc ss]; simpl.
  erewrite forEach_stable; [| intros; reflexivity]. simpl.
  rewrite concat_singletons.
  repeat split.
  - by rewrite notified_app, notified_Notify, app_nil_r.
  - eexists [_; _; _; _; _; _; _], _. split; [reflexivity | reflexivity].
Qed.

Lemma doAnswer_connects_accepted_peers_witness :
  notified (trace (doAnswer devices true callee)) =
    [connectToRemote "conn:0001:aaaa" (Some 0);
     connectToRemote "conn:0003:cccc" (Some 0)].
Proof.
  pose proof (doAnswer_connects_accepted_peers callee devices
                [microphone; camera] true eq_refl) as (_ & _ & _ & _ & H & _).
  exact H.
Defined.

(** C5 as the claim words it fails: [acceptedPeers] is not empty after
    [doAnswer]. *)
Lemma doAnswer_clears_accepted_peers_counterexample :
  outcome (doAnswer devices true callee) = Ret tt ∧
  ¬ acceptedPeers (final (doAnswer devices true callee)) = [].
Proof. split; [reflexivity | discriminate]. Qed.

(** *** Acceptance by an opponent: [onacceptCall] *)

(** The two parts of [doAnswer] are [doAnswer]. *)
Lemma doAnswer_in_two_parts (env : Browser) (withVideo : bool) (h : Handler) :
  (doAnswerUntilCapture withVideo;; doAnswerFromCapture env) h = doAnswer env withVideo h.
Proof.
  unfold doAnswerUntilCapture, doAnswerFromCapture, doAnswer, setCallStatus,
    captureInput, attachLocalStream, setCallIconsState.
  run. destruct h as [rid cid ids ws ls ap st acc ss]; simpl.
  destruct (captured env) as [tracks|e]; simpl; [|done].
  erewrite !forEach_stable; [| intros; reflexivity ..]. done.
Qed.

(** C6.  An acceptance that arrives while [doAnswer] waits for the devices
    finds the status [accepted] and no local stream: [onacceptCall] then
    sends [connectToRemote] for that opponent at once, carrying no stream,
    and does not queue the opponent, so that [doAnswer], once the capture
    has succeeded, connects the captured stream to the opponents that were
    queued before and not to this one. *)
Theorem onacceptCall_while_answering (h : Handler) (env : Browser)
    (withVideo : bool) (opp : string) (tracks : MediaStream) :
  truthy (connectionId h) = true →
  localStream h = None →
  captured env = Ret tracks →
  let waiting := final (doAnswerUntilCapture withVideo h) in
  let r := onacceptCall opp waiting in
  let answered := doAnswerFromCapture env (final r) in
  callStatus waiting = accepted ∧
  localStream waiting = None ∧
  outcome r = Ret tt ∧
  trace r =
    [Notify (connectToRemote
               (Subscription.getPeerConnectionId (keyPart (connectionId h)) opp)
               None)] ∧
  acceptedPeers (final r) = acceptedPeers h ∧
  outcome answered = Ret tt ∧
  localStream (final answered) = Some (length (streams h)) ∧
  notified (trace answered) =
    (λ e, connectToRemote
            (Subscription.getPeerConnectionId (keyPart (connectionId h)) e)
            (Some (length (streams h)))) <$> acceptedPeers h.
Proof.
  intros Hconn Hls Hc waiting r answered. subst waiting r answered.
  unfold doAnswerUntilCapture, doAnswerFromCapture, onacceptCall, setCallStatus,
    attachLocalStream, setCallIconsState.
  run. rewrite Hc. simpl.
  destruct h as [rid cid ids ws ls ap st acc ss]; simpl in *. subst ls.
  rewrite Hconn. simpl.
  erewrite forEach_stable; [| intros; reflexivity]. simpl.
  rewrite concat_singletons.
  repeat split.
  by rewrite notified_app, notified_Notify, app_nil_r.
Qed.

Lemma onacceptCall_while_answering_witness :
  trace (onacceptCall "0004:dddd" (final (doAnswerUntilCapture false callee))) =
    [Notify (connectToRemote "conn:0004:dddd" None)] ∧
  notified
    (trace (doAnswerFromCapture devices
              (final (onacceptCall "0004:dddd"
                        (final (doAnswerUntilCapture false callee)))))) =
    [connectToRemote "conn:0001:aaaa" (Some 0);
     connectToRemote "conn:0003:cccc" (Some 0)].
Proof.
  pose proof (onacceptCall_while_answering callee devices false "0004:dddd"
                [microphone; camera] eq_refl eq_refl eq_refl)
    as (_ & _ & _ & Ht & _ & _ & _ & Hn).
  split; [exact Ht | exact Hn].
Defined.

(** *** A device change: [updateConnection] *)

Lemma filter_TrackStop_stops r (l : list nat) :
  filter isTrackStop (TrackStop r <$> l) = TrackStop r <$> l.
Proof.
  induction l as [|x l IH]; [done|].
  rewrite fmap_cons, filter_cons_True by done. by rewrite IH.
Qed.

Lemma filter_TrackStop_Notify {A} (g : A → SubMessage) (l : list A) :
  filter isTrackStop ((λ x, Notify (g x)) <$> l) = [].
Proof.
  induction l as [|x l IH]; [done|].
  by rewrite fmap_cons, filter_cons_False by (simpl; tauto).
Qed.

Lemma notified_TrackStop r (l : list nat) : notified (TrackStop r <$> l) = [].
Proof. induction l; simpl; done. Qed.

(** C2, as amended.  When the local stream is live and the capture
    succeeds, [updateConnection] stops every track of the stream being
    replaced, makes the captured stream the local one, and then sends every
    existing link one [streamChanged] whose [newStream] is the captured
    stream, in the order of the links; no track is stopped after the first
    notification. *)
Theorem updateConnection_stops_then_notifies
    (h : Handler) (env : Browser) (tracks oldTracks : MediaStream)
    (old : MediaStreamRef) :
  localStream h = Some old →
  streams h !! old = Some oldTracks →
  active oldTracks = true →
  captured env = Ret tracks →
  let r := updateConnection env h in
  let new := length (streams h) in
  outcome r = Ret tt ∧
  localStream (final r) = Some new ∧
  streams (final r) = <[old := stop <$> oldTracks]> (streams h ++ [tracks]) ∧
  ∃ before after,
    trace r = before ++ after ∧
    filter isTrackStop before = TrackStop old <$> seq 0 (length oldTracks) ∧
    notified before = [] ∧
    filter isTrackStop after = [] ∧
    Forall2
      (λ m pc, ∃ oldStream,
         m = streamChanged
               (Subscription.getPeerConnectionId (keyPart (connectionId h)) pc)
               new oldStream)
      (notified after) (webrtcConnnectionsIds h).
Proof.
  intros Hls Hold Hact Hc r new. subst r new.
  unfold updateConnection, captureInput, stopLocalStream, destroyAudioProcessor,
    destroyStreamData, attachLocalStream, setCallIconsState.
  run. unfold localStreamActive. rewrite Hls, Hold, Hact, Hc. simpl.
  destruct h as [rid cid ids ws ls ap st acc ss]; simpl in *. subst ls.
  assert (Hnot : ∀ (g : string → SubMessage) (pre : list Event),
            (∀ pc, ∃ oldStream,
               g pc = streamChanged
                        (Subscription.getPeerConnectionId (keyPart cid) pc)
                        (length ss) oldStream) →
            notified pre = [] →
            Forall2
              (λ m pc, ∃ oldStream,
                 m = streamChanged
                       (Subscription.getPeerConnectionId (keyPart cid) pc)
                       (length ss) oldStream)
              (notified (pre ++ ((λ x, Notify (g x)) <$> ids))) ids).
  { intros g pre Hg Hpre. rewrite notified_app, Hpre, notified_Notify. simpl.
    clear -Hg. induction ids as [|x l IH]; simpl; constructor; [apply Hg | apply IH]. }
  destruct ap as [[]|]; simpl;
    rewrite (lookup_app_l_Some _ _ _ _ Hold); simpl;
    repeat (erewrite forEach_stable; [| intros; reflexivity]); simpl;
    rewrite !concat_singletons, ?app_nil_r;
    (split; [done|]); (split; [done|]); (split; [done|]).
  - exists (Log "updateConnection" :: Log "capturing input" :: MediaCapture ::
            Log "Removing local audioproc" ::
            (TrackStop old <$> seq 0 (length oldTracks))).
    eexists (_ :: _ :: _). split; [reflexivity|].
    split; [simpl; apply filter_TrackStop_stops|].
    split; [simpl; apply notified_TrackStop|].
    split; [simpl; apply filter_TrackStop_Notify|].
    apply (Hnot _ [_; _]); [intros pc; by eexists | done].
  - exists (Log "updateConnection" :: Log "capturing input" :: MediaCapture ::
            (TrackStop old <$> seq 0 (length oldTracks))).
    eexists (_ :: _ :: _). split; [reflexivity|].
    split; [simpl; apply filter_TrackStop_stops|].
    split; [simpl; apply notified_TrackStop|].
    split; [simpl; apply filter_TrackStop_Notify|].
    apply (Hnot _ [_; _]); [intros pc; by eexists | done].
  - exists (Log "updateConnection" :: Log "capturing input" :: MediaCapture ::
            (TrackStop old <$> seq 0 (length oldTracks))).
    eexists (_ :: _ :: _). split; [reflexivity|].
    split; [simpl; apply filter_TrackStop_stops|].
    split; [simpl; apply notified_TrackStop|].
    split; [simpl; apply filter_TrackStop_Notify|].
    apply (Hnot _ [_; _]); [intros pc; by eexists | done].
Qed.

Lemma updateConnection_stops_then_notifies_witness :
  localStream (final (updateConnection devices inCall)) = Some 1 ∧
  streams (final (updateConnection devices inCall)) =
    [[stop microphone]; [microphone; camera]].
Proof.
  pose proof (updateConnection_stops_then_notifies inCall devices
                [microphone; camera] [microphone] 0
                eq_refl eq_refl eq_refl eq_refl) as (_ & Hl & Hs & _).
  split; [exact Hl | exact Hs].
Defined.

(** C2 as the claim words it fails: with two links connected, the only
    track of the replaced stream [0] is stopped before either link is
    notified, and both notifications name the captured stream [1] as
    [oldStream] too. *)
Lemma updateConnection_notifies_before_stop_counterexample :
  localStream inCall = Some 0 ∧
  notified (trace (updateConnection devices inCall)) =
    [streamChanged "conn:0002:bbbb" 1 (Some 1);
     streamChanged "conn:0003:cccc" 1 (Some 1)] ∧
  ¬ notifiedBeforeStopped 0 (trace (updateConnection devices inCall)).
Proof.
  split; [reflexivity|]. split; [reflexivity|].
  intros H.
  specialize (H 7 4 (streamChanged "conn:0002:bbbb" 1 (Some 1)) 0 eq_refl eq_refl).
  lia.
Qed.

End CallHandlerProofs.

(** ** Peer links *)
Module PeerConnectionProofs.
Import Js Eff Messages AbstractPeerConnection EffFacts Scenarios.Links.

(** *** Closing: [closePeerConnection] and [onDestroy] *)

Lemma closePeerConnection_run s :
  outcome (closePeerConnection s) = Ret tt ∧
  final (closePeerConnection s) =
    (if isOpen s
     then set_sendChannel (dc_abort <$> sendChannel s)
            (set_pc (pc_close <$> pc s) (set_connectionStatus status_closed s))
     else set_connectionStatus status_closed s) ∧
  pcCloses (trace (closePeerConnection s)) = (if isOpen s then 1 else 0) ∧
  notified (trace (closePeerConnection s)) = [].
Proof.
  unfold closePeerConnection, setConnectionStatus, isOpen. run.
  destruct s as [rid cid opp oc q [[sg ice]|] st ch ctr]; simpl; [|done].
  destruct (decide (sg = sig_closed)) as [->|Hne]; simpl.
  - repeat split; reflexivity.
  - rewrite bool_decide_true by done. repeat split; reflexivity.
Qed.

Lemma onDestroy_run reason s :
  onDestroy reason s =
    (Ret tt, s,
     [Log "Destroying {}, because {}";
      Notify (removePeerConnection (Subscription.getTransferId (connectionId s))
                (opponentWsId s));
      Unsubscribe (Subscription.getPeerConnectionId (connectionId s) (opponentWsId s))]).
Proof. reflexivity. Qed.

(** C3, as amended.  [closePeerConnection] is idempotent: it never throws,
    a second call leaves the link exactly as the first one did, with status
    [closed] and a native connection, if there is one, that is closed; the
    native [close()] is called once by the first call when a native
    connection exists that is not closed yet (not at all otherwise) and
    never by the second, and it closes the data channel of the connection
    with it; without such a call the channel is as it was.
    [closePeerConnection] notifies nobody.  [onDestroy] sends one
    [removePeerConnection] to the owning session each time it is called. *)
Theorem closePeerConnection_idempotent (s : PeerConn) :
  let r1 := closePeerConnection s in
  let r2 := closePeerConnection (final r1) in
  outcome r1 = Ret tt ∧ outcome r2 = Ret tt ∧
  final r2 = final r1 ∧
  connectionStatus (final r1) = status_closed ∧
  signalingState <$> pc (final r1) = (λ _, sig_closed) <$> pc s ∧
  readyState <$> sendChannel (final r1) =
    (if isOpen s then (λ _, dc_closed) <$> sendChannel s
     else readyState <$> sendChannel s) ∧
  pcCloses (trace r1) = (if isOpen s then 1 else 0) ∧
  pcCloses (trace r2) = 0 ∧
  notified (trace r1 ++ trace r2) = [] ∧
  (∀ reason1 reason2,
     let d1 := onDestroy reason1 s in
     let d2 := onDestroy reason2 (final d1) in
     notified (trace d1 ++ trace d2) =
       [removePeerConnection (Subscription.getTransferId (connectionId s))
          (opponentWsId s);
        removePeerConnection (Subscription.getTransferId (connectionId s))
          (opponentWsId s)]).
Proof.
  intros r1 r2. subst r1 r2.
  destruct (closePeerConnection_run s) as (Ho1 & Hf1 & Hc1 & Hn1).
  destruct (closePeerConnection_run (final (closePeerConnection s)))
    as (Ho2 & Hf2 & Hc2 & Hn2).
  assert (Hclosed : isOpen (final (closePeerConnection s)) = false).
  { rewrite Hf1. unfold isOpen.
    destruct s as [rid cid opp oc q [[sg ice]|] st ch ctr]; simpl; [|done].
    destruct (decide (sg = sig_closed)) as [->|Hne]; simpl; [done|].
    by rewrite bool_decide_true by done. }
  rewrite Hclosed in Hf2, Hc2.
  repeat split; try done.
  - rewrite Hf2, Hf1.
    destruct s as [rid cid opp oc q [[sg ice]|] st ch ctr]; simpl; [|done].
    unfold isOpen; simpl. by destruct (bool_decide (sg ≠ sig_closed)).
  - rewrite Hf1.
    destruct s as [rid cid opp oc q [[sg ice]|] st ch ctr]; simpl; [|done].
    unfold isOpen; simpl. by destruct (bool_decide (sg ≠ sig_closed)).
  - rewrite Hf1.
    destruct s as [rid cid opp oc q [[sg ice]|] st ch ctr]; simpl; [|done].
    unfold isOpen; simpl.
    destruct (decide (sg = sig_closed)) as [->|Hne]; simpl; [done|].
    by rewrite bool_decide_true by done.
  - rewrite Hf1.
    destruct s as [rid cid opp oc q [[sg ice]|] st [[rs]|] ctr]; simpl; try done;
      unfold isOpen; simpl; by destruct (bool_decide (sg ≠ sig_closed)).
  - unfold notified in *. by rewrite omap_app, Hn1, Hn2.
Qed.

(** C3 as the claim words it fails: [onDestroy] called twice sends
    [removePeerConnection] to the owning session twice. *)
Lemma close_twice_counterexample :
  ¬ length (notified (trace (onDestroy None openLink) ++
                      trace (onDestroy None (final (onDestroy None openLink))))) ≤ 1.
Proof. simpl. lia. Qed.

(** *** The pending queue: [onsendRtcData] *)

Lemma onsendRtcData_queues m s :
  connectedToRemote s = false →
  onsendRtcData m s =
    (Ret tt, set_sendRtcDataQueue (sendRtcDataQueue s ++ [m]) s,
     [Log "Connection is not accepted yet, pushing data to queue"]).
Proof. intros H. unfold onsendRtcData. run. by rewrite H. Qed.

Lemma forEach_onsendRtcData_queues ms s :
  connectedToRemote s = false →
  forEach ms onsendRtcData s =
    (Ret tt, set_sendRtcDataQueue (sendRtcDataQueue s ++ ms) s,
     (λ _, Log "Connection is not accepted yet, pushing data to queue") <$> ms).
Proof.
  revert s. induction ms as [|m ms IH]; intros s H; simpl.
  - rewrite app_nil_r. by destruct s.
  - unfold bind. rewrite (onsendRtcData_queues _ _ H).
    rewrite IH by (by destruct s). destruct s; simpl.
    by rewrite <- app_assoc.
Qed.

Lemma handled_app t1 t2 : handled (t1 ++ t2) = handled t1 ++ handled t2.
Proof. apply omap_app. Qed.

Lemma applied_app t1 t2 : applied (t1 ++ t2) = applied t1 ++ applied t2.
Proof. apply omap_app. Qed.

Lemma onsendRtcData_delivers m s p :
  connectedToRemote s = true → pc s = Some p → iceConnectionState p ≠ ice_closed →
  onsendRtcData m s = (Ret tt, s, Handling m :: deliver m).
Proof.
  intros Hc Hp Hice. unfold onsendRtcData, deliver. run.
  rewrite Hc. simpl. rewrite Hp. simpl.
  destruct (decide (iceConnectionState p = ice_closed)); [done|].
  destruct (truthy (sdp (content m))); [done|].
  destruct (truthy (candidate (content m))); [done|].
  by destruct (truthy (message (content m))).
Qed.

Lemma handled_deliveries (ms : list OnSendRtcDataMessage) :
  handled (concat ((λ m, Handling m :: deliver m) <$> ms)) = ms.
Proof.
  induction ms as [|m ms IH]; [done|].
  rewrite fmap_cons, concat_cons, handled_app, IH.
  unfold deliver. by repeat case_match.
Qed.

Lemma applied_deliveries (ms : list OnSendRtcDataMessage) :
  applied (concat ((λ m, Handling m :: deliver m) <$> ms)) =
  content <$> filter (λ m, deliverable m) ms.
Proof.
  induction ms as [|m ms IH]; [done|].
  rewrite fmap_cons, concat_cons, applied_app, IH.
  assert (Hd : applied (Handling m :: deliver m) =
               if deliverable m then [content m] else []).
  { unfold deliver, deliverable. by repeat case_match. }
  rewrite Hd. destruct (deliverable m) eqn:E.
  - by rewrite filter_cons_True by (by rewrite E).
  - by rewrite filter_cons_False by (by apply Is_true_false_2).
Qed.

Lemma handled_logs {A} (l : list A) msg : handled ((λ _, Log msg) <$> l) = [].
Proof. by induction l. Qed.

Lemma applied_logs {A} (l : list A) msg : applied ((λ _, Log msg) <$> l) = [].
Proof. by induction l. Qed.

(** C4.  Payloads handled while the link is not connected to the remote
    side are appended to the pending queue in the order they come and
    nothing is done with them; when the link then connects, the queue is
    empty afterwards and every payload that was in it has been taken up
    exactly once, in that order (those that carry a description or a
    candidate reach the native connection, in that order too); flushing
    again takes up nothing. *)
Theorem pending_queue_flushed_in_order
    (s : PeerConn) (ms : list OnSendRtcDataMessage) :
  connectedToRemote s = false →
  let r1 := forEach ms onsendRtcData s in
  let r2 := connectToRemote true (final r1) in
  let r3 := flushSendRtcDataQueue (final r2) in
  outcome r1 = Ret tt ∧
  sendRtcDataQueue (final r1) = sendRtcDataQueue s ++ ms ∧
  handled (trace r1) = [] ∧ applied (trace r1) = [] ∧
  outcome r2 = Ret tt ∧
  connectedToRemote (final r2) = true ∧
  handled (trace r2) = sendRtcDataQueue s ++ ms ∧
  applied (trace r2) =
    content <$> filter (λ m, deliverable m) (sendRtcDataQueue s ++ ms) ∧
  sendRtcDataQueue (final r2) = [] ∧
  outcome r3 = Ret tt ∧ handled (trace r3) = [].
Proof.
  intros Hc r1. subst r1. rewrite (forEach_onsendRtcData_queues _ _ Hc).
  unfold final, outcome, trace; simpl.
  rewrite handled_logs, applied_logs.
  unfold connectToRemote, createPeerConnection, flushSendRtcDataQueue. run.
  destruct s as [rid cid opp oc q p st ch ctr]; simpl in *.
  erewrite forEach_stable;
    [| intros m; by apply (onsendRtcData_delivers m _ (mkPc sig_stable ice_new))].
  simpl. rewrite handled_deliveries, applied_deliveries.
  repeat split; done.
Qed.

Lemma pending_queue_flushed_in_order_witness :
  sendRtcDataQueue (final (forEach [offer; ice; ice] onsendRtcData newLink))
    = [offer; ice; ice] ∧
  handled (trace (connectToRemote true
                    (final (forEach [offer; ice; ice] onsendRtcData newLink))))
    = [offer; ice; ice].
Proof.
  pose proof (pending_queue_flushed_in_order newLink [offer; ice; ice] eq_refl)
    as (_ & Hq & _ & _ & _ & _ & Hh & _).
  split; [exact Hq | exact Hh].
Defined.

End PeerConnectionProofs.

(** ** File links *)
Module FilePeerConnectionProofs.
Import Js Eff Messages AbstractPeerConnection FilePeerConnection EffFacts Scenarios.Links.

(** C8.  When the ICE connection state of a file link has become
    [disconnected], [oniceconnectionstatechange] runs [closeEvents] with
    the reason "Connection has been lost": first the data-channel-close
    handler is called with that reason, so that a transfer that was in
    progress ends in error; then the status becomes [closed] and the
    native connection is closed unless its signaling state is [closed]
    already.  Closing the native connection closes the send channel with
    it, so that [closeEvents] then finds no channel to close; when the
    native connection was closed already, [closeEvents] closes the send
    channel itself unless there is none or its ready state is [closed]
    already. *)
Theorem ice_disconnect_closes_file_link (s : FileLink) (p : RTCPeerConnection) :
  pc (link s) = Some p →
  iceConnectionState p = ice_disconnected →
  let r := oniceconnectionstatechange s in
  let wasOpen := bool_decide (signalingState p ≠ sig_closed) in
  outcome r = Ret tt ∧
  trace r =
    OnDataChannelClose "Connection has been lost" ::
    Base (LogError "Closing event from {}") ::
    Base (Log "Setting connection status to {}") ::
    (if wasOpen
     then [Base (Log "Closing peer connection"); Base PcClose]
     else [Base (Log "No peer connection to close")]) ++
    match sendChannel (link s) with
    | Some c =>
        if wasOpen || bool_decide (readyState c = dc_closed)
        then [Base (Log "No channels to close")]
        else [Base (Log "Closing chanel"); Base ChannelClose]
    | None => [Base (Log "No channels to close")]
    end ∧
  (transfer s = Model.IN_PROGRESS → transfer (final r) = Model.ERROR) ∧
  connectionStatus (link (final r)) = status_closed ∧
  signalingState <$> pc (link (final r)) = Some sig_closed ∧
  iceConnectionState <$> pc (link (final r)) =
    Some (if wasOpen then ice_closed else ice_disconnected) ∧
  readyState <$> sendChannel (link (final r)) =
    (λ c, if wasOpen || bool_decide (readyState c = dc_closed)
          then dc_closed else dc_closing) <$> sendChannel (link s).
Proof.
  intros Hp Hice r wasOpen. subst r wasOpen.
  unfold oniceconnectionstatechange, closeEvents, ondatachannelclose, super,
    closePeerConnection, setConnectionStatus.
  run. rewrite Hp. simpl.
  destruct (decide (iceConnectionState p = ice_disconnected)); [|done]. simpl.
  destruct s as [[rid cid opp oc q pc0 st ch ctr] tr]; simpl in *. subst pc0.
  destruct p as [sg ice]; simpl in *. subst ice.
  destruct (decide (sg = sig_closed)) as [->|Hsig]; simpl.
  - destruct ch as [[rs]|]; simpl;
      [destruct (decide (rs = dc_closed)) as [->|Hrs]; simpl|];
      repeat split; try done; try (by intros ->).
    + by rewrite bool_decide_false.
    + rewrite bool_decide_false by done. by destruct rs.
  - rewrite bool_decide_true by done.
    destruct ch as [[rs]|]; simpl; repeat split; try done; by intros ->.
Qed.

Lemma ice_disconnect_closes_file_link_witness :
  transfer (final (oniceconnectionstatechange transferring)) = Model.ERROR ∧
  connectionStatus (link (final (oniceconnectionstatechange transferring)))
    = status_closed ∧
  signalingState <$> pc (link (final (oniceconnectionstatechange transferring)))
    = Some sig_closed ∧
  readyState <$> sendChannel (link (final (oniceconnectionstatechange transferring)))
    = Some dc_closed.
Proof.
  pose proof (ice_disconnect_closes_file_link transferring
                {| signalingState := sig_stable;
                   iceConnectionState := ice_disconnected |} eq_refl eq_refl)
    as (_ & _ & Ht & Hs & Hsg & _ & Hch).
  split_and!; [apply Ht; reflexivity | exact Hs | exact Hsg | exact Hch].
Defined.

End FilePeerConnectionProofs.

(** ** The store: camera video and screen sharing exclude each other *)
Module StoreProofs.
Import Js Eff Messages Model DefaultStore EffFacts.

Lemma keeps_ret {A} (a : A) : keepsFlags (ret a).
Proof. intros s id r' H. eauto. Qed.

Lemma keeps_throw {A} e : keepsFlags (throw (A := A) e).
Proof. intros s id r' H. eauto. Qed.

Lemma keeps_emit c : keepsFlags (emit c).
Proof. intros s id r' H. eauto. Qed.

Lemma keeps_gets {A} (f : State → A) : keepsFlags (gets f).
Proof. intros s id r' H. eauto. Qed.

Lemma keeps_modify f :
  (∀ s, roomsDict (f s) = roomsDict s) → keepsFlags (modify f).
Proof. intros Hf s id r' H. unfold final, modify in H. simpl in H. rewrite Hf in H. eauto. Qed.

Lemma keeps_bind {A B} (m : Store A) (k : A → Store B) :
  keepsFlags m → (∀ a, keepsFlags (k a)) → keepsFlags (bind m k).
Proof.
  intros Hm Hk s id r' H. unfold bind, final in H.
  specialize (Hm s id). unfold final in Hm.
  destruct (m s) as [[[a|e] s1] t1]; simpl in *; [|by apply Hm].
  specialize (Hk a s1 id). unfold final in Hk.
  destruct (k a s1) as [[r2 s2] t2]; simpl in *.
  destruct (Hk _ H) as (r1 & H1 & Hfl1).
  destruct (Hm _ H1) as (r0 & H0 & Hfl0).
  exists r0. split; [done | congruence].
Qed.

Lemma keeps_tryCatch {A} (m : Store A) (h : Exn → Store A) :
  keepsFlags m → (∀ e, keepsFlags (h e)) → keepsFlags (tryCatch m h).
Proof.
  intros Hm Hh s id r' H. unfold tryCatch, final in H.
  specialize (Hm s id). unfold final in Hm.
  destruct (m s) as [[[a|e] s1] t1]; simpl in *; [by apply Hm|].
  specialize (Hh e s1 id). unfold final in Hh.
  destruct (h e s1) as [[r2 s2] t2]; simpl in *.
  destruct (Hh _ H) as (r1 & H1 & Hfl1).
  destruct (Hm _ H1) as (r0 & H0 & Hfl0).
  exists r0. split; [done | congruence].
Qed.

Lemma keeps_forEach {A} (l : list A) (f : A → Store unit) :
  (∀ x, keepsFlags (f x)) → keepsFlags (forEach l f).
Proof.
  intros Hf. induction l as [|x l IH]; simpl.
  - apply keeps_ret.
  - apply keeps_bind; [apply Hf | intros _; apply IH].
Qed.

Lemma keeps_withRoom id (f : RoomModel → Outcome RoomModel) :
  (∀ r r', f r = Ret r' → flags r' = flags r) → keepsFlags (withRoom id f).
Proof.
  intros Hf s i r' H. unfold withRoom, getRoom in H. revert H. run.
  destruct (roomsDict s !! id) as [r|] eqn:E; simpl; [|eauto].
  destruct (f r) as [r1|e] eqn:Ef; simpl; [|eauto].
  destruct s; simpl in *.
  destruct (decide (id = i)) as [->|Hne].
  - rewrite lookup_insert_eq. intros [= <-]. exists r. split; [done|]. by apply Hf.
  - rewrite lookup_insert_ne by done. eauto.
Qed.

(** A wholesale replacement of [roomsDict] that keeps, drops or re-dresses
    rooms without touching their flags. *)
Lemma keeps_modify_rooms (g : gmap Z RoomModel → State → gmap Z RoomModel) :
  (∀ s id r', g (roomsDict s) s !! id = Some r' →
              ∃ r, roomsDict s !! id = Some r ∧ flags r' = flags r) →
  keepsFlags (modify (λ s, set_roomsDict (g (roomsDict s) s) s)).
Proof.
  intros Hg s id r' H. unfold final, modify in H. simpl in H.
  apply Hg. by destruct s.
Qed.

Ltac same_flags :=
  let r := fresh "r" in let r' := fresh "r'" in let H := fresh "H" in
  intros r r' H; repeat (case_match; simplify_eq); simplify_eq;
  destruct r as [? ? ? ? ? [] ? ? ? ? ? ? ?]; reflexivity.

Ltac keeps_step :=
  lazymatch goal with
  | |- keepsFlags (withRoom _ _) => apply keeps_withRoom; same_flags
  | |- keepsFlags (bind _ _) => apply keeps_bind; [|intros ?]
  | |- keepsFlags (tryCatch _ _) => apply keeps_tryCatch; [|intros ?]
  | |- keepsFlags (forEach _ _) => apply keeps_forEach; intros ?
  | |- keepsFlags (ret _) => apply keeps_ret
  | |- keepsFlags (throw _) => apply keeps_throw
  | |- keepsFlags (emit _) => apply keeps_emit
  | |- keepsFlags (gets _) => apply keeps_gets
  | |- keepsFlags (modify _) => apply keeps_modify; intros []; reflexivity
  | |- keepsFlags (match _ with _ => _ end) => case_match
  end.

Ltac unfold_store :=
  unfold withSendingTransfer;
  unfold withCallInfo, withCall, withMessage, withSendingFile,
    withReceivingFile, Validate, callStorage, mediaLinkIdGetter;
  unfold mbind, mret, M_bind, M_ret.

Ltac keeps := unfold_store; repeat keeps_step.

Lemma keeps_clearMessages : keepsFlags clearMessages.
Proof.
  unfold clearMessages. unfold_store.
  apply keeps_bind; [|intros ?; keeps].
  apply (keeps_modify_rooms (λ rooms _, set_messages ∅ <$> rooms)).
  intros s id r'. rewrite lookup_fmap.
  destruct (roomsDict s !! id) as [r|]; simpl; [|done].
  intros [= <-]. exists r. split; [done|].
  by destruct r as [? ? ? ? ? [] ? ? ? ? ? ? ?].
Qed.

Lemma keeps_deleteRoom roomId : keepsFlags (deleteRoom roomId).
Proof.
  unfold deleteRoom. unfold_store.
  apply keeps_bind; [|intros ?; keeps].
  apply (keeps_modify_rooms (λ rooms _, delete roomId rooms)).
  intros s id r' H. apply lookup_delete_Some in H as [_ H]. eauto.
Qed.

Lemma keeps_alter (f : State → RoomModel → RoomModel) (k : State → Z) :
  (∀ s r, flags (f s r) = flags r) →
  keepsFlags (modify (λ s, set_roomsDict (alter (f s) (k s) (roomsDict s)) s)).
Proof.
  intros Hf.
  apply (keeps_modify_rooms (λ rooms s, alter (f s) (k s) rooms)).
  intros s id r'. destruct (decide (k s = id)) as [<-|Hne].
  - rewrite lookup_alter_eq.
    destruct (roomsDict s !! k s) as [r|] eqn:E; intros H;
      rewrite ?E in H; simplify_eq/=.
    exists r. split; [done | apply Hf].
  - rewrite lookup_alter_ne by done. eauto.
Qed.

Lemma keeps_setActiveRoomId id : keepsFlags (setActiveRoomId id).
Proof.
  unfold setActiveRoomId. unfold_store.
  apply keeps_bind; [keeps|intros ?].
  apply keeps_bind; [|intros ?; keeps].
  apply (keeps_alter (λ _, set_newMessagesCount 0%Z) (λ _, id)).
  by intros _ [? ? ? ? ? [] ? ? ? ? ? ? ?].
Qed.

Lemma keeps_addUser all u : keepsFlags (addUser all u).
Proof.
  unfold addUser. unfold_store.
  apply keeps_bind; [keeps|intros ?].
  apply keeps_bind; [|intros ?; keeps].
  apply (keeps_alter
           (λ _ r, if decide (user_id u ∈ users r) then r
                   else set_users (users r ++ [user_id u]) r) (λ _, all)).
  intros _ r. case_match; [done|].
  by destruct r as [? ? ? ? ? [] ? ? ? ? ? ? ?].
Qed.

Lemma keeps_logout : keepsFlags logout.
Proof.
  unfold logout. unfold_store.
  do 3 (apply keeps_bind; [keeps|intros ?]).
  apply keeps_bind; [|intros ?; keeps].
  intros s id r' H. unfold final, modify in H. simpl in H.
  destruct s; simpl in H. by rewrite lookup_empty in H.
Qed.

Ltac head_of t :=
  lazymatch t with
  | ?f _ => head_of f
  | _ => constr:(t)
  end.

(** The mutations that neither assign the flags nor bring rooms in. *)
Ltac keeps_mutation :=
  lazymatch goal with
  | |- keepsFlags ?c =>
      first
        [ apply keeps_clearMessages | apply keeps_deleteRoom
        | apply keeps_setActiveRoomId | apply keeps_addUser | apply keeps_logout
        | let h := head_of c in unfold h; keeps ]
  end.

Lemma setVideoToState_flags id0 state s id r' :
  roomsDict (final (setVideoToState id0 state s)) !! id = Some r' →
  ∃ r, roomsDict s !! id = Some r ∧
       flags r' = if decide (id0 = id) then (state, false) else flags r.
Proof.
  unfold setVideoToState, withCallInfo, withRoom, getRoom. run.
  destruct (roomsDict s !! id0) as [r|] eqn:E; simpl.
  - destruct s; simpl in *. destruct (decide (id0 = id)) as [->|Hne].
    + rewrite lookup_insert_eq. intros [= <-]. exists r. split; [done|].
      by destruct r as [? ? ? ? ? [] ? ? ? ? ? ? ?].
    + rewrite lookup_insert_ne by done. eauto.
  - intros H. destruct (decide (id0 = id)) as [->|Hne]; [congruence | eauto].
Qed.

Lemma setShareScreenToState_flags id0 state s id r' :
  roomsDict (final (setShareScreenToState id0 state s)) !! id = Some r' →
  ∃ r, roomsDict s !! id = Some r ∧
       flags r' = if decide (id0 = id) then (false, state) else flags r.
Proof.
  unfold setShareScreenToState, withCallInfo, withRoom, getRoom. run.
  destruct (roomsDict s !! id0) as [r|] eqn:E; simpl.
  - destruct s; simpl in *. destruct (decide (id0 = id)) as [->|Hne].
    + rewrite lookup_insert_eq. intros [= <-]. exists r. split; [done|].
      by destruct r as [? ? ? ? ? [] ? ? ? ? ? ? ?].
    + rewrite lookup_insert_ne by done. eauto.
  - intros H. destruct (decide (id0 = id)) as [->|Hne]; [congruence | eauto].
Qed.

Lemma addRoom_rooms room s :
  roomsDict (final (addRoom room s)) = <[room_id room := room]> (roomsDict s).
Proof. unfold addRoom, callStorage. run. destruct s as [[] ?]; reflexivity. Qed.

Lemma setRooms_rooms rooms s : roomsDict (final (setRooms rooms s)) = rooms.
Proof. unfold setRooms, callStorage. run. destruct s as [[] ?]; reflexivity. Qed.

Lemma init_rooms rooms profile settings allUsers s :
  roomsDict (final (init rooms profile settings allUsers s)) = rooms.
Proof. unfold init. run. by destruct s. Qed.

(** Every room found after a commit either came in with the payload or was
    there before, with the flags the mutation makes of its old ones. *)
Lemma commit_flags all m s id r' :
  roomsDict (final (commit all m s)) !! id = Some r' →
  installs m r' ∨
  ∃ r, roomsDict s !! id = Some r ∧ flags r' = flagsAfter m id (flags r).
Proof.
  intros H.
  destruct m; cbn [commit flagsAfter installs] in *;
    try (right;
         lazymatch type of H with
         | roomsDict (final (?c s)) !! id = Some r' =>
             let K := fresh "K" in
             assert (keepsFlags c) as K by keeps_mutation;
             exact (K s id r' H)
         end).
  - right. by apply setVideoToState_flags.
  - right. by apply setShareScreenToState_flags.
  - rewrite setRooms_rooms in H. left. eauto.
  - rewrite init_rooms in H. left. eauto.
  - rewrite addRoom_rooms in H.
    destruct (decide (room_id room = id)) as [<-|Hne].
    + rewrite lookup_insert_eq in H. left. congruence.
    + rewrite lookup_insert_ne in H by done. right. eauto.
Qed.

Lemma flagsAfter_exclusive m id fl : exclusive fl → exclusive (flagsAfter m id fl).
Proof.
  intros Hfl. destruct m; simpl; try done;
    case_decide; try done; unfold exclusive; simpl; intros []; congruence.
Qed.

Lemma commit_exclusive all m s :
  storeExclusive s →
  (∀ r, installs m r → exclusive (flags r)) →
  storeExclusive (final (commit all m s)).
Proof.
  intros Hs Hm id r' H.
  apply commit_flags in H as [H | (r & Hr & ->)]; [by apply Hm|].
  apply flagsAfter_exclusive. by apply (Hs id).
Qed.

(** C10.  A room built by [getRoomsBaseDict] starts with [showVideo] on and
    [shareScreen] off.  After any commit, a room in [roomsDict] is either a
    room object that the mutation brought in with its payload ([addRoom],
    [setRooms], [init]) or a room that was there before, whose two flags
    are what they were, except that [setVideoToState] has set them to
    [(state, false)] and [setShareScreenToState] to [(false, state)] for
    the room they name.  Hence, from the empty store on and as long as the
    rooms brought in do not have both flags on (those built by
    [getRoomsBaseDict] do not), no room ever has [showVideo] and
    [shareScreen] both on, whatever is committed and whether or not a
    commit throws. *)
Theorem video_and_screen_share_exclusive (ALL_ROOM_ID : number) :
  (∀ roomId volume notifications name users oldRoom,
     flags (Converters.getRoomsBaseDict roomId volume notifications name users oldRoom)
       = (true, false)) ∧
  (∀ m s id r',
     roomsDict (final (commit ALL_ROOM_ID m s)) !! id = Some r' →
     installs m r' ∨
     ∃ r, roomsDict s !! id = Some r ∧ flags r' = flagsAfter m id (flags r)) ∧
  (∀ id state fl,
     exclusive (flagsAfter (SetVideoToState id state) id fl) ∧
     exclusive (flagsAfter (SetShareScreenToState id state) id fl)) ∧
  storeExclusive initial ∧
  (∀ ms s,
     storeExclusive s →
     Forall (λ m, ∀ r, installs m r → exclusive (flags r)) ms →
     storeExclusive (run ALL_ROOM_ID ms s)).
Proof.
  split; [done|]. split; [apply commit_flags|]. split.
  { intros id state fl. simpl. rewrite !decide_True by done.
    unfold exclusive; simpl. split; intros []; congruence. }
  split; [intros id r H; simpl in H; by rewrite lookup_empty in H|].
  intros ms. induction ms as [|m ms IH]; intros s Hs Hms; simpl; [done|].
  apply Forall_cons in Hms as [Hm Hms].
  apply IH; [|done]. by apply commit_exclusive.
Qed.

Lemma video_and_screen_share_exclusive_witness :
  storeExclusive (run 1%Z Scenarios.Rooms.screenThenCamera initial) ∧
  flags <$> roomsDict (run 1%Z Scenarios.Rooms.screenThenCamera initial) !! 1%Z
    = Some (true, false).
Proof.
  pose proof (video_and_screen_share_exclusive 1%Z) as (Hbase & _ & _ & Hinit & Hrun).
  split; [|reflexivity].
  apply Hrun; [exact Hinit|].
  repeat constructor; simpl; try tauto.
  intros r ->. rewrite Hbase. unfold exclusive. simpl. intros []. discriminate.
Defined.

End StoreProofs.

(** ** The bandwidth line, applied again *)
Module SdpMoreProofs.
Import Js Sdp SdpProofs.

(** A piece of a split has no line feed in it: it splits into itself. *)
Lemma split_single_cons c l :
  Ascii.eqb c LF = false → split LF l = [l] → split LF (String c l) = [String c l].
Proof. intros Hc Hl. simpl. by rewrite Hc, Hl. Qed.

Lemma split_pieces s : Forall (λ l, split LF l = [l]) (split LF s).
Proof.
  induction s as [|c s IH]; simpl; [by repeat constructor|].
  destruct (Ascii.eqb c LF) eqn:E; [by constructor|].
  pose proof (split_nonempty LF s). destruct (split LF s) as [|l ls]; [done|].
  apply Forall_cons in IH as [Hl Hls].
  constructor; [by apply split_single_cons | done].
Qed.

Lemma split_single_inv c l :
  split LF (String c l) = [String c l] → Ascii.eqb c LF = false ∧ split LF l = [l].
Proof.
  simpl. destruct (Ascii.eqb c LF); [done|].
  pose proof (split_nonempty LF l). destruct (split LF l) as [|x xs]; [done|].
  by intros [= -> ->].
Qed.

Lemma split_glue a b :
  split LF a = [a] → split LF (a +:+ String LF b) = a :: split LF b.
Proof.
  induction a as [|c a IH]; intros Ha; simpl; [done|].
  apply split_single_inv in Ha as [Hc Ha]. by rewrite Hc, (IH Ha).
Qed.

(** Joining lines that have no line feed in them and splitting again gives
    the lines back. *)
Lemma split_join lines :
  lines ≠ [] → Forall (λ l, split LF l = [l]) lines →
  split LF (join nl lines) = lines.
Proof.
  intros Hne H. induction H as [|l ls Hl Hls IH]; [done|].
  destruct ls as [|l' ls']; [done|].
  change (join nl (l :: l' :: ls')) with (l +:+ String LF (join nl (l' :: ls'))).
  rewrite (split_glue _ _ Hl). f_equal. by apply IH.
Qed.

Lemma digits_single d : split LF (NilEmpty.string_of_uint d) = [NilEmpty.string_of_uint d].
Proof. induction d; simpl; [done|by rewrite IHd..]. Qed.

Lemma bLine_single bitrate : split LF (bLine bitrate) = [bLine bitrate].
Proof.
  unfold bLine, toString, NilZero.string_of_uint.
  destruct (N.to_uint bitrate) eqn:E; simpl; try done;
    by rewrite digits_single.
Qed.

Lemma bLine_starts_with_b bitrate :
  indexOf_is_0 (bLine bitrate) "b" = true ∧ isIC (bLine bitrate) = false.
Proof. done. Qed.

Lemma findMLine_decompose lines i k :
  findMLine lines i = Some k →
  ∃ pre m rest,
    lines = pre ++ m :: rest ∧
    Forall (λ l, indexOf_is_0 l "m=" = false) pre ∧
    indexOf_is_0 m "m=" = true ∧ k = S (i + length pre).
Proof.
  revert i. induction lines as [|l ls IH]; intros i; simpl; [done|].
  destruct (indexOf_is_0 l "m=") eqn:E.
  - intros [= <-]. exists [], l, ls. repeat split; [constructor | done | f_equal; simpl; lia].
  - intros H. destruct (IH _ H) as (pre & m & rest & -> & Hpre & Hm & ->).
    exists (l :: pre), m, rest. repeat split; [by constructor | done | simpl; f_equal; lia].
Qed.

Lemma findMLine_None lines i :
  findMLine lines i = None → Forall (λ l, indexOf_is_0 l "m=" = false) lines.
Proof.
  revert i. induction lines as [|l ls IH]; intros i; simpl; [constructor|].
  destruct (indexOf_is_0 l "m=") eqn:E; [done|]. intros H. constructor; eauto.
Qed.

Lemma skipIC_decompose rest n line :
  skipIC rest n = Some line →
  ∃ skip l post,
    rest = skip ++ l :: post ∧ Forall (λ x, isIC x = true) skip ∧ isIC l = false.
Proof.
  revert n. induction rest as [|x xs IH]; intros n; simpl; [done|].
  destruct (isIC x) eqn:E.
  - intros H. destruct (IH _ H) as (skip & l & post & -> & Hs & Hl).
    exists (x :: skip), l, post. repeat split; [by constructor | done].
  - intros _. exists [], x, xs. repeat split; [constructor | done].
Qed.

(** Whenever [setMediaBitrate] returns, either no line starts with [m=] and
    the SDP comes back as it is, or the lines fall into the five parts of
    the bandwidth-line theorem. *)
Lemma setMediaBitrate_Ret sdp bitrate out :
  setMediaBitrate sdp bitrate = Ret out →
  (Forall (λ l, indexOf_is_0 l "m=" = false) (split LF sdp) ∧ out = sdp) ∨
  ∃ pre m skip l post,
    split LF sdp = pre ++ m :: skip ++ l :: post ∧
    Forall (λ x, indexOf_is_0 x "m=" = false) pre ∧
    indexOf_is_0 m "m=" = true ∧
    Forall (λ x, isIC x = true) skip ∧
    isIC l = false.
Proof.
  intros H. unfold setMediaBitrate in H.
  destruct (findMLine (split LF sdp) 0) as [line0|] eqn:Hm.
  - right. apply findMLine_decompose in Hm as (pre & m & rest & Hsplit & Hpre & Hmm & ->).
    rewrite Hsplit in H. simpl in H.
    replace (pre ++ m :: rest) with ((pre ++ [m]) ++ rest) in H
      by (by rewrite <- app_assoc).
    replace (S (length pre)) with (length (pre ++ [m])) in H
      by (rewrite length_app; simpl; lia).
    rewrite drop_app_length in H.
    destruct (skipIC rest (length (pre ++ [m]))) as [line|] eqn:Hs; [|done].
    apply skipIC_decompose in Hs as (skip & l & post & -> & Hskip & Hl).
    exists pre, m, skip, l, post. by rewrite Hsplit.
  - left. injection H as <-. split; [by eapply findMLine_None | done].
Qed.

(** X1.  Applying [setMediaBitrate] to its own result does not stack
    bandwidth lines: the second bitrate replaces the first, and the result
    is what the second bitrate alone would have given on the original
    SDP. *)
Theorem setMediaBitrate_overrides (sdp : string) (b1 b2 : N) (out : string) :
  setMediaBitrate sdp b1 = Ret out →
  setMediaBitrate out b2 = setMediaBitrate sdp b2.
Proof.
  intros H.
  destruct (setMediaBitrate_Ret _ _ _ H)
    as [[_ ->] | (pre & m & skip & l & post & Hsplit & Hpre & Hm & Hskip & Hl)]; [done|].
  rewrite (setMediaBitrate_found pre m skip Hpre Hm Hskip sdp b1 l post Hsplit Hl) in H.
  injection H as <-.
  rewrite (setMediaBitrate_found pre m skip Hpre Hm Hskip sdp b2 l post Hsplit Hl).
  pose proof (split_pieces sdp) as Hp. rewrite Hsplit in Hp.
  apply Forall_app in Hp as [Hp1 Hp2]. apply Forall_cons in Hp2 as [Hpm Hp2].
  apply Forall_app in Hp2 as [Hp3 Hp4]. apply Forall_cons in Hp4 as [Hpl Hp5].
  set (tail := if indexOf_is_0 l "b" then post else l :: post).
  assert (Htail : Forall (λ x, split LF x = [x]) tail)
    by (subst tail; destruct (indexOf_is_0 l "b"); [done | by constructor]).
  rewrite (setMediaBitrate_found pre m skip Hpre Hm Hskip _ b2 (bLine b1) tail).
  - done.
  - apply split_join; [by destruct pre|].
    apply Forall_app. split; [done|]. constructor; [done|].
    apply Forall_app. split; [done|]. constructor; [apply bLine_single | done].
  - done.
Qed.

Lemma setMediaBitrate_overrides_witness :
  setMediaBitrate ("m=audio" +:+ nl +:+ "b=AS:64" +:+ nl +:+ "a=x" +:+ nl) 1638400
  = setMediaBitrate ("m=audio" +:+ nl +:+ "a=x" +:+ nl) 1638400.
Proof.
  apply (setMediaBitrate_overrides ("m=audio" +:+ nl +:+ "a=x" +:+ nl) 64 1638400).
  reflexivity.
Defined.

End SdpMoreProofs.

(** ** The store: rooms that are not there, media objects, messages *)
Module StoreMoreProofs.
Import Js Eff Messages Model DefaultStore StoreViews EffFacts StoreProofs.

Ltac unfold_mutation :=
  unfold setMessageProgress, setUploadProgress, setCallOpponent, setOpponentVoice,
    setOpponentAnchor, addSendingFile, toggleContainer, setContainerToState,
    setCurrentMicLevel, setCurrentMic, setCurrentSpeaker, setCurrentWebcam,
    setMicToState, setVideoToState, setShareScreenToState, setCallActiveToState,
    setLocalStreamSrc, addReceivingFile, addSendingFileTransfer,
    setReceivingFileStatus, setSendingFileStatus, setSendingFileUploaded,
    setReceivingFileUploaded, incNewMessagesCount, removeMessageProgress,
    setMessageProgressError, addMessage, deleteMessage, addMessages, setSearchTo,
    setAllLoaded, setRoomSettings, setRoomsUsers;
  unfold_store; unfold withRoom, getRoom.

(** X2.  A mutation that addresses a room which is not in [roomsDict]
    throws; it has left [roomsDict] as it was and has not called the
    storage. *)
Theorem commit_on_missing_room 
    (ALL_ROOM_ID : number) (m : Mutation) (s : State) (id : number) :
  roomOf m = Some id →
  roomsDict s !! id = None →
  (∃ e, outcome (commit ALL_ROOM_ID m s) = Throw e) ∧
  roomsDict (final (commit ALL_ROOM_ID m s)) = roomsDict s ∧
  trace (commit ALL_ROOM_ID m s) = [].
Proof.
  intros Hroom Hnone.
  destruct s as [st onl gr dm inc mic spk web ed ar au ui us img users reg on rooms media next];
    simpl in Hnone.
  destruct m; simpl in Hroom; try discriminate; injection Hroom as Hid; subst id;
    cbn [commit]; unfold_mutation; run; rewrite Hnone; simpl; eauto.
Qed.

Lemma commit_on_missing_room_witness :
  let s := run 1%Z Scenarios.Rooms.screenThenCamera initial in
  (∃ e, outcome (commit 1%Z (SetVideoToState 5%Z true) s) = Throw e) ∧
  roomsDict (final (commit 1%Z (SetVideoToState 5%Z true) s)) = roomsDict s ∧
  trace (commit 1%Z (SetVideoToState 5%Z true) s) = [].
Proof.
  apply (commit_on_missing_room 1%Z (SetVideoToState 5%Z true)
           (run 1%Z Scenarios.Rooms.screenThenCamera initial) 5%Z); reflexivity.
Defined.

(** *** Media objects *)

Lemma toString_inj (i j : N) : toString i = toString j → i = j.
Proof.
  unfold toString. intros H.
  assert (Hnn : ∀ n, N.to_uint n ≠ Decimal.Nil).
  { intros [|p]; [done|]. apply DecimalPos.Unsigned.to_uint_nonnil. }
  apply DecimalN.Unsigned.to_uint_inj.
  pose proof (NilZero.usu _ (Hnn i)) as Hi.
  pose proof (NilZero.usu _ (Hnn j)) as Hj.
  rewrite H in Hi. congruence.
Qed.

Lemma keepsMedia_ret {A} (a : A) : keepsMedia (ret a).
Proof. by intros s. Qed.

Lemma keepsMedia_throw {A} e : keepsMedia (throw (A := A) e).
Proof. by intros s. Qed.

Lemma keepsMedia_emit c : keepsMedia (emit c).
Proof. by intros s. Qed.

Lemma keepsMedia_gets {A} (f : State → A) : keepsMedia (gets f).
Proof. by intros s. Qed.

Lemma keepsMedia_modify f :
  (∀ s, mediaObjects (f s) = mediaObjects s ∧ mediaLinkId (f s) = mediaLinkId s) →
  keepsMedia (modify f).
Proof. intros Hf s. apply Hf. Qed.

Lemma keepsMedia_bind {A B} (m : Store A) (k : A → Store B) :
  keepsMedia m → (∀ a, keepsMedia (k a)) → keepsMedia (bind m k).
Proof.
  intros Hm Hk s. unfold bind, final.
  specialize (Hm s). unfold final in Hm.
  destruct (m s) as [[[a|e] s1] t1]; simpl in *; [|done].
  specialize (Hk a s1). unfold final in Hk.
  destruct (k a s1) as [[r2 s2] t2]; simpl in *.
  destruct Hm, Hk. split; congruence.
Qed.

Lemma keepsMedia_tryCatch {A} (m : Store A) (h : Exn → Store A) :
  keepsMedia m → (∀ e, keepsMedia (h e)) → keepsMedia (tryCatch m h).
Proof.
  intros Hm Hh s. unfold tryCatch, final.
  specialize (Hm s). unfold final in Hm.
  destruct (m s) as [[[a|e] s1] t1]; simpl in *; [done|].
  specialize (Hh e s1). unfold final in Hh.
  destruct (h e s1) as [[r2 s2] t2]; simpl in *.
  destruct Hm, Hh. split; congruence.
Qed.

Lemma keepsMedia_forEach {A} (l : list A) (f : A → Store unit) :
  (∀ x, keepsMedia (f x)) → keepsMedia (forEach l f).
Proof.
  intros Hf. induction l as [|x l IH]; simpl.
  - apply keepsMedia_ret.
  - apply keepsMedia_bind; [apply Hf | intros _; apply IH].
Qed.

Ltac keepsMedia_step :=
  lazymatch goal with
  | |- keepsMedia (bind _ _) => apply keepsMedia_bind; [|intros ?]
  | |- keepsMedia (tryCatch _ _) => apply keepsMedia_tryCatch; [|intros ?]
  | |- keepsMedia (forEach _ _) => apply keepsMedia_forEach; intros ?
  | |- keepsMedia (ret _) => apply keepsMedia_ret
  | |- keepsMedia (throw _) => apply keepsMedia_throw
  | |- keepsMedia (emit _) => apply keepsMedia_emit
  | |- keepsMedia (gets _) => apply keepsMedia_gets
  | |- keepsMedia (modify _) => apply keepsMedia_modify; intros []; split; reflexivity
  | |- keepsMedia (match _ with _ => _ end) => case_match
  end.

Ltac keepsMedia_mutation :=
  lazymatch goal with
  | |- keepsMedia ?c =>
      let h := head_of c in
      unfold h; unfold_store; unfold withRoom, getRoom;
      cbv [mbind mret M_bind M_ret];
      repeat keepsMedia_step
  end.

Lemma setLocalStreamSrc_media id media s :
  mediaObjects (final (setLocalStreamSrc id media s)) =
    <[toString (mediaLinkId s) := media]> (mediaObjects s) ∧
  mediaLinkId (final (setLocalStreamSrc id media s)) = (mediaLinkId s + 1)%N.
Proof.
  unfold setLocalStreamSrc. unfold_store. unfold withRoom, getRoom. run.
  destruct s as [st onl gr dm inc mic spk web ed ar au ui us img users reg on rooms mo next];
    simpl.
  by destruct (rooms !! id).
Qed.

Lemma setOpponentAnchor_media roomId opp anchor s :
  (mediaObjects (final (setOpponentAnchor roomId opp anchor s)) = mediaObjects s ∨
   mediaObjects (final (setOpponentAnchor roomId opp anchor s)) =
     <[toString (mediaLinkId s) := Some anchor]> (mediaObjects s)) ∧
  mediaLinkId (final (setOpponentAnchor roomId opp anchor s)) = (mediaLinkId s + 1)%N.
Proof.
  unfold setOpponentAnchor. unfold_store. unfold withRoom, getRoom. run.
  destruct s as [st onl gr dm inc mic spk web ed ar au ui us img users reg on rooms mo next];
    simpl.
  destruct (rooms !! roomId) as [r|]; simpl; [|by split; [left|]].
  destruct (calls (callInfo r) !! opp); simpl; split; auto.
Qed.

Lemma issued_key_fresh s :
  mediaKeysIssued s → mediaObjects s !! toString (mediaLinkId s) = None.
Proof.
  intros Hs. destruct (mediaObjects s !! toString (mediaLinkId s)) eqn:E; [|done].
  destruct (Hs (toString (mediaLinkId s))) as (i & Hlt & Heq); [by rewrite E|].
  apply toString_inj in Heq. lia.
Qed.

Lemma issued_insert s s' v :
  mediaKeysIssued s →
  mediaObjects s' = <[toString (mediaLinkId s) := v]> (mediaObjects s) →
  mediaLinkId s' = (mediaLinkId s + 1)%N →
  mediaKeysIssued s' ∧ mediaObjects s ⊆ mediaObjects s'.
Proof.
  intros Hs Hm Hn. split.
  - intros key. rewrite Hm, Hn.
    destruct (decide (toString (mediaLinkId s) = key)) as [<-|Hne].
    + intros _. exists (mediaLinkId s). split; [lia | done].
    + rewrite lookup_insert_ne by done. intros Hk.
      destruct (Hs _ Hk) as (i & Hlt & ->). exists i. split; [lia | done].
  - rewrite Hm. apply insert_subseteq. by apply issued_key_fresh.
Qed.

Lemma issued_more s s' :
  mediaKeysIssued s →
  mediaObjects s' = mediaObjects s →
  (mediaLinkId s ≤ mediaLinkId s')%N →
  mediaKeysIssued s' ∧ mediaObjects s ⊆ mediaObjects s'.
Proof.
  intros Hs Hm Hn. split; [|by rewrite Hm].
  intros key. rewrite Hm. intros Hk.
  destruct (Hs _ Hk) as (i & Hlt & ->). exists i. split; [lia | done].
Qed.

(** X3.  No commit drops or replaces an entry of [mediaObjects]: the keys
    come from a counter that only grows, so [setLocalStreamSrc] and
    [setOpponentAnchor] always write under a key that is not in use, and no
    other mutation, [logout] included, touches the map. *)
Theorem mediaObjects_only_grow (ALL_ROOM_ID : number) (m : Mutation) (s : State) :
  mediaKeysIssued s →
  mediaKeysIssued (final (commit ALL_ROOM_ID m s)) ∧
  mediaObjects s ⊆ mediaObjects (final (commit ALL_ROOM_ID m s)) ∧
  (mediaLinkId s ≤ mediaLinkId (final (commit ALL_ROOM_ID m s)))%N.
Proof.
  intros Hs.
  assert (Hkeep : keepsMedia (commit ALL_ROOM_ID m) →
            mediaKeysIssued (final (commit ALL_ROOM_ID m s)) ∧
            mediaObjects s ⊆ mediaObjects (final (commit ALL_ROOM_ID m s)) ∧
            (mediaLinkId s ≤ mediaLinkId (final (commit ALL_ROOM_ID m s)))%N).
  { intros K. destruct (K s) as [Hm Hn].
    destruct (issued_more s _ Hs Hm) as [? ?]; [lia|]. repeat split; [done..|lia]. }
  destruct m; cbn [commit] in *; try solve [apply Hkeep; keepsMedia_mutation].
  - lazymatch goal with
    | |- context [setOpponentAnchor ?r ?o ?a s] =>
        destruct (setOpponentAnchor_media r o a s) as [[Hm|Hm] Hn]
    end.
    + destruct (issued_more s _ Hs Hm) as [? ?]; [lia|]. repeat split; [done..|lia].
    + destruct (issued_insert s _ _ Hs Hm Hn) as [? ?]. repeat split; [done..|lia].
  - lazymatch goal with
    | |- context [setLocalStreamSrc ?r ?v s] =>
        destruct (setLocalStreamSrc_media r v s) as [Hm Hn]
    end.
    destruct (issued_insert s _ _ Hs Hm Hn) as [? ?]. repeat split; [done..|lia].
Qed.

Lemma mediaObjects_only_grow_witness :
  let s' := final (commit 1%Z (SetLocalStreamSrc 1%Z None) initial) in
  mediaKeysIssued s' ∧ mediaObjects initial ⊆ mediaObjects s' ∧
  (mediaLinkId initial ≤ mediaLinkId s')%N.
Proof.
  apply (mediaObjects_only_grow 1%Z (SetLocalStreamSrc 1%Z None) initial).
  intros key [x Hx]. simpl in Hx. by rewrite lookup_empty in Hx.
Defined.

(** *** Messages of a room *)

Lemma addMessage_run (m : MessageModel) (s : State) (r : RoomModel) :
  roomsDict s !! msg_roomId m = Some r →
  final (addMessage m s) =
    set_roomsDict (<[msg_roomId m := set_messages (<[msg_id m := m]> (messages r)) r]>
                     (roomsDict s)) s ∧
  trace (addMessage m s) = if storage s then [IStorage.saveMessage m] else [].
Proof.
  intros Hr. unfold addMessage. unfold_store. unfold withRoom, getRoom.
  destruct s as [st onl gr dm inc mic spk web ed ar au ui us img users reg on rooms mo next];
    simpl in *.
  run. rewrite Hr. simpl. by destruct st.
Qed.

Lemma deleteMessage_run (roomId messageId : number) (s : State) (r : RoomModel) :
  roomsDict s !! roomId = Some r →
  final (deleteMessage roomId messageId s) =
    set_roomsDict (<[roomId := set_messages (delete messageId (messages r)) r]>
                     (roomsDict s)) s ∧
  trace (deleteMessage roomId messageId s) =
    if storage s then [IStorage.deleteMessage messageId] else [].
Proof.
  intros Hr. unfold deleteMessage. unfold_store. unfold withRoom, getRoom.
  destruct s as [st onl gr dm inc mic spk web ed ar au ui us img users reg on rooms mo next];
    simpl in *.
  run. rewrite Hr. simpl. by destruct st.
Qed.

Lemma addMessages_run (roomId : number) (ms : list MessageModel) (s : State) (r : RoomModel) :
  roomsDict s !! roomId = Some r →
  final (addMessages roomId ms s) =
    set_roomsDict
      (<[roomId := set_messages (foldl (λ om m, <[msg_id m := m]> om) (messages r) ms) r]>
         (roomsDict s)) s.
Proof.
  intros Hr. unfold addMessages. unfold_store. unfold withRoom, getRoom.
  destruct s as [st onl gr dm inc mic spk web ed ar au ui us img users reg on rooms mo next];
    simpl in *.
  run. rewrite Hr. simpl. by destruct st.
Qed.

(** X4.  Deleting a message that was just added to a room where its id was
    free gives back the state as it was, whether or not a storage is
    attached; with a storage, it is told of the message and then of its
    removal. *)
Theorem addMessage_deleteMessage (m : MessageModel) (s : State) (r : RoomModel) :
  roomsDict s !! msg_roomId m = Some r →
  messages r !! msg_id m = None →
  final (deleteMessage (msg_roomId m) (msg_id m) (final (addMessage m s))) = s ∧
  (storage s = true →
   trace (addMessage m s) = [IStorage.saveMessage m] ∧
   trace (deleteMessage (msg_roomId m) (msg_id m) (final (addMessage m s))) =
     [IStorage.deleteMessage (msg_id m)]).
Proof.
  intros Hr Hm.
  destruct (addMessage_run m s r Hr) as [Hadd Htadd].
  destruct (deleteMessage_run (msg_roomId m) (msg_id m) (final (addMessage m s))
              (set_messages (<[msg_id m := m]> (messages r)) r)) as [Hdel Htdel].
  { rewrite Hadd. destruct s; simpl. apply lookup_insert_eq. }
  rewrite Hdel, Htdel, Htadd, Hadd. split.
  - destruct s as [st onl gr dm inc mic spk web ed ar au ui us img users reg on rooms mo next];
      simpl in *. f_equal.
    rewrite insert_insert_eq. apply insert_id. rewrite Hr. f_equal.
    destruct r; simpl in *. f_equal. symmetry. by apply delete_insert_id.
  - intros Hst. destruct s; simpl in *. by rewrite Hst.
Qed.

Lemma addMessage_deleteMessage_witness :
  let s := run 1%Z Scenarios.Rooms.screenThenCamera initial in
  let m := mkMessage 7%Z 0%Z None (Some "hi") None false None None 1%Z 3%Z None in
  final (deleteMessage 1%Z 7%Z (final (addMessage m s))) = s ∧
  (storage s = true →
   trace (addMessage m s) = [IStorage.saveMessage m] ∧
   trace (deleteMessage 1%Z 7%Z (final (addMessage m s))) = [IStorage.deleteMessage 7%Z]).
Proof.
  apply (addMessage_deleteMessage
           (mkMessage 7%Z 0%Z None (Some "hi") None false None None 1%Z 3%Z None)
           (run 1%Z Scenarios.Rooms.screenThenCamera initial)
           (Converters.getRoomsBaseDict 1%Z 100%Z true "all" [7%Z] None));
    reflexivity.
Defined.

(** X5.  Adding a batch of messages to an existing room leaves the rooms
    as adding them one by one does, provided each message names that room;
    the batch is filed under the room given with it, not under the rooms
    the messages name. *)
Theorem addMessages_as_addMessage (ALL_ROOM_ID : number) (roomId : number)
    (ms : list MessageModel) (s : State) :
  is_Some (roomsDict s !! roomId) →
  Forall (λ m, msg_roomId m = roomId) ms →
  roomsDict (final (addMessages roomId ms s)) =
  roomsDict (run ALL_ROOM_ID (AddMessage <$> ms) s).
Proof.
  intros [r Hr] Hall. revert s r Hr.
  induction Hall as [|m ms Hm Hall IH]; intros s r Hr.
  - rewrite (addMessages_run _ _ _ r Hr). destruct s; simpl in *.
    apply insert_id. rewrite Hr. by destruct r.
  - rewrite fmap_cons. cbn [run commit]. subst roomId.
    destruct (addMessage_run m s r Hr) as [Hadd _].
    rewrite <- (IH (final (addMessage m s))
                  (set_messages (<[msg_id m := m]> (messages r)) r))
      by (rewrite Hadd; destruct s; apply lookup_insert_eq).
    rewrite (addMessages_run _ _ _ r Hr).
    rewrite (addMessages_run _ _ (final (addMessage m s))
               (set_messages (<[msg_id m := m]> (messages r)) r))
      by (rewrite Hadd; destruct s; apply lookup_insert_eq).
    rewrite Hadd. destruct s, r; simpl. by rewrite insert_insert_eq.
Qed.

Lemma addMessages_as_addMessage_witness :
  let s := run 1%Z Scenarios.Rooms.screenThenCamera initial in
  let m1 := mkMessage 7%Z 0%Z None (Some "hi") None false None None 1%Z 3%Z None in
  let m2 := mkMessage 8%Z 0%Z None (Some "ho") None false None None 1%Z 3%Z None in
  roomsDict (final (addMessages 1%Z [m1; m2] s)) =
  roomsDict (run 1%Z (AddMessage <$> [m1; m2]) s).
Proof.
  apply (addMessages_as_addMessage 1%Z 1%Z
           [mkMessage 7%Z 0%Z None (Some "hi") None false None None 1%Z 3%Z None;
            mkMessage 8%Z 0%Z None (Some "ho") None false None None 1%Z 3%Z None]
           (run 1%Z Scenarios.Rooms.screenThenCamera initial)).
  - by eexists.
  - repeat constructor.
Defined.

(** *** Users of the room of everybody *)

(** X6.  [addUser] registers the user and never lists an id twice in the
    room of everybody: a list of users without duplicates stays so, the
    user is in it afterwards, the ones who were there stay in front, and the
    other rooms are left alone.  This holds even when no storage is
    attached and the mutation throws at its last line. *)
Theorem addUser_lists_user_once (ALL_ROOM_ID : number) (u : UserModel) (s : State)
    (r : RoomModel) :
  roomsDict s !! ALL_ROOM_ID = Some r →
  NoDup (users r) →
  let s' := final (addUser ALL_ROOM_ID u s) in
  allUsersDict s' !! user_id u = Some u ∧
  (∃ r', roomsDict s' !! ALL_ROOM_ID = Some r' ∧
         NoDup (users r') ∧ user_id u ∈ users r' ∧ users r `prefix_of` users r') ∧
  (∀ id, id ≠ ALL_ROOM_ID → roomsDict s' !! id = roomsDict s !! id).
Proof.
  intros Hr Hnd. unfold addUser. unfold_store.
  destruct s as [st onl gr dm inc mic spk web ed ar au ui us img users reg on rooms mo next];
    simpl in *.
  run.
  destruct st; simpl; (split; [apply lookup_insert_eq|]); split.
  1,3: rewrite lookup_alter_eq, Hr; simpl; eexists; split; [reflexivity|];
       destruct (decide (user_id u ∈ Model.users r)) as [Hin|Hout];
       [ by repeat split
       | destruct r; simpl in *; repeat split;
         [ apply NoDup_app; repeat split;
           [done | intros x Hx ->%list_elem_of_singleton; done | apply NoDup_singleton]
         | apply elem_of_app; right; by apply list_elem_of_singleton
         | by apply prefix_app_r ] ].
  all: intros id Hne; by rewrite lookup_alter_ne.
Qed.

Lemma addUser_lists_user_once_witness :
  let s := run 1%Z Scenarios.Rooms.screenThenCamera initial in
  let u := mkUser "eve" 9%Z Female (mkLocation None None None None) in
  let s' := final (addUser 1%Z u s) in
  allUsersDict s' !! 9%Z = Some u ∧
  (∃ r', roomsDict s' !! 1%Z = Some r' ∧
         NoDup (users r') ∧ 9%Z ∈ users r' ∧ [7%Z] `prefix_of` users r') ∧
  (∀ id, id ≠ 1%Z → roomsDict s' !! id = roomsDict s !! id).
Proof.
  apply (addUser_lists_user_once 1%Z
           (mkUser "eve" 9%Z Female (mkLocation None None None None))
           (run 1%Z Scenarios.Rooms.screenThenCamera initial)
           (Converters.getRoomsBaseDict 1%Z 100%Z true "all" [7%Z] None)).
  - reflexivity.
  - simpl. apply NoDup_singleton.
Defined.

(** *** The smallest and the largest message id of a room *)

Lemma stepMinId_leastPositive acc seen x :
  leastPositive acc seen → leastPositive (stepMinId acc x) (seen ++ [x]).
Proof.
  unfold stepMinId, leastPositive, falsy.
  destruct acc as [v|]; simpl.
  - intros (Hv & Hin & Hle).
    destruct (Z.ltb_spec 0 x), (Z.eqb_spec v 0), (Z.ltb_spec x v); simpl;
      try lia; (split; [lia|]);
      (split; [apply elem_of_app; first [by left | right; by apply list_elem_of_singleton]|]);
      intros y [Hy| ->%list_elem_of_singleton]%elem_of_app ?; try lia;
      specialize (Hle y Hy); lia.
  - intros Hall. destruct (Z.ltb_spec 0 x); simpl.
    + split; [done|]. split; [apply elem_of_app; right; by apply list_elem_of_singleton|].
      intros y [Hy| ->%list_elem_of_singleton]%elem_of_app ?; [|lia].
      specialize (Hall y Hy). lia.
    + intros y [Hy| ->%list_elem_of_singleton]%elem_of_app; [by apply Hall | lia].
Qed.

Lemma stepMaxId_greatest acc seen x :
  x ≠ 0%Z → greatest acc seen → greatest (stepMaxId acc x) (seen ++ [x]).
Proof.
  unfold stepMaxId, greatest, falsy. intros Hx.
  destruct acc as [v|]; simpl.
  - intros (Hv & Hin & Hle).
    destruct (Z.eqb_spec v 0), (Z.leb_spec x v); simpl; try lia;
      (split; [lia|]);
      (split; [apply elem_of_app; first [by left | right; by apply list_elem_of_singleton]|]);
      intros y [Hy| ->%list_elem_of_singleton]%elem_of_app; try lia;
      specialize (Hle y Hy); lia.
  - intros ->. split; [done|]. simpl.
    split; [by apply list_elem_of_singleton|].
    intros y ->%list_elem_of_singleton. lia.
Qed.

Lemma foldl_stepMinId ids acc seen :
  leastPositive acc seen → leastPositive (foldl stepMinId acc ids) (seen ++ ids).
Proof.
  revert acc seen. induction ids as [|x ids IH]; intros acc seen H; simpl.
  - by rewrite app_nil_r.
  - rewrite (cons_middle x), app_assoc. apply IH. by apply stepMinId_leastPositive.
Qed.

Lemma foldl_stepMaxId ids acc seen :
  Forall (λ x, x ≠ 0%Z) ids →
  greatest acc seen → greatest (foldl stepMaxId acc ids) (seen ++ ids).
Proof.
  intros Hids. revert acc seen.
  induction Hids as [|x ids Hx Hids IH]; intros acc seen H; simpl.
  - by rewrite app_nil_r.
  - rewrite (cons_middle x), app_assoc. apply IH. by apply stepMaxId_greatest.
Qed.

(** The ids a loop over the messages meets are those of the messages of
    the room, in whatever order it meets them. *)
Lemma enumerated_ids enumerate (msgs : gmap Z MessageModel) (x : number) :
  enumerates enumerate →
  x ∈ msg_id <$> enumerate msgs ↔ ∃ k m, msgs !! k = Some m ∧ msg_id m = x.
Proof.
  intros He. rewrite list_elem_of_fmap. setoid_rewrite (He msgs).
  setoid_rewrite list_elem_of_fmap. split.
  - intros (m & -> & [k m'] & -> & Hin%elem_of_map_to_list). by exists k, m'.
  - intros (k & m & Hk & <-). exists m. split; [done|].
    exists (k, m). split; [done|]. by apply elem_of_map_to_list.
Qed.

(** X7.  For a room of the store, [minId] returns the least id above 0
    among its messages, and nothing when no message has an id above 0, in
    whatever order the loop meets the messages. *)
Theorem minId_least_positive enumerate (s : State) (id : number) (r : RoomModel) :
  enumerates enumerate →
  roomsDict s !! id = Some r →
  ∃ res, minId enumerate s id = Ret res ∧
    match res with
    | None => ∀ k m, messages r !! k = Some m → (msg_id m ≤ 0)%Z
    | Some v =>
        (0 < v)%Z ∧ (∃ k m, messages r !! k = Some m ∧ msg_id m = v) ∧
        ∀ k m, messages r !! k = Some m → (0 < msg_id m)%Z → (v ≤ msg_id m)%Z
    end.
Proof.
  intros He Hr. unfold minId, minIdOver. rewrite Hr. eexists. split; [done|].
  pose proof (foldl_stepMinId (msg_id <$> enumerate (messages r)) None []) as H.
  simpl in H. specialize (H ltac:(by intros ? ?%elem_of_nil)).
  destruct (foldl stepMinId None (msg_id <$> enumerate (messages r))) as [v|]; simpl in *.
  - destruct H as (Hv & Hin & Hle). split; [done|]. split.
    + by apply (enumerated_ids enumerate).
    + intros k m Hk. apply Hle. apply (enumerated_ids enumerate); [done|]. by exists k, m.
  - intros k m Hk. apply H. apply (enumerated_ids enumerate); [done|]. by exists k, m.
Qed.

(** X8.  For a room of the store none of whose messages has the id 0,
    [maxId] returns the greatest id among its messages, and nothing when the
    room has no message, in whatever order the loop meets the messages. *)
Theorem maxId_greatest enumerate (s : State) (id : number) (r : RoomModel) :
  enumerates enumerate →
  roomsDict s !! id = Some r →
  (∀ k m, messages r !! k = Some m → msg_id m ≠ 0%Z) →
  ∃ res, maxId enumerate s id = Ret res ∧
    match res with
    | None => messages r = ∅
    | Some v =>
        (∃ k m, messages r !! k = Some m ∧ msg_id m = v) ∧
        ∀ k m, messages r !! k = Some m → (msg_id m ≤ v)%Z
    end.
Proof.
  intros He Hr Hnz. unfold maxId, maxIdOver. rewrite Hr. eexists. split; [done|].
  pose proof (foldl_stepMaxId (msg_id <$> enumerate (messages r)) None []) as H.
  simpl in H. lapply H.
  2:{ apply Forall_forall. intros x (k & m & Hk & <-)%(enumerated_ids enumerate); [|done].
      by apply (Hnz k). }
  clear H. intros H. specialize (H eq_refl).
  destruct (foldl stepMaxId None (msg_id <$> enumerate (messages r))) as [v|]; simpl in *.
  - destruct H as (Hv & Hin & Hle). split.
    + by apply (enumerated_ids enumerate).
    + intros k m Hk. apply Hle. apply (enumerated_ids enumerate); [done|]. by exists k, m.
  - apply map_empty. intros k. destruct (messages r !! k) as [m|] eqn:Hk; [|done].
    assert (Hin : msg_id m ∈ msg_id <$> enumerate (messages r)).
    { apply (enumerated_ids enumerate); [done|]. by exists k, m. }
    rewrite H in Hin. by apply elem_of_nil in Hin.
Qed.

Lemma minId_least_positive_witness :
  ∃ res, minId byKey MoreScenarios.Chat.chatting 1%Z = Ret res ∧
    match res with
    | None => ∀ k m, messages MoreScenarios.Chat.talk !! k = Some m → (msg_id m ≤ 0)%Z
    | Some v =>
        (0 < v)%Z ∧
        (∃ k m, messages MoreScenarios.Chat.talk !! k = Some m ∧ msg_id m = v) ∧
        ∀ k m, messages MoreScenarios.Chat.talk !! k = Some m →
               (0 < msg_id m)%Z → (v ≤ msg_id m)%Z
    end.
Proof.
  apply (minId_least_positive byKey MoreScenarios.Chat.chatting 1%Z MoreScenarios.Chat.talk).
  - intros msgs. reflexivity.
  - reflexivity.
Defined.

Lemma maxId_greatest_witness :
  ∃ res, maxId byKey MoreScenarios.Chat.chatting 1%Z = Ret res ∧
    match res with
    | None => messages MoreScenarios.Chat.talk = ∅
    | Some v =>
        (∃ k m, messages MoreScenarios.Chat.talk !! k = Some m ∧ msg_id m = v) ∧
        ∀ k m, messages MoreScenarios.Chat.talk !! k = Some m → (msg_id m ≤ v)%Z
    end.
Proof.
  apply (maxId_greatest byKey MoreScenarios.Chat.chatting 1%Z MoreScenarios.Chat.talk).
  - intros msgs. reflexivity.
  - reflexivity.
  - intros k m. simpl. rewrite !lookup_insert_Some, lookup_empty.
    intros [[_ <-]|[_ [[_ <-]|[_ [[_ <-]|[_ ?]]]]]]; done.
Defined.

(** *** Growls *)

Section keepsField.
Context {B : Type} (field : State → B).

Lemma keepsField_ret {A} (a : A) : keepsField field (ret a).
Proof. by intros s. Qed.

Lemma keepsField_throw {A} e : keepsField field (throw (A := A) e).
Proof. by intros s. Qed.

Lemma keepsField_emit c : keepsField field (emit c).
Proof. by intros s. Qed.

Lemma keepsField_gets {A} (f : State → A) : keepsField field (gets f).
Proof. by intros s. Qed.

Lemma keepsField_modify f : (∀ s, field (f s) = field s) → keepsField field (modify f).
Proof. intros Hf s. apply Hf. Qed.

Lemma keepsField_bind {A C} (m : Store A) (k : A → Store C) :
  keepsField field m → (∀ a, keepsField field (k a)) → keepsField field (bind m k).
Proof.
  intros Hm Hk s. unfold bind, final.
  specialize (Hm s). unfold final in Hm.
  destruct (m s) as [[[a|e] s1] t1]; simpl in *; [|done].
  specialize (Hk a s1). unfold final in Hk.
  destruct (k a s1) as [[r2 s2] t2]; simpl in *. congruence.
Qed.

Lemma keepsField_tryCatch {A} (m : Store A) (h : Exn → Store A) :
  keepsField field m → (∀ e, keepsField field (h e)) → keepsField field (tryCatch m h).
Proof.
  intros Hm Hh s. unfold tryCatch, final.
  specialize (Hm s). unfold final in Hm.
  destruct (m s) as [[[a|e] s1] t1]; simpl in *; [done|].
  specialize (Hh e s1). unfold final in Hh.
  destruct (h e s1) as [[r2 s2] t2]; simpl in *. congruence.
Qed.

Lemma keepsField_forEach {A} (l : list A) (f : A → Store unit) :
  (∀ x, keepsField field (f x)) → keepsField field (forEach l f).
Proof.
  intros Hf. induction l as [|x l IH]; simpl.
  - apply keepsField_ret.
  - apply keepsField_bind; [apply Hf | intros _; apply IH].
Qed.
End keepsField.

Ltac keepsField_step :=
  lazymatch goal with
  | |- keepsField _ (bind _ _) => apply keepsField_bind; [|intros ?]
  | |- keepsField _ (tryCatch _ _) => apply keepsField_tryCatch; [|intros ?]
  | |- keepsField _ (forEach _ _) => apply keepsField_forEach; intros ?
  | |- keepsField _ (ret _) => apply keepsField_ret
  | |- keepsField _ (throw _) => apply keepsField_throw
  | |- keepsField _ (emit _) => apply keepsField_emit
  | |- keepsField _ (gets _) => apply keepsField_gets
  | |- keepsField _ (modify _) => apply keepsField_modify; intros []; reflexivity
  | |- keepsField _ (match _ with _ => _ end) => case_match
  end.

Ltac keepsField_mutation :=
  lazymatch goal with
  | |- keepsField _ ?c =>
      let h := head_of c in
      unfold h; unfold_store; unfold withRoom, getRoom;
      cbv [mbind mret M_bind M_ret];
      repeat keepsField_step
  end.

(** The growls go their own way: a commit changes them as [growlStep]
    says, whatever the rest of the state. *)
Lemma commit_growls (ALL_ROOM_ID : number) (m : Mutation) (s : State) :
  growls (final (commit ALL_ROOM_ID m s)) = growlStep (growls s) m.
Proof.
  destruct m; cbn [commit growlStep];
    try (lazymatch goal with
         | |- growls (final (?c s)) = _ =>
             assert (K : keepsField growls c) by keepsField_mutation; apply K
         end).
  - by destruct s.
  - by destruct s.
Qed.

Lemma run_growls (ALL_ROOM_ID : number) (ms : list Mutation) (s : State) :
  growls (run ALL_ROOM_ID ms s) = foldl growlStep (growls s) ms.
Proof.
  revert s. induction ms as [|m ms IH]; intros s; [done|].
  cbn [run foldl]. by rewrite IH, commit_growls.
Qed.

Lemma removeFirst_absent g (l : list GrowlModel) : g ∉ l → removeFirst g l = l.
Proof.
  induction l as [|x l IH]; [done|]. intros [Hx Hl]%not_elem_of_cons. simpl.
  rewrite decide_False by done. by rewrite IH.
Qed.

Lemma removeFirst_here g (l1 l2 : list GrowlModel) :
  g ∉ l1 → removeFirst g (l1 ++ g :: l2) = l1 ++ l2.
Proof.
  induction l1 as [|x l1 IH]; simpl.
  - intros _. by rewrite decide_True.
  - intros [Hx Hl]%not_elem_of_cons. rewrite decide_False by done. by rewrite IH.
Qed.

Lemma removeFirst_subset g x (l : list GrowlModel) : x ∈ removeFirst g l → x ∈ l.
Proof.
  induction l as [|y l IH]; [done|]. simpl. case_decide.
  - intros ?. by right.
  - intros [->|?]%elem_of_cons; [by left|]. right. by apply IH.
Qed.

Lemma removeFirst_other g g' (l1 l2 : list GrowlModel) :
  g' ≠ g → g ∉ l1 → g ∉ l2 →
  ∃ l1' l2', removeFirst g' (l1 ++ g :: l2) = l1' ++ g :: l2' ∧
             removeFirst g' (l1 ++ l2) = l1' ++ l2' ∧ (g ∉ l1') ∧ (g ∉ l2').
Proof.
  intros Hne Hl1 Hl2. induction l1 as [|x l1 IH]; simpl.
  - rewrite decide_False by done. exists [], (removeFirst g' l2).
    split_and!; [done..|]. by intros ?%removeFirst_subset.
  - apply not_elem_of_cons in Hl1 as [Hx Hl]. case_decide as Hd.
    + by exists l1, l2.
    + destruct (IH Hl) as (l1' & l2' & -> & -> & Hl' & Hl2'). exists (x :: l1'), l2'.
      split_and!; [done..| |done]. by apply not_elem_of_cons.
Qed.

(** While our growl is shown, or after somebody removed it, the other
    growls are those of the run without [showGrowl]. *)
Lemma shown_growl_apart g (ms : list Mutation) (with_g without : list GrowlModel) :
  AddGrowl g ∉ ms →
  ((∃ l1 l2, with_g = l1 ++ g :: l2 ∧ without = l1 ++ l2 ∧ (g ∉ l1) ∧ (g ∉ l2)) ∨
   (with_g = without ∧ g ∉ without)) →
  removeFirst g (foldl growlStep with_g ms) = foldl growlStep without ms.
Proof.
  revert with_g without. induction ms as [|m ms IH]; intros with_g without Hms Hrel.
  { simpl. destruct Hrel as [(l1 & l2 & -> & -> & Hl & _)|[-> Hl]].
    - by apply removeFirst_here.
    - by apply removeFirst_absent. }
  apply not_elem_of_cons in Hms as [Hm Hms]. cbn [foldl]. apply IH; [done|].
  destruct Hrel as [(l1 & l2 & -> & -> & Hl1 & Hl2)|[-> Hl]].
  - destruct m; simpl; try (left; by exists l1, l2).
    + left. exists l1, (l2 ++ [growlModel]). rewrite <- !app_assoc.
      split_and!; [done..|].
      intros [?| ->%list_elem_of_singleton]%elem_of_app; [done|]. by apply Hm.
    + destruct (decide (growlModel = g)) as [->|Hne].
      * right. rewrite removeFirst_here by done.
        assert (g ∉ l1 ++ l2) by (by intros [?|?]%elem_of_app).
        by rewrite removeFirst_absent.
      * left. by apply removeFirst_other.
  - right. destruct m; simpl; try done.
    + split; [done|]. intros [?| ->%list_elem_of_singleton]%elem_of_app; [done|].
      by apply Hm.
    + split; [done|]. by intros ?%removeFirst_subset.
Qed.

(** X18.  [showGrowl] ends with the growls as they would be without it:
    the growl it added is the one it removes after the sleep, also when
    other growls came or went in the meantime or when its own growl was
    removed by hand before; every other growl stays, in order. *)
Theorem showGrowl_removes_its_growl (ALL_ROOM_ID : number) (growl : GrowlModel)
    (meanwhile : list Mutation) (s : State) :
  growl ∉ growls s →
  AddGrowl growl ∉ meanwhile →
  growls (run ALL_ROOM_ID (showGrowl growl meanwhile) s) =
  growls (run ALL_ROOM_ID meanwhile s).
Proof.
  intros Hfresh Hmeanwhile. unfold showGrowl.
  rewrite !run_growls. cbn [foldl growlStep]. rewrite foldl_app. cbn [foldl growlStep].
  apply shown_growl_apart; [done|].
  left. exists (growls s), []. rewrite app_nil_r. split_and!; [done..|].
  by intros ?%elem_of_nil.
Qed.

Lemma showGrowl_removes_its_growl_witness :
  let warning := mkGrowl 1%Z "careful" INFO in
  let other := mkGrowl 2%Z "saved" SUCCESS in
  let meanwhile := [AddGrowl other; SetDim true; RemoveGrowl warning] in
  growls (run 1%Z (showGrowl warning meanwhile) initial) =
  growls (run 1%Z meanwhile initial).
Proof.
  apply (showGrowl_removes_its_growl 1%Z (mkGrowl 1%Z "careful" INFO)
           [AddGrowl (mkGrowl 2%Z "saved" SUCCESS); SetDim true;
            RemoveGrowl (mkGrowl 1%Z "careful" INFO)] initial).
  - simpl. by intros ?%elem_of_nil.
  - intros [?|[?|[?|?%elem_of_nil]%elem_of_cons]%elem_of_cons]%elem_of_cons; done.
Defined.

End StoreMoreProofs.

(** ** The header ids kept in the browser *)
Module LocalStorageProofs.
Import Model LocalStorage.

Lemma applyCache_cache roomId value s :
  item (applyCache roomId value s).2 = item s ∧
  ∃ c', cache (applyCache roomId value s).2 = <[roomId := c']> (cache s) ∧
    match cache s !! roomId with
    | None => c' = {| h := value; f := value |} ∧ (applyCache roomId value s).1 = false
    | Some c =>
        c' = {| h := if (value <? h c)%Z then value else h c;
                f := if (value <? h c)%Z then f c
                     else if (f c <? value)%Z then value else f c |} ∧
        (applyCache roomId value s).1 = negb (value <? h c)%Z && negb (f c <? value)%Z
    end.
Proof.
  unfold applyCache. destruct (cache s !! roomId) as [c|] eqn:Hc.
  - destruct (value <? h c)%Z eqn:H1; [|destruct (f c <? value)%Z eqn:H2]; simpl;
      (split; [done|]); eexists; (split; [|split; reflexivity]); try done.
    destruct s as [ca it]; simpl in *. symmetry. apply insert_id. rewrite Hc. by destruct c.
  - simpl. split; [done|]. eexists. by split.
Qed.

Lemma applyCache_tracks roomId value s hist :
  tracks s hist → tracks (applyCache roomId value s).2 (hist ++ [(roomId, value)]).
Proof.
  intros Ht k.
  destruct (applyCache_cache roomId value s) as (_ & c' & -> & Hc').
  pose proof (Ht roomId) as Hr. specialize (Ht k).
  destruct (decide (k = roomId)) as [->|Hne].
  - rewrite lookup_insert_eq. clear Ht. revert Hr Hc'.
    destruct (cache s !! roomId) as [c|]; intros Hr [-> _]; simpl;
      setoid_rewrite elem_of_app; setoid_rewrite list_elem_of_singleton.
    + destruct Hr as (Hh & Hf & Hb).
      pose proof (Hb _ Hh). pose proof (Hb _ Hf).
      destruct (Z.ltb_spec value (h c)), (Z.ltb_spec (f c) value);
        (split_and!; [first [by left | by right]..|]);
        (intros v [Hv|[= ->]]; [specialize (Hb _ Hv)|]; lia).
    + split_and!; [first [by left | by right]..|].
      intros v [Hv|[= ->]]; [by apply Hr in Hv | lia].
  - rewrite lookup_insert_ne by done. revert Ht.
    destruct (cache s !! k) as [c|]; intros Ht;
      setoid_rewrite elem_of_app; setoid_rewrite list_elem_of_singleton.
    + destruct Ht as (Hh & Hf & Hb). split_and!; [first [by left | by right]..|].
      intros v [Hv|[= ? ?]]; [by apply Hb | done].
    + intros v [Hv|[= ? ?]]; [by apply Ht in Hv | done].
Qed.

Lemma tracked_nonzero s hist (k : number) c :
  tracks s hist → nonzero hist → cache s !! k = Some c → h c ≠ 0%Z.
Proof.
  intros Ht Hnz Hc. specialize (Ht k). rewrite Hc in Ht. destruct Ht as (Hh & _).
  unfold nonzero in Hnz. rewrite Forall_forall in Hnz. apply (Hnz _ Hh).
Qed.

Lemma setRoomHeaderId_keeps roomId value s hist :
  tracks s hist → synced s → nonzero hist →
  tracks (setRoomHeaderId roomId value s) (hist ++ [(roomId, value)]) ∧
  synced (setRoomHeaderId roomId value s).
Proof.
  intros Ht Hs Hnz.
  pose proof (applyCache_tracks roomId value s hist Ht) as Ht'.
  destruct (applyCache_cache roomId value s) as (Hitem & c' & Hcache & Hc').
  pose proof (Hs roomId) as Hsr.
  pose proof (λ c, tracked_nonzero s hist roomId c Ht Hnz) as Hz.
  unfold setRoomHeaderId.
  destruct (applyCache roomId value s) as [inside s1]; simpl in *.
  split.
  { destruct inside; [done|]. unfold saveJson. by destruct (lower _ _ _). }
  clear Ht Ht'. unfold synced, saveJson, lower, persisted, parsed in *.
  unfold number in *. rewrite Hitem, Hsr.
  assert (Hinsert : ∀ x, h c' = x → ∀ k : Z,
            <[roomId := x]> (default ∅ (item s)) !! k = h <$> cache s1 !! k).
  { unfold number in *. intros x <- k. rewrite Hcache. destruct (decide (k = roomId)) as [->|Hk].
    - by rewrite !lookup_insert_eq.
    - rewrite !lookup_insert_ne by done. apply Hs. }
  assert (Hsame : (h <$> cache s !! roomId) = Some (h c') → ∀ k : Z,
            default ∅ (item s1) !! k = h <$> cache s1 !! k).
  { unfold number in *. intros Heq k. rewrite Hitem, Hcache. destruct (decide (k = roomId)) as [->|Hk].
    - by rewrite lookup_insert_eq, Hsr.
    - rewrite lookup_insert_ne by done. apply Hs. }
  unfold number in *. revert Hc' Hz Hsame.
  destruct (cache s !! roomId) as [c|]; simpl; intros [-> ->] Hz Hsame.
  - specialize (Hz c eq_refl).
    destruct (Z.eqb_spec (h c) 0) as [|_]; [done|].
    destruct (Z.ltb_spec value (h c)), (Z.ltb_spec (f c) value); simpl in *;
      first [by apply Hinsert | by apply Hsame].
  - by apply Hinsert.
Qed.

Lemma synced_behind s hist : tracks s hist → nonzero hist → synced s → behind s.
Proof.
  intros Ht Hnz Hs k. rewrite (Hs k).
  destruct (cache s !! k) as [c|] eqn:Hc; simpl; [|done].
  split; [by eapply tracked_nonzero|]. exists c. split; [done|lia].
Qed.

Lemma applyCache_behind roomId value s : behind s → behind (applyCache roomId value s).2.
Proof.
  intros Hb k. destruct (applyCache_cache roomId value s) as (Hitem & c' & Hcache & Hc').
  specialize (Hb k). unfold persisted, parsed in *. unfold number in *. rewrite Hitem.
  revert Hb.
  lazymatch goal with |- match ?l with _ => _ end → _ => destruct l as [x|]; [|done] end.
  intros (Hx & c & Hc & Hle). split; [done|]. rewrite Hcache.
  destruct (decide (k = roomId)) as [->|Hk].
  - rewrite lookup_insert_eq. exists c'. split; [done|].
    rewrite Hc in Hc'. destruct Hc' as [-> _]. simpl.
    destruct (Z.ltb_spec value (h c)); lia.
  - rewrite lookup_insert_ne by done. eauto.
Qed.

Lemma applyCache_all_keeps (ms : list MessageModel) s hist :
  tracks s hist → behind s →
  let s' := foldl (λ s m, (applyCache (msg_roomId m) (msg_id m) s).2) s ms in
  tracks s' (hist ++ ((λ m, (msg_roomId m, msg_id m)) <$> ms)) ∧ behind s' ∧
  item s' = item s.
Proof.
  revert s hist. induction ms as [|m ms IH]; intros s hist Ht Hb; simpl.
  - by rewrite app_nil_r.
  - rewrite (cons_middle _ hist), app_assoc.
    destruct (IH (applyCache (msg_roomId m) (msg_id m) s).2
                (hist ++ [(msg_roomId m, msg_id m)])) as (? & ? & Hitem).
    + by apply applyCache_tracks.
    + by apply applyCache_behind.
    + split_and!; [done..|]. rewrite Hitem.
      by destruct (applyCache_cache (msg_roomId m) (msg_id m) s) as [-> _].
Qed.

Lemma headers_lookup (lm : gmap Z number) (ca : gmap Z LocalStorageMessage) (k : Z) :
  map_fold (λ k c lm, if lower lm k (h c) then <[k := h c]> lm else lm) lm ca !! k =
  match ca !! k with
  | Some c => if lower lm k (h c) then Some (h c) else lm !! k
  | None => lm !! k
  end.
Proof.
  revert k.
  apply (map_fold_weak_ind (λ (r : gmap Z number) (m : gmap Z LocalStorageMessage), ∀ k : Z,
           r !! k = match m !! k with
                    | Some c => if lower lm k (h c) then Some (h c) else lm !! k
                    | None => lm !! k
                    end)).
  - intros k. by rewrite lookup_empty.
  - intros i x m r Hi IH k.
    assert (Hlow : lower r i (h x) = lower lm i (h x)).
    { unfold lower in *. unfold number in *. by rewrite !(IH i), Hi. }
    rewrite Hlow. destruct (decide (k = i)) as [->|Hk].
    + rewrite lookup_insert_eq.
      destruct (lower lm i (h x)); [by rewrite lookup_insert_eq|]. by rewrite IH, Hi.
    + rewrite lookup_insert_ne by done.
      destruct (lower lm i (h x)); [rewrite lookup_insert_ne by done|]; apply IH.
Qed.

Lemma saveMessages_keeps (ms : list MessageModel) s hist :
  tracks s hist → synced s → nonzero hist →
  tracks (saveMessages ms s) (hist ++ ((λ m, (msg_roomId m, msg_id m)) <$> ms)) ∧
  synced (saveMessages ms s).
Proof.
  intros Ht Hs Hnz.
  destruct (applyCache_all_keeps ms s hist Ht) as (Ht' & Hb' & Hitem);
    [by eapply synced_behind|].
  unfold saveMessages.
  set (s1 := foldl (λ s m, (applyCache (msg_roomId m) (msg_id m) s).2) s ms) in *.
  split; [done|]. intros k. specialize (Hb' k).
  unfold persisted, parsed in *. unfold number in *. simpl.
  rewrite headers_lookup. unfold lower. unfold number in *.
  revert Hb'.
  lazymatch goal with |- match ?l with _ => _ end → _ => destruct l as [x|]; simpl end.
  - intros (Hx & c & -> & Hle). simpl.
    destruct (Z.eqb_spec x 0); [done|]. simpl.
    destruct (Z.ltb_spec (h c) x); [done|]. f_equal. lia.
  - intros _. by destruct (cache s1 !! k).
Qed.

Lemma construct_keeps (ms : option (gmap Z number)) :
  tracks (construct ms) (map_to_list (default ∅ ms)) ∧ synced (construct ms).
Proof.
  destruct ms as [loaded|]; simpl.
  - split; intros k; unfold persisted, parsed; simpl; rewrite lookup_fmap;
      [|by destruct (loaded !! k)].
    destruct (loaded !! k) as [v|] eqn:Hk; simpl.
    + split_and!; [by apply elem_of_map_to_list..|].
      intros v' Hv'%elem_of_map_to_list. unfold number in *. simplify_eq. lia.
    + intros v Hv%elem_of_map_to_list. unfold number in *. simplify_eq.
  - split; intros k; unfold persisted, parsed; simpl; rewrite ?lookup_empty; [|done].
    rewrite map_to_list_empty. intros v Hv. by apply elem_of_nil in Hv.
Qed.

Lemma request_keeps (q : Request) s hist :
  tracks s hist → synced s → nonzero hist →
  tracks (request q s) (if clears q then [] else hist ++ given q) ∧
  synced (request q s).
Proof.
  intros Ht Hs Hnz.
  assert (Hclear : tracks (clearStorage s) [] ∧ synced (clearStorage s)).
  { split; intros k; unfold persisted, parsed; simpl; rewrite ?lookup_empty; [|done].
    intros v Hv. by apply elem_of_nil in Hv. }
  destruct q as [[]|roomId value]; simpl; rewrite ?app_nil_r; try done.
  - by apply setRoomHeaderId_keeps.
  - by apply saveMessages_keeps.
  - by apply setRoomHeaderId_keeps.
Qed.

Lemma serve_keeps (qs : list Request) s hist :
  Forall (λ q, nonzero (given q)) qs →
  tracks s hist → synced s → nonzero hist →
  tracks (serve qs s) (sinceCleared hist qs) ∧ synced (serve qs s).
Proof.
  intros Hqs. revert s hist.
  induction Hqs as [|q qs Hq Hqs IH]; intros s hist Ht Hs Hnz; simpl; [done|].
  destruct (request_keeps q s hist Ht Hs Hnz) as [Ht' Hs'].
  apply IH; [done..|].
  destruct (clears q); [by apply Forall_nil|]. by apply Forall_app.
Qed.

(** X9.  Whatever the storage is asked, the header id the browser holds
    for a room is the least message id brought for that room since the
    storage was last cleared, counting what the browser held when the
    storage was constructed, and the browser holds none exactly when none
    was brought; this as long as no id is 0. *)
Theorem persisted_header_is_least (ms : option (gmap Z number)) (qs : list Request)
    (roomId : number) :
  nonzero (map_to_list (default ∅ ms)) →
  Forall (λ q, nonzero (given q)) qs →
  match persisted (serve qs (construct ms)) roomId with
  | None => ∀ v, (roomId, v) ∉ sinceCleared (map_to_list (default ∅ ms)) qs
  | Some x =>
      (roomId, x) ∈ sinceCleared (map_to_list (default ∅ ms)) qs ∧
      ∀ v, (roomId, v) ∈ sinceCleared (map_to_list (default ∅ ms)) qs → (x ≤ v)%Z
  end.
Proof.
  intros Hms Hqs.
  destruct (construct_keeps ms) as [Ht Hs].
  destruct (serve_keeps qs _ _ Hqs Ht Hs Hms) as [Ht' Hs'].
  rewrite (Hs' roomId). specialize (Ht' roomId).
  destruct (cache (serve qs (construct ms)) !! roomId) as [c|]; simpl; [|done].
  destruct Ht' as (Hh & _ & Hb). split; [done|]. intros v Hv. by apply Hb.
Qed.

Lemma persisted_header_is_least_witness :
  match persisted (serve MoreScenarios.Headers.requests (construct None)) 1%Z with
  | None => ∀ v, (1%Z, v) ∉ sinceCleared [] MoreScenarios.Headers.requests
  | Some x =>
      (1%Z, x) ∈ sinceCleared [] MoreScenarios.Headers.requests ∧
      ∀ v, (1%Z, v) ∈ sinceCleared [] MoreScenarios.Headers.requests → (x ≤ v)%Z
  end.
Proof.
  apply (persisted_header_is_least None MoreScenarios.Headers.requests 1%Z).
  - constructor.
  - repeat constructor; simpl; lia.
Defined.

End LocalStorageProofs.

(** ** Placing and ending a call *)
Module CallControlProofs.
Import Js Eff Messages CallHandler CallControl EffFacts.

Lemma handled_events_app t1 t2 : handled (t1 ++ t2) = handled t1 ++ handled t2.
Proof. apply omap_app. Qed.

Lemma handled_Handled (t : list CallHandler.Event) : handled (Handled <$> t) = t.
Proof. induction t as [|e t IH]; [done|]. rewrite fmap_cons. simpl. by rewrite IH. Qed.

Lemma offers_Handled (t : list CallHandler.Event) : offers (Handled <$> t) = [].
Proof. induction t as [|e t IH]; [done|]. by rewrite fmap_cons. Qed.

(** What [offerCall] leaves when the devices gave a stream. *)
Lemma offerCall_captured (env : Browser) (tracks : MediaStream) (s : Handler) :
  captured env = Ret tracks →
  callStatus (final (offerCall env s)) = sent_offer ∧
  localStream (final (offerCall env s)) = Some (length (streams s)) ∧
  webrtcConnnectionsIds (final (offerCall env s)) = webrtcConnnectionsIds s.
Proof.
  intros Hcap.
  unfold offerCall, lift, captureInput, attachLocalStream, setCallStatus,
    setCallIconsState.
  rewrite Hcap. destruct s as [rid cid ids ws ls ap st acc ss]. by run.
Qed.

(** The messages of the relay, handled one after the other while the
    handler is the one that placed the call. *)
Lemma handle_all (ms : list Incoming) (connId : string) (s : Handler) :
  callStatus s ≠ received_offer →
  connectionId s = Some connId →
  truthy (Some connId) = true →
  outcome (forEach ms handle s) = Ret tt ∧
  notified (trace (forEach ms handle s)) =
    (λ opp, connectToRemote (Subscription.getPeerConnectionId connId opp) (localStream s))
      <$> accepting ms ∧
  filter isCapture (trace (forEach ms handle s)) = [] ∧
  (constructed (trace (forEach ms handle s))).*2 = replying ms ∧
  webrtcConnnectionsIds (final (forEach ms handle s)) =
    webrtcConnnectionsIds s ++ replying ms.
Proof.
  intros Hst Hcid Htr. revert s Hst Hcid.
  induction ms as [|m ms IH]; intros s Hst Hcid.
  { simpl. by rewrite app_nil_r. }
  destruct s as [rid cid ids ws ls ap st acc ss]. simpl in Hst, Hcid. subst cid.
  destruct m as [opp uid|opp].
  - specialize (IH {| roomId := rid; connectionId := Some connId;
                      webrtcConnnectionsIds := ids ++ [opp]; wsConnectionId := ws;
                      localStream := ls; audioProcessor := ap; callStatus := st;
                      acceptedPeers := acc; streams := ss |} Hst eq_refl).
    destruct IH as (Ho & Hn & Hc & Hk & Hids).
    cbn [forEach handle]. unfold replyCall, createCallPeerConnection.
    run. destruct (gt opp ws); simpl;
      destruct (forEach ms handle _) as [[o s'] t']; unfold outcome, final in *; simpl in *;
      (split_and!;
       [ done | done | by rewrite filter_cons_False by (by intros [])
       | by f_equal | by rewrite Hids, <- app_assoc ]).
  - specialize (IH {| roomId := rid; connectionId := Some connId;
                      webrtcConnnectionsIds := ids; wsConnectionId := ws;
                      localStream := ls; audioProcessor := ap; callStatus := st;
                      acceptedPeers := acc; streams := ss |} Hst eq_refl).
    destruct IH as (Ho & Hn & Hc & Hk & Hids).
    cbn [forEach handle]. unfold onacceptCall.
    run. destruct (decide (st ≠ received_offer)) as [_|Hne]; [|done].
    simpl in *. rewrite Htr. simpl.
    destruct (forEach ms handle _) as [[o s'] t']; unfold outcome, final in *; simpl in *.
    split_and!; [done | by rewrite Hn | by rewrite filter_cons_False by (by intros [])
                | done | done].
Qed.

(** X11.  Once [offerCall] has captured a stream and the relay has given
    the connection id, the peers that accept are told to connect with that
    stream under the key of their own link, in the order they accept and
    whatever replies come in between; no acceptance and no reply makes the
    handler capture again, and each reply adds one link. *)
Theorem placed_call_connects_accepting (env : Browser) (tracks : MediaStream)
    (connId : string) (ms : list Incoming) (s : Handler) :
  captured env = Ret tracks →
  truthy (Some connId) = true →
  let placed := final (onSetConnectionId (Some connId) (final (offerCall env s))) in
  outcome (forEach ms handle placed) = Ret tt ∧
  notified (trace (forEach ms handle placed)) =
    (λ opp, connectToRemote (Subscription.getPeerConnectionId connId opp)
              (Some (length (streams s)))) <$> accepting ms ∧
  filter isCapture (trace (forEach ms handle placed)) = [] ∧
  (constructed (trace (forEach ms handle placed))).*2 = replying ms ∧
  webrtcConnnectionsIds (final (forEach ms handle placed)) =
    webrtcConnnectionsIds s ++ replying ms.
Proof.
  intros Hcap Htr placed.
  destruct (offerCall_captured env tracks s Hcap) as (Hst & Hls & Hkeep).
  assert (Hplaced : callStatus placed = sent_offer ∧ connectionId placed = Some connId ∧
                    localStream placed = Some (length (streams s)) ∧
                    webrtcConnnectionsIds placed = webrtcConnnectionsIds s).
  { subst placed. unfold onSetConnectionId. rewrite Htr.
    destruct (final (offerCall env s)); simpl in *. by run. }
  destruct Hplaced as (Hst' & Hcid & Hls' & Hids).
  destruct (handle_all ms connId placed) as (? & Hn & ? & ? & Hw); [by rewrite Hst'|done..|].
  rewrite Hls' in Hn. rewrite Hids in Hw. done.
Qed.

Lemma placed_call_connects_accepting_witness :
  let placed :=
    final (onSetConnectionId (Some "conn")
             (final (offerCall Scenarios.Calls.devices MoreScenarios.Placing.idle))) in
  outcome (forEach MoreScenarios.Placing.answers handle placed) = Ret tt ∧
  notified (trace (forEach MoreScenarios.Placing.answers handle placed)) =
    (λ opp, connectToRemote (Subscription.getPeerConnectionId "conn" opp)
              (Some (length (streams MoreScenarios.Placing.idle))))
      <$> accepting MoreScenarios.Placing.answers ∧
  filter isCapture (trace (forEach MoreScenarios.Placing.answers handle placed)) = [] ∧
  (constructed (trace (forEach MoreScenarios.Placing.answers handle placed))).*2 =
    replying MoreScenarios.Placing.answers ∧
  webrtcConnnectionsIds (final (forEach MoreScenarios.Placing.answers handle placed)) =
    webrtcConnnectionsIds MoreScenarios.Placing.idle ++
    replying MoreScenarios.Placing.answers.
Proof.
  apply (placed_call_connects_accepting Scenarios.Calls.devices
           [Scenarios.Calls.microphone; Scenarios.Calls.camera] "conn"
           MoreScenarios.Placing.answers MoreScenarios.Placing.idle); reflexivity.
Defined.

(** *** Ending a call *)

Lemma active_stopped (tracks : MediaStream) : active (stop <$> tracks) = false.
Proof. unfold active. induction tracks as [|t tracks IH]; [done|]. by rewrite fmap_cons. Qed.

Lemma updateConnection_idle (env : Browser) (s : Handler) :
  localStreamActive s = false →
  updateConnection env s = (Ret tt, s, [Log "updateConnection"]).
Proof. intros Hs. unfold updateConnection. run. by rewrite Hs. Qed.

Lemma toggleDevice_no_live_track (env : Browser) callInfo (videoType : VideoType)
    (s : Handler) :
  (∀ r i tracks t, getTrack videoType s = Some (r, i) → streams s !! r = Some tracks →
                   tracks !! i = Some t → readyState t ≠ live) →
  toggleDevice env callInfo videoType s = updateConnection env s.
Proof.
  intros Hno. unfold toggleDevice. run.
  destruct (getTrack videoType s) as [[r i]|] eqn:Hg;
    [|by destruct (updateConnection env s) as [[? ?] ?]].
  destruct (streams s !! r) as [tracks|] eqn:Hr;
    [|by destruct (updateConnection env s) as [[? ?] ?]].
  destruct (tracks !! i) as [t|] eqn:Hi;
    [|by destruct (updateConnection env s) as [[? ?] ?]].
  rewrite bool_decide_eq_false_2 by (by eapply Hno).
  by destruct (updateConnection env s) as [[? ?] ?].
Qed.

Lemma getTrack_stream (videoType : VideoType) (s : Handler) r i :
  getTrack videoType s = Some (r, i) → localStream s = Some r.
Proof.
  unfold getTrack. destruct (localStream s) as [r'|]; [|done].
  destruct (tracksOf _ _) as [|[j t] rest]; [done|].
  repeat case_match; congruence.
Qed.

Lemma bind_run {S E A B} (m : M S E A) (k : A → M S E B) s a s1 t1 :
  m s = (Ret a, s1, t1) →
  bind m k s = (outcome (k a s1), final (k a s1), t1 ++ trace (k a s1)).
Proof. intros Hm. unfold bind. rewrite Hm. by destruct (k a s1) as [[? ?] ?]. Qed.

Lemma handler_stopLocalStream_run (s : Handler) :
  ∃ ap t, stopLocalStream s =
            (Ret tt, set_streams (stoppedStreams s) (set_audioProcessor ap s), t).
Proof.
  unfold stopLocalStream, destroyAudioProcessor, destroyStreamData, stoppedStreams.
  destruct s as [rid cid ids ws ls ap st acc ss].
  destruct ap as [[]|], ls as [r|]; run; try by eexists _, _.
  all: unfold MediaStream, MediaStreamRef in *;
    lazymatch goal with
    | |- context [match @lookup ?K ?A ?M ?I ?k ?m with _ => _ end] =>
        destruct (@lookup K A M I k m) as [tracks|] eqn:Hr
    end; run; try by eexists _, _.
  all: erewrite forEach_stable; [|intros; reflexivity]; by eexists _, _.
Qed.

Lemma stopped_inactive (s h : Handler) :
  localStream h = localStream s → streams h = stoppedStreams s →
  localStreamActive h = false.
Proof.
  unfold localStreamActive, stoppedStreams. intros -> ->.
  destruct s as [rid cid ids ws ls ap0 st acc ss]; simpl.
  destruct ls as [r|]; [|done]. unfold MediaStream, MediaStreamRef in *.
  match goal with
  | |- context [@lookup ?K ?A ?M ?I ?k ?m] =>
      is_var m; destruct (@lookup K A M I k m) as [tracks|] eqn:Hr
  end.
  - rewrite list_lookup_insert_eq by (by eapply lookup_lt_Some). apply active_stopped.
  - by rewrite Hr.
Qed.

Lemma stopped_tracks_ended (s h : Handler) r i tracks t :
  localStream h = localStream s → streams h = stoppedStreams s →
  localStream h = Some r → streams h !! r = Some tracks →
  tracks !! i = Some t → readyState t ≠ live.
Proof.
  unfold stoppedStreams. intros -> ->.
  destruct s as [rid cid ids ws ls ap0 st acc ss]; simpl. intros ->.
  unfold MediaStream, MediaStreamRef in *.
  match goal with
  | |- context [@lookup ?K ?A ?M ?I ?k ?m] =>
      is_var m; destruct (@lookup K A M I k m) as [tracks0|] eqn:Hr
  end.
  - rewrite list_lookup_insert_eq by (by eapply lookup_lt_Some).
    intros [= <-]. rewrite list_lookup_fmap.
    destruct (_ !! i); simpl; [|done]. by intros [= <-].
  - by rewrite Hr.
Qed.

Lemma session_onDestroy_run (ALL_ROOM_ID : Model.number) (w : CallSession.World) :
  let r := CallSession.onDestroy ALL_ROOM_ID w in
  let st := CallSession.store w in
  let key := toString (DefaultStore.mediaLinkId st) in
  localStream (CallSession.handler (final r)) = localStream (CallSession.handler w) ∧
  streams (CallSession.handler (final r)) = stoppedStreams (CallSession.handler w) ∧
  match DefaultStore.roomsDict st !! roomId (CallSession.handler w) with
  | Some room =>
      outcome r = Ret tt ∧
      connectionId (CallSession.handler (final r)) = None ∧
      DefaultStore.mediaObjects (CallSession.store (final r)) !! key = Some None ∧
      ∃ room',
        DefaultStore.roomsDict (CallSession.store (final r))
          !! roomId (CallSession.handler w) = Some room' ∧
        Model.mediaStreamLink (Model.callInfo room') = Some key ∧
        Model.callActive (Model.callInfo room') = false
  | None =>
      outcome r = Throw (Error "store.setLocalStreamSrc") ∧
      connectionId (CallSession.handler (final r)) = connectionId (CallSession.handler w) ∧
      DefaultStore.roomsDict (CallSession.store (final r)) = DefaultStore.roomsDict st
  end.
Proof.
  intros r st key. subst r st key. destruct w as [h st].
  destruct (handler_stopLocalStream_run h) as (ap & t & Hstop).
  unfold CallSession.onDestroy, CallSession.onHandler, CallSession.commit.
  cbv [mbind mret M_bind M_ret bind gets]. simpl. rewrite Hstop. simpl.
  unfold DefaultStore.setLocalStreamSrc, DefaultStore.setCallActiveToState,
    DefaultStore.Validate, DefaultStore.mediaLinkIdGetter, DefaultStore.withCallInfo,
    DefaultStore.withRoom, DefaultStore.getRoom.
  run.
  destruct st as [sto onl gr dm inc mic spk web ed ar au ui us img users reg on rooms mo next].
  destruct h as [rid cid ids ws ls ap0 cs acc ss]. simpl. unfold Model.number in *.
  destruct (rooms !! rid) as [room|] eqn:Hroom; simpl; [|by split_and!].
  rewrite lookup_insert_eq. simpl.
  split_and!; try done; [apply lookup_insert_eq|].
  eexists. split; [apply lookup_insert_eq|]. by destruct room as [? ? ? ? ? []].
Qed.

(** X12.  [onDestroy] stops every track of the local stream first.  When
    the room of the handler is in the store, it does not throw: it leaves
    the handler without a connection id, the store with the call of the
    room not active and its stream link naming a media object that is
    [null].  When the room is not in the store, [setLocalStreamSrc]
    throws, [onDestroy] with it, and the connection id stays.  Either way
    a device toggled or a connection updated afterwards captures nothing,
    notifies nobody and changes nothing. *)
Theorem onDestroy_ends_capturing (ALL_ROOM_ID : Model.number) (env : Browser)
    (callInfo : Model.CallsInfoModel) (videoType : VideoType) (w : CallSession.World) :
  let r := CallSession.onDestroy ALL_ROOM_ID w in
  let h := CallSession.handler (final r) in
  let key := toString (DefaultStore.mediaLinkId (CallSession.store w)) in
  localStreamActive h = false ∧
  updateConnection env h = (Ret tt, h, [Log "updateConnection"]) ∧
  toggleDevice env callInfo videoType h = (Ret tt, h, [Log "updateConnection"]) ∧
  match DefaultStore.roomsDict (CallSession.store w)
          !! roomId (CallSession.handler w) with
  | Some room =>
      outcome r = Ret tt ∧
      connectionId h = None ∧
      DefaultStore.mediaObjects (CallSession.store (final r)) !! key = Some None ∧
      ∃ room',
        DefaultStore.roomsDict (CallSession.store (final r))
          !! roomId (CallSession.handler w) = Some room' ∧
        Model.mediaStreamLink (Model.callInfo room') = Some key ∧
        Model.callActive (Model.callInfo room') = false
  | None =>
      outcome r = Throw (Error "store.setLocalStreamSrc") ∧
      connectionId h = connectionId (CallSession.handler w) ∧
      DefaultStore.roomsDict (CallSession.store (final r)) =
        DefaultStore.roomsDict (CallSession.store w)
  end.
Proof.
  intros r h key.
  destruct (session_onDestroy_run ALL_ROOM_ID w) as (Hls & Hss & Hrun).
  fold r in Hls, Hss, Hrun. fold h in Hls, Hss, Hrun. fold key in Hrun.
  pose proof (stopped_inactive _ h Hls Hss) as Hidle.
  split_and!; [done | by apply updateConnection_idle | | exact Hrun].
  rewrite toggleDevice_no_live_track; [by apply updateConnection_idle|].
  intros r0 i tracks t' Hg Hr Hi.
  apply getTrack_stream in Hg.
  by eapply (stopped_tracks_ended _ h r0 i tracks t' Hls Hss).
Qed.


(** *** Tracks *)

(** The first track of a kind, with its place in the stream. *)
Lemma filter_imap_head (k : TrackKind) (g : nat → nat) (ms : MediaStream) a t rest :
  filter (λ p, kind p.2 = k) (imap (λ i t, (g i, t)) ms) = (a, t) :: rest →
  ∃ i, a = g i ∧ ms !! i = Some t ∧ kind t = k ∧
       ∀ j t', j < i → ms !! j = Some t' → kind t' ≠ k.
Proof.
  revert g. induction ms as [|x ms IH]; intros g; [done|].
  rewrite imap_cons. destruct (decide (kind x = k)) as [Hx|Hx].
  - rewrite filter_cons_True by done. intros [= <- <- _].
    exists 0. split_and!; [done..|]. intros j t' Hj. lia.
  - rewrite filter_cons_False by done. intros Hf.
    destruct (IH (g ∘ S) Hf) as (i & -> & Hi & Hk & Hfirst).
    exists (S i). split_and!; [done..|].
    intros [|j] t' Hj; simpl; [by intros [= <-]|].
    apply Hfirst. lia.
Qed.

Lemma tracksOf_head (k : TrackKind) (ms : MediaStream) i t rest :
  tracksOf k ms = (i, t) :: rest →
  ms !! i = Some t ∧ kind t = k ∧ ∀ j t', j < i → ms !! j = Some t' → kind t' ≠ k.
Proof.
  intros H. destruct (filter_imap_head k id ms i t rest H) as (i' & -> & ?). done.
Qed.

(** X13.  The track [getTrack] returns is the first track of the local
    stream that is of the kind asked for (audio, or video for the camera
    and for the screen); for the screen it is a screen track and for the
    camera it is not, so that a stream never gives a camera track and a
    screen track at once. *)
Theorem getTrack_first_of_kind (videoType : VideoType) (s : Handler)
    (r : MediaStreamRef) (i : nat) :
  getTrack videoType s = Some (r, i) →
  localStream s = Some r ∧
  (∃ tracks t,
     streams s !! r = Some tracks ∧ tracks !! i = Some t ∧
     kind t = match videoType with AUDIO => audio | _ => video end ∧
     (videoType = SHARE → isShare t = true) ∧
     (videoType = VIDEO → isShare t = false) ∧
     ∀ j t', j < i → tracks !! j = Some t' → kind t' ≠ kind t) ∧
  (videoType = VIDEO → getTrack SHARE s = None) ∧
  (videoType = SHARE → getTrack VIDEO s = None).
Proof.
  unfold getTrack. destruct (localStream s) as [r'|]; [|done].
  destruct (streams s !! r') as [tracks|] eqn:Hr; simpl; [|done].
  destruct videoType; simpl;
    destruct (tracksOf _ tracks) as [|[j t] rest] eqn:Ht; try done;
    destruct (tracksOf_head _ _ _ _ _ Ht) as (Hj & Hk & Hfirst);
    destruct (isShare t) eqn:Hshare; simpl; intros [= <- <-];
    (split_and!; [done| |done..]);
    exists tracks, t; rewrite Hk; by split_and!.
Qed.

Lemma getTrack_first_of_kind_witness :
  localStream Scenarios.Calls.inCall = Some 0 ∧
  (∃ tracks t,
     streams Scenarios.Calls.inCall !! 0 = Some tracks ∧ tracks !! 0 = Some t ∧
     kind t = audio ∧
     (AUDIO = SHARE → isShare t = true) ∧
     (AUDIO = VIDEO → isShare t = false) ∧
     ∀ j t', j < 0 → tracks !! j = Some t' → kind t' ≠ kind t) ∧
  (AUDIO = VIDEO → getTrack SHARE Scenarios.Calls.inCall = None) ∧
  (AUDIO = SHARE → getTrack VIDEO Scenarios.Calls.inCall = None).
Proof.
  apply (getTrack_first_of_kind AUDIO Scenarios.Calls.inCall 0 0). reflexivity.
Defined.

(** X14.  Toggling a device whose track is live only sets the [enabled]
    flag of that track to the flag of the store for that device, and logs
    it: the devices are not asked again, nobody is notified, and every
    other track and field of the handler stays as it was. *)
Theorem toggleDevice_live_track (env : Browser) (callInfo : Model.CallsInfoModel)
    (videoType : VideoType) (s : Handler) (ref : MediaStreamRef * nat)
    (t : MediaStreamTrack) :
  getTrack videoType s = Some ref →
  trackAt s ref = Some t →
  readyState t = live →
  let state := match videoType with
               | AUDIO => Model.showMic callInfo
               | SHARE => Model.shareScreen callInfo
               | VIDEO => Model.showVideo callInfo
               end in
  outcome (toggleDevice env callInfo videoType s) = Ret tt ∧
  trace (toggleDevice env callInfo videoType s) = [Log "toggleDevice"] ∧
  trackAt (final (toggleDevice env callInfo videoType s)) ref = Some (set_enabled state t) ∧
  (∀ ref', ref' ≠ ref →
     trackAt (final (toggleDevice env callInfo videoType s)) ref' = trackAt s ref') ∧
  set_streams (streams s) (final (toggleDevice env callInfo videoType s)) = s.
Proof.
  destruct ref as [r i]. unfold trackAt, toggleDevice. simpl. intros Hg Ht Hlive.
  run. rewrite Hg.
  destruct (streams s !! r) as [tracks|] eqn:Hr; simpl in Ht; [|done].
  rewrite Ht, bool_decide_eq_true_2 by done.
  destruct s as [rid cid ids ws ls ap st acc ss]; simpl in *.
  split_and!; [done..| | |done].
  - rewrite list_lookup_insert_eq by apply (lookup_lt_Some _ _ _ Hr).
    apply (list_lookup_insert_eq tracks i), (lookup_lt_Some _ _ _ Ht).
  - intros [r' i'] Hne. simpl. destruct (decide (r' = r)) as [->|Hr'].
    + rewrite list_lookup_insert_eq by apply (lookup_lt_Some _ _ _ Hr). rewrite Hr.
      apply (list_lookup_insert_ne tracks). congruence.
    + by rewrite list_lookup_insert_ne by done.
Qed.

Lemma toggleDevice_live_track_witness :
  let s := Scenarios.Calls.inCall in
  let callInfo := Model.callInfo MoreScenarios.Chat.lobby in
  outcome (toggleDevice Scenarios.Calls.devices callInfo AUDIO s) = Ret tt ∧
  trace (toggleDevice Scenarios.Calls.devices callInfo AUDIO s) = [Log "toggleDevice"] ∧
  trackAt (final (toggleDevice Scenarios.Calls.devices callInfo AUDIO s)) (0, 0) =
    Some (set_enabled (Model.showMic callInfo) Scenarios.Calls.microphone) ∧
  (∀ ref', ref' ≠ (0, 0) →
     trackAt (final (toggleDevice Scenarios.Calls.devices callInfo AUDIO s)) ref' =
     trackAt s ref') ∧
  set_streams (streams s) (final (toggleDevice Scenarios.Calls.devices callInfo AUDIO s)) = s.
Proof.
  apply (toggleDevice_live_track Scenarios.Calls.devices
           (Model.callInfo MoreScenarios.Chat.lobby) AUDIO Scenarios.Calls.inCall (0, 0)
           Scenarios.Calls.microphone); reflexivity.
Defined.

(** *** Devices *)

Lemma inflate_step_counters (st : Inflating) (d : MediaDeviceInfo) :
  n st = None → k st = None →
  n (inflate st d) = None ∧ k (inflate st d) = None ∧
  c (inflate st d) =
    if decide (device_kind d = videoinput ∧ truthy (Some (label d)) = false)
    then N.succ <$> c st else c st.
Proof.
  intros Hn Hk. destruct d as [kd id lb]. unfold inflate. simpl.
  destruct kd, (negb (String.eqb lb "")) eqn:Hlb; simpl; rewrite ?Hn, ?Hk;
    by split_and!.
Qed.

Lemma inflate_counters (l : list MediaDeviceInfo) (st : Inflating) :
  n st = None → k st = None →
  n (foldl inflate st l) = None ∧ k (foldl inflate st l) = None ∧
  c (foldl inflate st l) =
    (λ x, x + N.of_nat (length (unlabelled videoinput l)))%N <$> c st.
Proof.
  revert st. induction l as [|d l IH]; intros st Hn Hk.
  { simpl. split_and!; [done..|]. destruct (c st); simpl; [|done]. f_equal. lia. }
  cbn [foldl].
  destruct (inflate_step_counters st d Hn Hk) as (Hn' & Hk' & Hc').
  destruct (IH (inflate st d) Hn' Hk') as (-> & -> & ->).
  split_and!; [done..|]. rewrite Hc'. unfold unlabelled.
  case_decide as Hd.
  - rewrite filter_cons_True by done. destruct (c st); simpl; [|done]. f_equal. lia.
  - by rewrite filter_cons_False by done.
Qed.

Lemma inflate_keeps (l : list MediaDeviceInfo) (st : Inflating)
    (kind : MediaDeviceKind) (id : string) :
  (∀ d, d ∈ l → device_kind d = kind → deviceId d ≠ id) →
  devicesOf kind (foldl inflate st l) !! id = devicesOf kind st !! id.
Proof.
  revert st. induction l as [|d l IH]; intros st Hl; simpl; [done|].
  rewrite IH by (intros d' Hd'; apply Hl; by right).
  specialize (Hl d ltac:(by left)).
  destruct d as [kd id' lb]. unfold inflate. simpl in *.
  destruct kd, kind, (negb (String.eqb lb "")); simpl; try done;
    by rewrite lookup_insert_ne by (by apply Hl).
Qed.

(** X15.  [inflateDevices] files each device under its kind, with its
    label when it has one.  An unlabelled camera is shown as [Camera i],
    the unlabelled cameras being counted from 1; an unlabelled microphone
    or speaker is shown as [Microphone NaN] or [Speaker NaN], whichever its
    place, since the counters for these are never given a value.  A later
    device of the same kind and id takes the place of an earlier one. *)
Theorem inflateDevices_labels (before after : list MediaDeviceInfo)
    (d : MediaDeviceInfo) (s : Handler) :
  (∀ d', d' ∈ after → device_kind d' = device_kind d → deviceId d' ≠ deviceId d) →
  ∃ mics cams spks,
    inflateDevices (Some (before ++ d :: after)) s =
      (Ret tt, s, [Commit (DefaultStore.SetDevices mics cams spks)]) ∧
    match device_kind d with
    | audioinput => mics
    | audiooutput => spks
    | videoinput => cams
    end !! deviceId d = Some (labelOr (label d) (fallback (device_kind d) before)).
Proof.
  intros Hafter. unfold inflateDevices. eexists _, _, _. split; [reflexivity|].
  simpl. rewrite foldl_app. simpl.
  pose proof (inflate_keeps after (inflate (foldl inflate inflating before) d)
                (device_kind d) (deviceId d) Hafter) as Hkeep.
  destruct (inflate_counters before inflating eq_refl eq_refl) as (Hn & Hk & Hc).
  simpl in Hc.
  assert (Hstep : devicesOf (device_kind d) (inflate (foldl inflate inflating before) d)
                    !! deviceId d
                  = Some (labelOr (label d) (fallback (device_kind d) before))).
  { clear Hkeep. revert Hn Hk Hc. generalize (foldl inflate inflating before).
    intros st Hn Hk Hc. unfold inflate, labelOr, fallback. rewrite Hn, Hk, Hc.
    destruct d as [kd id lb]. simpl.
    destruct kd, (negb (String.eqb lb "")); simpl; rewrite lookup_insert_eq; try done.
    do 3 f_equal. lia. }
  rewrite <- Hstep, <- Hkeep. by destruct (device_kind d).
Qed.

Lemma inflateDevices_labels_witness :
  ∃ mics cams spks,
    inflateDevices
      (Some (MoreScenarios.Placing.builtIn ++
             mkDevice videoinput "usb" "" :: MoreScenarios.Placing.plugged))
      Scenarios.Calls.inCall =
      (Ret tt, Scenarios.Calls.inCall, [Commit (DefaultStore.SetDevices mics cams spks)]) ∧
    cams !! "usb" = Some "Camera 2".
Proof.
  apply (inflateDevices_labels MoreScenarios.Placing.builtIn MoreScenarios.Placing.plugged
           (mkDevice videoinput "usb" "") Scenarios.Calls.inCall).
  intros d' ->%list_elem_of_singleton. discriminate.
Defined.

End CallControlProofs.

(** ** Placing a call: the devices, the store and the relay *)
Module CallSessionProofs.
Import Js Eff Messages CallHandler EffFacts CallSession.
















Section steady.
Context (ALL_ROOM_ID : Model.number).











End steady.

(** A call placed from the lobby; one that fails at the screen after the
    microphone and the camera were captured, which stay live; one for a
    room that the store does not have. *)
Example offerCall_examples :
  let placed := offerCall 1%Z MoreScenarios.Capture.studio MoreScenarios.Capture.inLobby in
  let failed := offerCall 1%Z MoreScenarios.Capture.studio MoreScenarios.Capture.sharing in
  let lost := offerCall 1%Z MoreScenarios.Capture.studio MoreScenarios.Capture.astray in
  (outcome placed = Ret tt ∧ offers (trace placed) = [1%Z] ∧
   localStream (handler (final placed)) = Some 0) ∧
  (outcome failed = Ret tt ∧ offers (trace failed) = [] ∧ stops (trace failed) = [] ∧
   localStream (handler (final failed)) = None ∧
   streams (handler (final failed)) =
     [[Scenarios.Calls.microphone; Scenarios.Calls.camera]]) ∧
  outcome lost = Throw TypeError.
Proof. vm_compute. by repeat split. Qed.

End CallSessionProofs.

(** ** Offers and answers *)
Module NegotiationProofs.
Import Js Eff Messages AbstractPeerConnection Negotiation EffFacts.

(** The link events of [onsendRtcData] with its callbacks are those of
    [onsendRtcData] alone, followed by those of the callback. *)
Lemma onsendRtcData_extends (env : Platform) (message : OnSendRtcDataMessage) (s : PeerConn) :
  ∃ rest, linked (trace (Negotiation.onsendRtcData env message s)) =
          trace (AbstractPeerConnection.onsendRtcData message s) ++ rest.
Proof.
  unfold Negotiation.onsendRtcData, AbstractPeerConnection.onsendRtcData, handleAnswer,
    respondeOffer, failWebRtc, withBitrate, sendWebRtcEvent.
  destruct s as [rid cid opp oc q p st ch conn]. run.
  destruct conn; simpl; [|by exists []].
  destruct p as [p|]; simpl; [|by exists []].
  destruct (decide (iceConnectionState p = ice_closed)); simpl; [by exists []|].
  destruct (truthy (sdp (content message))); simpl.
  - destruct (remote env); simpl; [|by eexists].
    destruct oc; simpl; [by eexists|].
    destruct (created env) as [[text|]|]; simpl; try by eexists.
    + destruct (negb (String.eqb text "")); simpl.
      * destruct (Sdp.setMediaBitrate text 1638400); simpl; [|by eexists].
        destruct (described env); simpl; by eexists.
      * destruct (described env); simpl; by eexists.
    + destruct (described env); simpl; by eexists.
  - destruct (truthy (candidate (content message))); simpl; [by exists []|].
    destruct (truthy (Messages.message (content message))); by exists [].
Qed.

(** X16.  [createOffer] and [respondeOffer] set at most one local
    description, an offer for the first and an answer for the second; what
    they send to the peer is that description, and only once the platform
    has accepted it: nothing is sent when creating or setting the
    description fails.  The first leaves the link marked as the creator of
    the offer, the second as not, whatever the platform answers. *)
Theorem description_sent_once_set (env : Platform) (s : PeerConn) :
  orderly offer env (createOffer env s) ∧
  orderly answer env (respondeOffer env s) ∧
  offerCreator (final (createOffer env s)) = true ∧
  offerCreator (final (respondeOffer env s)) = false.
Proof.
  unfold orderly, createOffer, respondeOffer, failWebRtc, withBitrate, sendWebRtcEvent.
  destruct s as [rid cid opp oc q p st ch conn], env as [cr de re]. run.
  destruct p as [p|]; simpl;
    [|split_and!; try done; try (by left); by constructor].
  destruct cr as [[text|]|e]; simpl.
  - destruct (negb (String.eqb text "")); simpl;
      [destruct (Sdp.setMediaBitrate text 1638400) as [out|e']; simpl|];
      try destruct de as [[]|e'']; simpl;
      (split_and!; try done; try lia;
       try (by left); try (by right); try (by repeat constructor);
       try (intros [?|[? ?]]; done)).
  - destruct de as [[]|e'']; simpl;
      (split_and!; try done; try lia;
       try (by left); try (by right); try (by repeat constructor);
       try (intros [?|[? ?]]; done)).
  - split_and!; try done; try lia; try (by left); by constructor.
Qed.

Lemma ready_run (s : PeerConn) :
  ready s → ∃ rid cid opp oc q p st ch,
    s = {| roomId := rid; connectionId := cid; opponentWsId := opp; offerCreator := oc;
           sendRtcDataQueue := q; pc := Some p; connectionStatus := st; sendChannel := ch;
           connectedToRemote := true |} ∧ iceConnectionState p ≠ ice_closed.
Proof.
  destruct s as [rid cid opp oc q p st ch conn]. intros [Hc (p' & Hp & Hice)].
  simpl in *. subst. by eexists _, _, _, _, _, _, _, _.
Qed.

Lemma createOffer_final (env : Platform) (s : PeerConn) :
  final (createOffer env s) = set_offerCreator true s.
Proof.
  unfold createOffer, failWebRtc, withBitrate, sendWebRtcEvent.
  destruct s as [rid cid opp oc q p st ch conn], env as [cr de re]. run.
  destruct p as [p|]; simpl; [|done].
  destruct cr as [[text|]|e]; simpl; try done.
  - destruct (negb (String.eqb text "")); simpl;
      [destruct (Sdp.setMediaBitrate text 1638400); simpl; [|done]|]; by destruct de.
  - by destruct de.
Qed.

Lemma createOffer_sent (env : Platform) (s : PeerConn) (d : SessionDescription) :
  sent (trace (createOffer env s)) = [d] → type d = offer.
Proof.
  unfold createOffer, failWebRtc, withBitrate, sendWebRtcEvent.
  destruct s as [rid cid opp oc q p st ch conn], env as [cr de re]. run.
  destruct p as [p|]; simpl; [|done].
  destruct cr as [[text|]|e]; simpl; try done.
  - destruct (negb (String.eqb text "")); simpl;
      [destruct (Sdp.setMediaBitrate text 1638400); simpl; [|done]|];
      destruct de; simpl; try done; by intros [= <-].
  - destruct de; simpl; try done; by intros [= <-].
Qed.

(** A description that reaches the creator of the offer. *)
Lemma receive_as_creator (env : Platform) (message : OnSendRtcDataMessage) (s : PeerConn) :
  ready s → offerCreator s = true → truthy (sdp (content message)) = true →
  sent (trace (Negotiation.onsendRtcData env message s)) = [] ∧
  answersCreated (trace (Negotiation.onsendRtcData env message s)) = 0 ∧
  offersCreated (trace (Negotiation.onsendRtcData env message s)) = 0 ∧
  linked (trace (Negotiation.onsendRtcData env message s)) !! 1 =
    Some (SetRemoteDescription (content message)) ∧
  (remote env = Ret tt →
   offerCreator (final (Negotiation.onsendRtcData env message s)) = false).
Proof.
  intros (? & ? & ? & oc & ? & p & ? & ? & -> & Hp)%ready_run Hoc Hsdp.
  simpl in Hoc. subst oc.
  unfold Negotiation.onsendRtcData, handleAnswer, failWebRtc, answersCreated, offersCreated.
  run. rewrite decide_False by done. rewrite Hsdp.
  destruct (remote env) as [[]|]; simpl; by split_and!.
Qed.

(** A description that reaches a link that did not create an offer. *)
Lemma receive_as_other (env : Platform) (message : OnSendRtcDataMessage) (s : PeerConn)
    (d : SessionDescription) :
  ready s → offerCreator s = false → truthy (sdp (content message)) = true →
  sent (trace (Negotiation.onsendRtcData env message s)) = [d] →
  type d = answer ∧
  answersCreated (trace (Negotiation.onsendRtcData env message s)) = 1 ∧
  offerCreator (final (Negotiation.onsendRtcData env message s)) = false.
Proof.
  intros (? & ? & ? & oc & ? & p & ? & ? & -> & Hp)%ready_run Hoc Hsdp.
  simpl in Hoc. subst oc.
  unfold Negotiation.onsendRtcData, handleAnswer, respondeOffer, failWebRtc, withBitrate,
    sendWebRtcEvent, answersCreated.
  destruct env as [cr de re]. run. rewrite decide_False by done. rewrite Hsdp.
  destruct re as [[]|]; simpl; [|done].
  destruct cr as [[text|]|e]; simpl; try done.
  - destruct (negb (String.eqb text "")); simpl;
      [destruct (Sdp.setMediaBitrate text 1638400); simpl; [|done]|];
      destruct de; simpl; try done; by intros [= <-].
  - destruct de; simpl; try done; by intros [= <-].
Qed.

(** X17.  An offer is answered once and the answer is not answered.  When
    the offer a link created reaches a link that can negotiate and is not
    itself the creator of an offer, that link creates one answer and sends
    it; when this answer reaches the first link, it is applied there and
    the first link creates neither an answer nor an offer and sends
    nothing, so the exchange ends; afterwards neither link is marked as
    the creator of an offer. *)
Theorem offer_answered_once (envA envB envA' : Platform) (a b : PeerConn)
    (dA dB : SessionDescription) :
  ready a → ready b → offerCreator b = false →
  sent (trace (createOffer envA a)) = [dA] →
  truthy (description_sdp dA) = true →
  sent (trace (Negotiation.onsendRtcData envB (relayed dA) b)) = [dB] →
  truthy (description_sdp dB) = true →
  type dA = offer ∧ type dB = answer ∧
  answersCreated (trace (Negotiation.onsendRtcData envB (relayed dA) b)) = 1 ∧
  offerCreator (final (Negotiation.onsendRtcData envB (relayed dA) b)) = false ∧
  sent (trace (Negotiation.onsendRtcData envA' (relayed dB) (final (createOffer envA a))))
    = [] ∧
  answersCreated
    (trace (Negotiation.onsendRtcData envA' (relayed dB) (final (createOffer envA a)))) = 0 ∧
  offersCreated
    (trace (Negotiation.onsendRtcData envA' (relayed dB) (final (createOffer envA a)))) = 0 ∧
  linked (trace (Negotiation.onsendRtcData envA' (relayed dB) (final (createOffer envA a))))
    !! 1 = Some (SetRemoteDescription (content (relayed dB))) ∧
  (remote envA' = Ret tt →
   offerCreator
     (final (Negotiation.onsendRtcData envA' (relayed dB) (final (createOffer envA a))))
   = false).
Proof.
  intros Ha Hb Hocb HsentA HtA HsentB HtB.
  rewrite createOffer_final.
  destruct (receive_as_creator envA' (relayed dB) (set_offerCreator true a))
    as (? & ? & ? & ? & ?); [by destruct a|by destruct a|done|].
  destruct (receive_as_other envB (relayed dA) b dB) as (? & ? & ?); [done..|].
  split_and!; try done. by eapply createOffer_sent.
Qed.

Lemma offer_answered_once_witness :
  let a := MoreScenarios.Exchange.offerer in
  let b := MoreScenarios.Exchange.answerer in
  let env := MoreScenarios.Exchange.willing in
  let dA := {| type := offer; description_sdp := Some "v=0" |} in
  let dB := {| type := answer; description_sdp := Some "v=0" |} in
  type dA = offer ∧ type dB = answer ∧
  answersCreated (trace (Negotiation.onsendRtcData env (relayed dA) b)) = 1 ∧
  offerCreator (final (Negotiation.onsendRtcData env (relayed dA) b)) = false ∧
  sent (trace (Negotiation.onsendRtcData env (relayed dB) (final (createOffer env a))))
    = [] ∧
  answersCreated
    (trace (Negotiation.onsendRtcData env (relayed dB) (final (createOffer env a)))) = 0 ∧
  offersCreated
    (trace (Negotiation.onsendRtcData env (relayed dB) (final (createOffer env a)))) = 0 ∧
  linked (trace (Negotiation.onsendRtcData env (relayed dB) (final (createOffer env a))))
    !! 1 = Some (SetRemoteDescription (content (relayed dB))) ∧
  (remote env = Ret tt →
   offerCreator
     (final (Negotiation.onsendRtcData env (relayed dB) (final (createOffer env a))))
   = false).
Proof.
  apply (offer_answered_once MoreScenarios.Exchange.willing MoreScenarios.Exchange.willing
           MoreScenarios.Exchange.willing MoreScenarios.Exchange.offerer
           MoreScenarios.Exchange.answerer
           {| type := offer; description_sdp := Some "v=0" |}
           {| type := answer; description_sdp := Some "v=0" |}).
  - split; [reflexivity|]. eexists. split; [reflexivity|]. discriminate.
  - split; [reflexivity|]. eexists. split; [reflexivity|]. discriminate.
  - reflexivity.
  - reflexivity.
  - reflexivity.
  - reflexivity.
  - reflexivity.
Defined.

End NegotiationProofs.

(** ** The database *)
Module DatabaseProofs.
Import Js Eff Model DatabaseWrapper EffFacts.

(** Case analysis on [m !! k] as it stands in the goal. *)
Tactic Notation "cases_lookup" constr(k) "in" constr(m) "as" simple_intropattern(p)
    "eqn" ":" ident(H) :=
  unfold number in *;
  match goal with
  | |- context [@lookup ?K ?A ?M ?I k m] => destruct (@lookup K A M I k m) as p eqn:H
  end.

Lemma setRoomHeaderId_greatest (roomId headerId : number) (s : Db)
    (ids : list (number * number)) :
  headerId ≠ 0%Z →
  greatestOf (cache s) ids →
  greatestOf (cache (final (setRoomHeaderId roomId headerId s)))
             (ids ++ [(roomId, headerId)]) ∧
  db (final (setRoomHeaderId roomId headerId s)) = db s.
Proof.
  intros Hnz Hg. unfold setRoomHeaderId. run. split; [|by case_match].
  intros k. pose proof (Hg roomId) as Hr. specialize (Hg k).
  unfold number in *.
  assert (Hother : k ≠ roomId →
            match cache s !! k with
            | Some x => (k, x) ∈ ids ++ [(roomId, headerId)] ∧ x ≠ 0%Z ∧
                        ∀ v, (k, v) ∈ ids ++ [(roomId, headerId)] → (v ≤ x)%Z
            | None => ∀ v, (k, v) ∉ ids ++ [(roomId, headerId)]
            end).
  { intros Hk. revert Hg. cases_lookup k in (cache s) as [x|] eqn:Hx.
    - intros (Hin & Hxz & Hle). split_and!; [apply elem_of_app; by left|done|].
      intros v [?|[= ? ?]%list_elem_of_singleton]%elem_of_app; [by apply Hle|done].
    - intros Hno v [Hv|[= ? ?]%list_elem_of_singleton]%elem_of_app; [by apply Hno in Hv|done]. }
  revert Hr. unfold StoreViews.falsy.
  cases_lookup roomId in (cache s) as [x|] eqn:Hx; simpl.
  - intros (Hin & Hxz & Hle). destruct (Z.eqb_spec x 0); [done|]. simpl.
    destruct (Z.ltb_spec x headerId); simpl.
    + destruct (decide (k = roomId)) as [->|Hk].
      * rewrite lookup_insert_eq. split_and!; [|done|].
        -- apply elem_of_app. right. by apply list_elem_of_singleton.
        -- intros v [Hv|[= ->]%list_elem_of_singleton]%elem_of_app; [|lia].
           specialize (Hle _ Hv). lia.
      * rewrite lookup_insert_ne by done. by apply Hother.
    + destruct (decide (k = roomId)) as [->|Hk]; [|by apply Hother].
      rewrite Hx. split_and!; [apply elem_of_app; by left|done|].
      intros v [Hv|[= ->]%list_elem_of_singleton]%elem_of_app; [by apply Hle|lia].
  - intros Hno. destruct (decide (k = roomId)) as [->|Hk].
    + rewrite lookup_insert_eq. split_and!; [|done|].
      * apply elem_of_app. right. by apply list_elem_of_singleton.
      * intros v [Hv|[= ->]%list_elem_of_singleton]%elem_of_app; [by apply Hno in Hv|lia].
    + rewrite lookup_insert_ne by done. by apply Hother.
Qed.

Lemma insertMessage_greatest (m : MessageModel) (s : Db) (ids : list (number * number)) :
  msg_id m ≠ 0%Z →
  greatestOf (cache s) ids →
  outcome (insertMessage m s) = Ret tt ∧
  greatestOf (cache (final (insertMessage m s))) (ids ++ [(msg_roomId m, msg_id m)]) ∧
  db (final (insertMessage m s)) = db s.
Proof.
  intros Hnz Hg.
  destruct (setRoomHeaderId_greatest (msg_roomId m) (msg_id m) s ids Hnz Hg) as [Hc Hd].
  unfold insertMessage. unfold setRoomHeaderId in *. revert Hc Hd. run.
  by case_match.
Qed.

Lemma forEach_insertMessage_greatest (ms : list MessageModel) (s : Db)
    (ids : list (number * number)) :
  Forall (λ m, msg_id m ≠ 0%Z) ms →
  greatestOf (cache s) ids →
  outcome (forEach ms insertMessage s) = Ret tt ∧
  greatestOf (cache (final (forEach ms insertMessage s)))
             (ids ++ ((λ m, (msg_roomId m, msg_id m)) <$> ms)) ∧
  db (final (forEach ms insertMessage s)) = db s.
Proof.
  intros Hms. revert s ids. induction Hms as [|m ms Hm Hms IH]; intros s ids Hg.
  { simpl. by rewrite app_nil_r. }
  destruct (insertMessage_greatest m s ids Hm Hg) as (Ho & Hc & Hd).
  specialize (IH (final (insertMessage m s)) _ Hc). destruct IH as (Ho' & Hc' & Hd').
  cbn [forEach]. unfold bind, outcome, final in *.
  destruct (insertMessage m s) as [[o s1] t1]; simpl in *. subst o.
  destruct (forEach ms insertMessage s1) as [[o2 s2] t2]; simpl in *.
  rewrite ?fmap_cons, (cons_middle _ ids), app_assoc. split_and!; [done..|congruence].
Qed.

Lemma write_opened {A} (cb : Writing A) (s : Db) : db s = true → write cb s = cb s.
Proof.
  intros Hdb. unfold write, transaction. run. rewrite Hdb.
  by destruct (cb s) as [[? ?] ?].
Qed.

Lemma headerCall_greatest (c : HeaderCall) (s : Db) (ids : list (number * number)) :
  db s = true →
  Forall (λ p, p.2 ≠ 0%Z) (headerIds c) →
  greatestOf (cache s) ids →
  greatestOf (cache (final (headerCall c s))) (ids ++ headerIds c) ∧
  db (final (headerCall c s)) = true.
Proof.
  intros Hdb Hnz Hg. destruct c as [m|ms|roomId headerId]; simpl in *.
  - apply Forall_cons in Hnz as [Hm _]. simpl in Hm.
    destruct (insertMessage_greatest m s ids Hm Hg) as (_ & Hc & Hd).
    unfold saveMessage. rewrite write_opened by done. by rewrite Hd.
  - rewrite Forall_fmap in Hnz.
    destruct (forEach_insertMessage_greatest ms s ids Hnz Hg) as (_ & Hc & Hd).
    unfold saveMessages. rewrite write_opened by done. by rewrite Hd.
  - apply Forall_cons in Hnz as [Hm _]. simpl in Hm.
    destruct (setRoomHeaderId_greatest roomId headerId s ids Hm Hg) as [Hc Hd].
    by rewrite Hd.
Qed.

(** X19.  Whatever messages are saved and header ids set on a connected
    database storage, its cache holds for each room the greatest id given
    for that room, and none for a room that was given none; this as long as
    no id is 0. *)
Theorem cache_holds_greatest_id (cs : list HeaderCall) (s : Db) :
  db s = true →
  cache s = ∅ →
  Forall (λ c, Forall (λ p, p.2 ≠ 0%Z) (headerIds c)) cs →
  greatestOf (cache (headerCalls cs s)) (concat (headerIds <$> cs)).
Proof.
  intros Hdb Hcache Hcs.
  assert (Hgen : ∀ ids s, db s = true → greatestOf (cache s) ids →
            greatestOf (cache (headerCalls cs s)) (ids ++ concat (headerIds <$> cs))).
  { clear s Hdb Hcache. induction Hcs as [|c cs Hc Hcs IH]; intros ids s Hdb Hg.
    { simpl. by rewrite app_nil_r. }
    destruct (headerCall_greatest c s ids Hdb Hc Hg) as [Hg' Hdb'].
    rewrite fmap_cons, concat_cons, app_assoc. by apply IH. }
  apply (Hgen [] s Hdb). intros k. rewrite Hcache, lookup_empty.
  intros v Hv. by apply elem_of_nil in Hv.
Qed.

Lemma cache_holds_greatest_id_witness :
  greatestOf (cache (headerCalls MoreScenarios.Database.calls MoreScenarios.Database.opened))
             (concat (headerIds <$> MoreScenarios.Database.calls)).
Proof.
  apply (cache_holds_greatest_id MoreScenarios.Database.calls MoreScenarios.Database.opened).
  - reflexivity.
  - reflexivity.
  - repeat constructor; simpl; lia.
Defined.

(** *** Reading back what was written *)

Lemma map_is_fmap {A B} (f : A → B) (l : list A) : map f l = f <$> l.
Proof. induction l as [|x l IH]; [done|]. simpl. by rewrite IH. Qed.

Lemma statements_leaves {A} (mk : A → Statement) (l : list A) :
  concat (map statements ((λ x, Exec (mk x) []) <$> l)) = mk <$> l.
Proof.
  induction l as [|x l IH]; [done|]. rewrite !fmap_cons.
  cbn [map concat statements app]. f_equal. exact IH.
Qed.

Lemma omap_step {A B} (f : A → option B) (x : A) (l : list A) :
  omap f (x :: l) = match f x with Some y => y :: omap f l | None => omap f l end.
Proof. reflexivity. Qed.

Lemma omap_fmap_Some {A B C} (f : B → option C) (g : A → B) (h : A → C) (l : list A) :
  (∀ x, f (g x) = Some (h x)) → omap f (g <$> l) = h <$> l.
Proof.
  intros H. induction l as [|x l IH]; [done|]. rewrite !fmap_cons. simpl.
  rewrite H. simpl. f_equal. exact IH.
Qed.

Lemma omap_fmap_None {A B C} (f : B → option C) (g : A → B) (l : list A) :
  (∀ x, f (g x) = None) → omap f (g <$> l) = [].
Proof.
  intros H. induction l as [|x l IH]; [done|]. rewrite !fmap_cons. simpl.
  rewrite H. exact IH.
Qed.

Lemma loadUser_userRow (u : UserModel) : loadUser (userRow u) = u.
Proof. destruct u as [? ? [] []]; reflexivity. Qed.

Lemma loadProfile_profileRow (p : CurrentUserInfoModel) : loadProfile (profileRow p) = p.
Proof. destruct p as [? ? ? ? ? ? ? ? []]; reflexivity. Qed.

Lemma loadSettings_settingsRow (st : CurrentUserSettingsModel) :
  loadSettings (settingsRow st) = st.
Proof. destruct st as [[] [] [] [] [] [] [] ? []]; reflexivity. Qed.

Lemma loadRoom_roomRow (r : RoomModel) :
  loadRoom (roomRow (settingsOf r)) =
  Converters.getRoomsBaseDict (room_id r) (volume r) (notifications r) (name r) [] None.
Proof. unfold loadRoom. simpl. by destruct (notifications r). Qed.

(** A dictionary filled from a list. *)
Lemma filled_other {A B} (key : A → Z) (val : A → B) (l : list A) (d : gmap Z B) (k : Z) :
  k ∉ key <$> l → foldl (λ d x, <[key x := val x]> d) d l !! k = d !! k.
Proof.
  revert d. induction l as [|x l IH]; intros d Hk; [done|].
  rewrite fmap_cons in Hk. apply not_elem_of_cons in Hk as [Hx Hk].
  cbn [foldl]. rewrite IH by done. by rewrite lookup_insert_ne.
Qed.

Lemma filled_elem {A B} (key : A → Z) (val : A → B) (l : list A) (d : gmap Z B) (x : A) :
  NoDup (key <$> l) → x ∈ l →
  foldl (λ d x, <[key x := val x]> d) d l !! key x = Some (val x).
Proof.
  revert d. induction l as [|y l IH]; intros d Hnd Hx; [by apply elem_of_nil in Hx|].
  rewrite fmap_cons in Hnd. apply NoDup_cons in Hnd as [Hy Hnd].
  cbn [foldl]. apply elem_of_cons in Hx as [->|Hx].
  - rewrite filled_other by done. apply lookup_insert_eq.
  - by apply IH.
Qed.

Lemma filled_values {A B} (key : A → Z) (val : A → B) (l : list A) (k : Z) (v : B) :
  foldl (λ d x, <[key x := val x]> d) (∅ : gmap Z B) l !! k = Some v →
  ∃ x, x ∈ l ∧ v = val x.
Proof.
  assert (Hgen : ∀ d : gmap Z B, foldl (λ d x, <[key x := val x]> d) d l !! k = Some v →
            (∃ x, x ∈ l ∧ v = val x) ∨ d !! k = Some v).
  { induction l as [|y l IH]; intros d Hv; [by right|].
    cbn [foldl] in Hv. destruct (IH _ Hv) as [(x & Hx & ->)|Hd].
    - left. exists x. split; [by right|done].
    - destruct (decide (key y = k)) as [<-|Hne].
      + rewrite lookup_insert_eq in Hd. injection Hd as <-. left. exists y.
        split; [by left|done].
      + rewrite lookup_insert_ne in Hd by done. by right. }
  intros Hv. destruct (Hgen ∅ Hv) as [?|Hd]; [done|]. by rewrite lookup_empty in Hd.
Qed.

Lemma pushUsers (rooms : gmap Z RoomModel) (roomId : number) (r : RoomModel)
    (us : list number) :
  rooms !! roomId = Some r →
  foldl pushUser (Ret rooms) (mkRoomUsersDB roomId <$> us) =
  Ret (<[roomId := set_users (users r ++ us) r]> rooms).
Proof.
  revert rooms r. induction us as [|u us IH]; intros rooms r Hr.
  { simpl. rewrite app_nil_r. f_equal. symmetry. apply insert_id. rewrite Hr.
    by destruct r. }
  rewrite fmap_cons. cbn [foldl pushUser rudb_room_id rudb_user_id]. unfold number in *.
  rewrite Hr.
  rewrite (IH _ (set_users (users r ++ [u]) r)) by apply lookup_insert_eq.
  rewrite insert_insert_eq. do 2 f_equal. destruct r; simpl. by rewrite <- app_assoc.
Qed.

(** The room as the loop over [dbRooms] builds it: nobody in it yet. *)
Lemma reloaded_users (r : RoomModel) :
  set_users ([] ++ users r) (loadRoom (roomRow (settingsOf r))) = reloaded r.
Proof. rewrite loadRoom_roomRow. reflexivity. Qed.

Lemma pushUsers_all (rooms : list RoomModel) (d : gmap Z RoomModel) :
  NoDup (room_id <$> rooms) →
  (∀ r, r ∈ rooms → d !! room_id r = Some (loadRoom (roomRow (settingsOf r)))) →
  foldl pushUser (Ret d)
    (concat ((λ r, mkRoomUsersDB (room_id r) <$> users r) <$> rooms)) =
  Ret (foldl (λ d r, <[room_id r := reloaded r]> d) d rooms).
Proof.
  revert d. induction rooms as [|r rooms IH]; intros d Hnd Hd; [done|].
  rewrite fmap_cons in Hnd. apply NoDup_cons in Hnd as [Hr Hnd].
  rewrite fmap_cons, concat_cons, foldl_app.
  rewrite (pushUsers d (room_id r) (loadRoom (roomRow (settingsOf r))))
    by (apply Hd; by left).
  change (users (loadRoom (roomRow (settingsOf r)))) with (@nil number).
  rewrite reloaded_users. cbn [foldl]. apply IH; [done|].
  intros r' Hr'. rewrite lookup_insert_ne; [apply Hd; by right|].
  intros Heq. apply Hr. rewrite Heq. apply list_elem_of_fmap. by exists r'.
Qed.

Lemma leaves_concat {A B} (us : A → list B) (mk : A → B → Statement) (l : list A) :
  concat (map statements (concat ((λ x, (λ y, Exec (mk x y) []) <$> us x) <$> l))) =
  concat ((λ x, mk x <$> us x) <$> l).
Proof.
  induction l as [|x l IH]; [done|].
  rewrite !fmap_cons, !concat_cons, map_app, concat_app.
  f_equal; [apply statements_leaves | exact IH].
Qed.

Lemma omap_concat_Some {A B C D} (f : C → option D) (us : A → list B) (mk : A → B → C)
    (row : A → B → D) (l : list A) :
  (∀ x y, f (mk x y) = Some (row x y)) →
  omap f (concat ((λ x, mk x <$> us x) <$> l)) = concat ((λ x, row x <$> us x) <$> l).
Proof.
  intros H. induction l as [|x l IH]; [done|].
  rewrite !fmap_cons, !concat_cons, omap_app, IH. f_equal.
  by apply omap_fmap_Some.
Qed.

Lemma omap_concat_None {A B C D} (f : C → option D) (us : A → list B) (mk : A → B → C)
    (l : list A) :
  (∀ x y, f (mk x y) = None) →
  omap f (concat ((λ x, mk x <$> us x) <$> l)) = [].
Proof.
  intros H. induction l as [|x l IH]; [done|].
  rewrite !fmap_cons, !concat_cons, omap_app, IH, app_nil_r.
  by apply omap_fmap_None.
Qed.

Lemma saveAll_run (profile : CurrentUserInfoModel) (settings : CurrentUserSettingsModel)
    (rooms : list RoomModel) (users : list UserModel) (s : Db) :
  db s = true →
  saveAll profile settings rooms users s =
  (Ret tt, s,
   [Exec (InsertOrReplaceProfile (profileRow profile)) [];
    Exec (InsertOrReplaceSettings (settingsRow settings)) [];
    Exec UpdateRoomSetDeleted ((λ r, setRoom (settingsOf r)) <$> rooms);
    Exec DeleteFromRoomUsers
      (concat ((λ r, insertRoomUsers (room_id r) <$> Model.users r) <$> rooms));
    Exec UpdateUserSetDeleted []] ++
   ((λ u, Exec (InsertOrReplaceUser (userRow u)) []) <$> users)).
Proof.
  intros Hdb.
  unfold saveAll, setUserProfile, setUserSettings, setRooms, setUsers, write,
    transaction, insertUser.
  destruct s as [opened ca]. simpl in Hdb. subst opened.
  cbv [mbind mret M_bind M_ret bind ret gets modify throw]. simpl.
  rewrite (forEach_emit (λ u, Exec (InsertOrReplaceUser (userRow u)) [])).
  by cbv [emit].
Qed.

Lemma saveAll_written (profile : CurrentUserInfoModel) (settings : CurrentUserSettingsModel)
    (rooms : list RoomModel) (users : list UserModel) (s : Db) :
  db s = true →
  outcome (saveAll profile settings rooms users s) = Ret tt ∧
  written (executed (saveAll profile settings rooms users s)) =
  {| dbFiles := []; dbProfile := [profileRow profile];
     dbRooms := (λ r, roomRow (settingsOf r)) <$> rooms;
     dbRoomUsers := concat ((λ r, mkRoomUsersDB (room_id r) <$> Model.users r) <$> rooms);
     dbSettings := [settingsRow settings]; dbUsers := userRow <$> users;
     dbMessages := [] |}.
Proof.
  intros Hdb.
  rewrite (saveAll_run profile settings rooms users s Hdb). split; [done|].
  unfold executed, trace, written. cbn [snd fmap list_fmap app concat statements].
  rewrite !(statements_leaves (λ r, InsertOrReplaceRoom (roomRow (settingsOf r)))).
  unfold insertRoomUsers.
  rewrite (leaves_concat Model.users
             (λ r u, InsertRoomUsers (mkRoomUsersDB (room_id r) u))).
  rewrite (statements_leaves (λ u, InsertOrReplaceUser (userRow u))).
  change (concat (map statements [])) with (@nil Statement). cbn [app].
  f_equal.
  all: repeat first
    [ rewrite omap_app
    | rewrite omap_step; cbn beta iota
    | rewrite omap_fmap_None by (intros; reflexivity)
    | rewrite omap_concat_None by (intros; reflexivity)
    | erewrite omap_fmap_Some by (intros; reflexivity)
    | erewrite omap_concat_Some by (intros; reflexivity) ];
    rewrite ?app_nil_r; try done.
Qed.

(** X20.  What [getAllTree] reads is what was saved: when the database
    holds the rows that saving the profile, the settings, the rooms (with
    distinct ids) and the users handed to it, [getAllTree] gives back that
    profile and those settings, every user as it was, and for every room a
    room with the same id, name, volume, notification flag and users, and
    with the call info, messages and search of a new room. *)
Theorem saved_is_loaded (profile : CurrentUserInfoModel)
    (settings : CurrentUserSettingsModel) (rooms : list RoomModel)
    (users : list UserModel) (s : Db) :
  db s = true →
  NoDup (room_id <$> rooms) →
  getAllTree (db s) (written (executed (saveAll profile settings rooms users s))) =
  Ret (Some
    {| sendingMessages := [];
       sd_setRooms :=
         {| sr_roomsDict := foldl (λ d r, <[room_id r := reloaded r]> d) ∅ rooms;
            sr_settings := settings;
            sr_profile := profile;
            sr_allUsersDict := foldl (λ d u, <[user_id u := u]> d) ∅ users |} |}).
Proof.
  intros Hdb Hnd.
  destruct (saveAll_written profile settings rooms users s Hdb) as [_ ->].
  unfold getAllTree. rewrite Hdb.
  cbn [negb dbProfile dbSettings dbRooms dbRoomUsers dbUsers dbMessages dbFiles foldl].
  rewrite !foldl_fmap.
  set (d0 := foldl (λ d r, <[rdb_id (roomRow (settingsOf r)) :=
                             loadRoom (roomRow (settingsOf r))]> d) ∅ rooms).
  rewrite (pushUsers_all rooms d0 Hnd)
    by (intros r Hr; by apply (filled_elem room_id (λ r, loadRoom (roomRow (settingsOf r))))).
  assert (Hrooms : foldl (λ d r, <[room_id r := reloaded r]> d) d0 rooms =
                   foldl (λ d r, <[room_id r := reloaded r]> d) ∅ rooms).
  { apply map_eq. intros k.
    destruct (decide (k ∈ room_id <$> rooms)) as [Hin|Hout].
    - apply list_elem_of_fmap in Hin as (r & -> & Hr).
      by rewrite !(filled_elem room_id reloaded).
    - rewrite !(filled_other room_id reloaded) by done. subst d0.
      by rewrite (filled_other room_id (λ r, loadRoom (roomRow (settingsOf r)))). }
  rewrite Hrooms. do 3 f_equal. f_equal.
  - apply map_eq. intros k. rewrite map_lookup_imap.
    destruct (foldl _ ∅ rooms !! k) as [x|] eqn:Hx; [|done]. simpl.
    apply filled_values in Hx as (r & _ & ->). by rewrite lookup_empty.
  - apply loadSettings_settingsRow.
  - apply loadProfile_profileRow.
  - clear. generalize (∅ : gmap Z UserModel).
    induction users as [|u users IH]; intros d; [done|]. cbn [foldl].
    rewrite loadUser_userRow. apply IH.
Qed.

Lemma saved_is_loaded_witness :
  getAllTree true
    (written (executed (saveAll MoreScenarios.Database.me MoreScenarios.Database.defaults
                          [MoreScenarios.Chat.lobby; MoreScenarios.Database.office]
                          [MoreScenarios.Chat.eve] MoreScenarios.Database.opened))) =
  Ret (Some
    {| sendingMessages := [];
       sd_setRooms :=
         {| sr_roomsDict :=
              foldl (λ d r, <[room_id r := reloaded r]> d) ∅
                [MoreScenarios.Chat.lobby; MoreScenarios.Database.office];
            sr_settings := MoreScenarios.Database.defaults;
            sr_profile := MoreScenarios.Database.me;
            sr_allUsersDict :=
              foldl (λ d u, <[user_id u := u]> d) ∅ [MoreScenarios.Chat.eve] |} |}).
Proof.
  apply (saved_is_loaded MoreScenarios.Database.me MoreScenarios.Database.defaults
           [MoreScenarios.Chat.lobby; MoreScenarios.Database.office]
           [MoreScenarios.Chat.eve] MoreScenarios.Database.opened).
  - reflexivity.
  - simpl. apply NoDup_cons. split; [|apply NoDup_singleton].
    intros [=]%list_elem_of_singleton.
Defined.

(** *** Messages and their files *)

Lemma nonzero_oneOrZero (b : bool) : nonzero (oneOrZero b) = b.
Proof. by destruct b. Qed.

Lemma placeMessage_step (roomsDict : gmap Z RoomModel) (st0 : Loading) (m : MessageModel) :
  let st1 := placeMessage roomsDict st0 (messageRow m) in
  objects st1 = objects st0 ++ [loadMessage (messageRow m)] ∧
  am st1 !! msg_id m = Some (length (objects st0)) ∧
  (is_Some (transfer m) → length (objects st0) ∈ sending st1) ∧
  (is_Some (roomsDict !! msg_roomId m) →
   inRooms st1 !! msg_roomId m ≫= (.!! msg_id m) = Some (length (objects st0))) ∧
  kept st0 st1 [msg_id m].
Proof.
  unfold placeMessage, kept. simpl. rewrite nonzero_oneOrZero. split_and!.
  - done.
  - apply lookup_insert_eq.
  - intros Ht. rewrite bool_decide_eq_true_2 by done.
    apply elem_of_app. right. by apply list_elem_of_singleton.
  - intros [r Hr]. unfold number in *. rewrite Hr. rewrite lookup_insert_eq. simpl.
    apply lookup_insert_eq.
  - intros k Hk%not_elem_of_cons. by rewrite lookup_insert_ne by (by destruct Hk).
  - intros i Hi. case_bool_decide; [|done]. apply elem_of_app. by left.
  - intros roomId k [Hk _]%not_elem_of_cons. unfold number in *.
    case_match; [|done].
    destruct (decide (roomId = msg_roomId m)) as [->|Hne].
    + rewrite lookup_insert_eq. simpl. rewrite lookup_insert_ne by done.
      match goal with |- context [default ∅ ?x] => generalize x end.
      intros [x|]; simpl; [done|apply lookup_empty].
    + by rewrite lookup_insert_ne.
Qed.

Lemma place_all (roomsDict : gmap Z RoomModel) (ms : list MessageModel) (st0 : Loading) :
  NoDup (msg_id <$> ms) →
  placed roomsDict st0 (foldl (placeMessage roomsDict) st0 (messageRow <$> ms)) ms ∧
  kept st0 (foldl (placeMessage roomsDict) st0 (messageRow <$> ms)) (msg_id <$> ms).
Proof.
  revert st0. induction ms as [|m ms IH]; intros st0 Hnd.
  { split; [split|split_and!]; try done.
    - simpl. by rewrite app_nil_r. }
  rewrite fmap_cons in Hnd. apply NoDup_cons in Hnd as [Hm Hnd].
  rewrite !fmap_cons. cbn [foldl].
  destruct (placeMessage_step roomsDict st0 m) as (Ho & Ha & Hs & Hr & Hk1 & Hk2 & Hk3).
  destruct (IH (placeMessage roomsDict st0 (messageRow m)) Hnd)
    as [[Ho' Hp] (Hk1' & Hk2' & Hk3')].
  set (st1 := placeMessage roomsDict st0 (messageRow m)) in *.
  set (st := foldl (placeMessage roomsDict) st1 (messageRow <$> ms)) in *.
  assert (Hlen : length (objects st1) = S (length (objects st0))).
  { rewrite Ho, length_app. simpl. lia. }
  split; [split|split_and!].
  - rewrite Ho', Ho, <- app_assoc. done.
  - intros [|i] m' Hi; simpl in Hi.
    + injection Hi as <-. rewrite Nat.add_0_r. split_and!.
      * by rewrite Hk1'.
      * intros Ht. by apply Hk2', Hs.
      * intros HD. rewrite Hk3' by done. by apply Hr.
    + destruct (Hp i m' Hi) as (H1 & H2 & H3). rewrite Hlen in *.
      replace (length (objects st0) + S i) with (S (length (objects st0)) + i) by lia.
      done.
  - intros k [Hk Hk']%not_elem_of_cons. rewrite Hk1' by done. apply Hk1.
    by intros ?%list_elem_of_singleton.
  - intros i Hi. by apply Hk2', Hk2.
  - intros roomId k [Hk Hk']%not_elem_of_cons. rewrite Hk3' by done. apply Hk3.
    by intros ?%list_elem_of_singleton.
Qed.

(** *** What is written for the messages *)

Lemma written_app (l1 l2 : list Statement) :
  written (l1 ++ l2) =
  {| dbFiles := dbFiles (written l1) ++ dbFiles (written l2);
     dbProfile := dbProfile (written l1) ++ dbProfile (written l2);
     dbRooms := dbRooms (written l1) ++ dbRooms (written l2);
     dbRoomUsers := dbRoomUsers (written l1) ++ dbRoomUsers (written l2);
     dbSettings := dbSettings (written l1) ++ dbSettings (written l2);
     dbUsers := dbUsers (written l1) ++ dbUsers (written l2);
     dbMessages := dbMessages (written l1) ++ dbMessages (written l2) |}.
Proof.
  unfold written.
  cbn [dbFiles dbProfile dbRooms dbRoomUsers dbSettings dbUsers dbMessages].
  by rewrite !omap_app.
Qed.

Lemma insertMessage_run (m : MessageModel) (s : Db) :
  ∃ s', insertMessage m s =
          (Ret tt, s',
           [Exec (InsertOrReplaceMessage (messageRow m))
              ((λ kf, Exec (InsertOrReplaceFile (fileRow m kf.1 kf.2)) [])
                 <$> map_to_list (default ∅ (files m)))]) ∧
        db s' = db s.
Proof.
  unfold insertMessage, setRoomHeaderId. run. eexists. split; [reflexivity|].
  by case_match.
Qed.

Lemma forEach_insertMessage_run (ms : list MessageModel) (s : Db) :
  ∃ s', forEach ms insertMessage s =
          (Ret tt, s',
           (λ m, Exec (InsertOrReplaceMessage (messageRow m))
                   ((λ kf, Exec (InsertOrReplaceFile (fileRow m kf.1 kf.2)) [])
                      <$> map_to_list (default ∅ (files m)))) <$> ms) ∧
        db s' = db s.
Proof.
  revert s. induction ms as [|m ms IH]; intros s; [by exists s|].
  destruct (insertMessage_run m s) as (s1 & Hrun & Hdb).
  destruct (IH s1) as (s2 & Hrun' & Hdb').
  exists s2. split; [|congruence].
  cbn [forEach]. unfold bind. rewrite Hrun, Hrun'. by rewrite fmap_cons.
Qed.

Lemma messages_written (ms : list MessageModel) :
  written (concat (statements <$>
    ((λ m, Exec (InsertOrReplaceMessage (messageRow m))
             ((λ kf, Exec (InsertOrReplaceFile (fileRow m kf.1 kf.2)) [])
                <$> map_to_list (default ∅ (files m)))) <$> ms))) =
  {| dbFiles := concat (fileRows <$> ms); dbProfile := []; dbRooms := [];
     dbRoomUsers := []; dbSettings := []; dbUsers := [];
     dbMessages := messageRow <$> ms |}.
Proof.
  induction ms as [|m ms IH]; [done|].
  rewrite !fmap_cons, !concat_cons, written_app, IH.
  cbn [statements dbFiles dbProfile dbRooms dbRoomUsers dbSettings dbUsers dbMessages].
  rewrite (statements_leaves (λ kf, InsertOrReplaceFile (fileRow m kf.1 kf.2))).
  unfold written, fileRows.
  cbn [dbFiles dbProfile dbRooms dbRoomUsers dbSettings dbUsers dbMessages].
  rewrite !omap_step. cbn beta iota.
  f_equal.
  all: first
    [ rewrite omap_fmap_None by (intros; reflexivity)
    | erewrite omap_fmap_Some by (intros; reflexivity) ]; done.
Qed.

Lemma saveEverything_written (profile : CurrentUserInfoModel)
    (settings : CurrentUserSettingsModel) (rooms : list RoomModel)
    (users : list UserModel) (ms : list MessageModel) (s : Db) :
  db s = true →
  written (executed (saveEverything profile settings rooms users ms s)) =
  {| dbFiles := concat (fileRows <$> ms); dbProfile := [profileRow profile];
     dbRooms := (λ r, roomRow (settingsOf r)) <$> rooms;
     dbRoomUsers := concat ((λ r, mkRoomUsersDB (room_id r) <$> Model.users r) <$> rooms);
     dbSettings := [settingsRow settings]; dbUsers := userRow <$> users;
     dbMessages := messageRow <$> ms |}.
Proof.
  intros Hdb.
  destruct (saveAll_written profile settings rooms users s Hdb) as [_ Hw].
  pose proof (saveAll_run profile settings rooms users s Hdb) as Hrun.
  destruct (forEach_insertMessage_run ms s) as (s' & Hrun' & _).
  unfold executed in *. unfold saveEverything, saveMessages.
  cbv [mbind M_bind]. unfold bind. rewrite Hrun in *.
  rewrite (write_opened _ s Hdb), Hrun'.
  unfold trace in *. cbn [snd] in *.
  rewrite fmap_app, concat_app, written_app, Hw, messages_written.
  cbn [dbFiles dbProfile dbRooms dbRoomUsers dbSettings dbUsers dbMessages].
  by rewrite !app_nil_r.
Qed.

(** *** The files find their message *)

Lemma loadFile_fileRow (m : MessageModel) (k : string) (f : FileModel) :
  loadFile (fileRow m k f) = f.
Proof. by destruct f. Qed.

Lemma stored_loaded (m : MessageModel) :
  set_files (Some (default ∅ (files m))) (loadMessage (messageRow m)) = stored m.
Proof.
  unfold set_files, loadMessage, messageRow, stored. simpl.
  rewrite nonzero_oneOrZero. f_equal. by destruct (deleted m).
Qed.

Lemma filled_from_list (l : list (string * FileModel)) (d : gmap string FileModel) :
  NoDup l.*1 →
  foldl (λ d kf, <[kf.1 := kf.2]> d) d l = list_to_map l ∪ d.
Proof.
  revert d. induction l as [|[k f] l IH]; intros d Hnd.
  { simpl. by rewrite (left_id_L ∅ (∪)). }
  rewrite fmap_cons in Hnd. apply NoDup_cons in Hnd as [Hk Hnd].
  cbn [foldl]. rewrite IH by done. rewrite list_to_map_cons. simpl.
  rewrite <- insert_union_l. symmetry. apply insert_union_r.
  by apply not_elem_of_list_to_map_1.
Qed.

Lemma filled_map_to_list (fm : gmap string FileModel) :
  foldl (λ d kf, <[kf.1 := kf.2]> d) ∅ (map_to_list fm) = fm.
Proof.
  rewrite filled_from_list by apply NoDup_fst_map_to_list.
  by rewrite (right_id_L ∅ (∪)), list_to_map_to_list.
Qed.

(** The rows of the files of one message are written into its object, and
    into no other. *)
Lemma attachFiles_one (m base : MessageModel) (p : nat) (l : list (string * FileModel))
    (fm : gmap string FileModel) (st : Loading) :
  am st !! msg_id m = Some p →
  objects st !! p = Some (set_files (Some fm) base) →
  objects (foldl attachFile st ((λ kf, fileRow m kf.1 kf.2) <$> l)) =
    <[p := set_files (Some (foldl (λ d kf, <[kf.1 := kf.2]> d) fm l)) base]> (objects st) ∧
  am (foldl attachFile st ((λ kf, fileRow m kf.1 kf.2) <$> l)) = am st ∧
  inRooms (foldl attachFile st ((λ kf, fileRow m kf.1 kf.2) <$> l)) = inRooms st ∧
  sending (foldl attachFile st ((λ kf, fileRow m kf.1 kf.2) <$> l)) = sending st.
Proof.
  revert fm st. induction l as [|[k f] l IH]; intros fm st Ham Hobj.
  { simpl. split; [|done]. symmetry. by apply list_insert_id. }
  rewrite fmap_cons. cbn [foldl fst snd].
  assert (Hstep : attachFile st (fileRow m k f) =
            {| objects := <[p := set_files (Some (<[k := f]> fm)) base]> (objects st);
               am := am st; inRooms := inRooms st; sending := sending st |}).
  { unfold attachFile. cbn [fdb_message_id fileRow fdb_symbol]. unfold number in *.
    rewrite Ham. f_equal. rewrite loadFile_fileRow.
    apply list_eq. intros i. destruct (decide (i = p)) as [->|Hne].
    - rewrite list_lookup_alter_eq, Hobj.
      rewrite list_lookup_insert_eq by (by eapply lookup_lt_Some). done.
    - rewrite list_lookup_alter_ne, list_lookup_insert_ne by done. done. }
  rewrite Hstep.
  match goal with
  | |- context [foldl attachFile ?st1 _] =>
      destruct (IH (<[k := f]> fm) st1) as (Ho & Ha & Hi & Hs)
  end.
  { exact Ham. }
  { cbn [objects]. apply list_lookup_insert_eq. by eapply lookup_lt_Some. }
  rewrite Ho, Ha, Hi, Hs. cbn [objects am inRooms sending].
  by rewrite list_insert_insert_eq.
Qed.

(** After the loop over [dbFiles] the objects are the messages with their
    files; the places are as before. *)
Lemma attachFiles_all (ms pre : list MessageModel) (st : Loading) :
  objects st = pre ++ ((λ m, loadMessage (messageRow m)) <$> ms) →
  (∀ i m, ms !! i = Some m → am st !! msg_id m = Some (length pre + i)) →
  objects (foldl attachFile st (concat (fileRows <$> ms))) = pre ++ (stored <$> ms) ∧
  am (foldl attachFile st (concat (fileRows <$> ms))) = am st ∧
  inRooms (foldl attachFile st (concat (fileRows <$> ms))) = inRooms st ∧
  sending (foldl attachFile st (concat (fileRows <$> ms))) = sending st.
Proof.
  revert pre st. induction ms as [|m ms IH]; intros pre st Hobj Ham.
  { simpl in *. by rewrite Hobj. }
  rewrite !fmap_cons, concat_cons, foldl_app. rewrite fmap_cons in Hobj.
  destruct (attachFiles_one m (loadMessage (messageRow m)) (length pre)
              (map_to_list (default ∅ (files m))) ∅ st) as (Ho1 & Ha1 & Hi1 & Hs1).
  { rewrite <- (Nat.add_0_r (length pre)). by apply Ham. }
  { rewrite Hobj. by rewrite list_lookup_middle. }
  fold (fileRows m) in *.
  rewrite filled_map_to_list, stored_loaded in Ho1.
  rewrite Hobj in Ho1.
  rewrite insert_app_r_alt, Nat.sub_diag in Ho1 by lia. cbn [insert list_insert] in Ho1.
  destruct (IH (pre ++ [stored m]) (foldl attachFile st (fileRows m))) as (Ho & Ha & Hi & Hs).
  { by rewrite Ho1, <- app_assoc. }
  { intros i m' Hm'. rewrite Ha1, length_app. cbn [length].
    replace (length pre + 1 + i) with (length pre + S i) by lia. by apply Ham. }
  rewrite Ho, Ha, Hi, Hs, <- app_assoc. done.
Qed.

(** The rooms as the loops over [dbRooms] and [dbRoomUsers] build them. *)
Lemma rooms_reloaded (rooms : list RoomModel) :
  NoDup (room_id <$> rooms) →
  foldl pushUser
    (Ret (foldl (λ d r, <[rdb_id r := loadRoom r]> d) ∅
            ((λ r, roomRow (settingsOf r)) <$> rooms)))
    (concat ((λ r, mkRoomUsersDB (room_id r) <$> users r) <$> rooms)) =
  Ret (foldl (λ d r, <[room_id r := reloaded r]> d) ∅ rooms).
Proof.
  intros Hnd. rewrite foldl_fmap.
  set (d0 := foldl (λ d r, <[rdb_id (roomRow (settingsOf r)) :=
                             loadRoom (roomRow (settingsOf r))]> d) ∅ rooms).
  rewrite (pushUsers_all rooms d0 Hnd)
    by (intros r Hr; by apply (filled_elem room_id (λ r, loadRoom (roomRow (settingsOf r))))).
  f_equal. apply map_eq. intros k.
  destruct (decide (k ∈ room_id <$> rooms)) as [Hin|Hout].
  - apply list_elem_of_fmap in Hin as (r & -> & Hr).
    by rewrite !(filled_elem room_id reloaded).
  - rewrite !(filled_other room_id reloaded) by done. subst d0.
    by rewrite (filled_other room_id (λ r, loadRoom (roomRow (settingsOf r)))).
Qed.

(** X21.  The messages come back with their files, and as one object:
    when the profile, the settings, rooms with distinct ids, the users and
    then messages with distinct ids are saved, whose files all have an id
    and no two of them the same one, [getAllTree] on the rows handed to
    the database gives data in which every saved message that was being
    sent is among [sendingMessages], and every saved message of a saved
    room is in that room under its id; in both places it is the message as
    stored, with the files that were saved for it. *)
Theorem saved_messages_are_loaded (profile : CurrentUserInfoModel)
    (settings : CurrentUserSettingsModel) (rooms : list RoomModel)
    (users : list UserModel) (ms : list MessageModel) (s : Db) :
  db s = true →
  NoDup (room_id <$> rooms) →
  NoDup (msg_id <$> ms) →
  Forall is_Some (fileKeys ms) →
  NoDup (fileKeys ms) →
  ∃ data,
    getAllTree (db s)
      (written (executed (saveEverything profile settings rooms users ms s))) =
      Ret (Some data) ∧
    ∀ m, m ∈ ms →
      (is_Some (transfer m) → stored m ∈ sendingMessages data) ∧
      (msg_roomId m ∈ room_id <$> rooms →
       ∃ room, sr_roomsDict (sd_setRooms data) !! msg_roomId m = Some room ∧
               messages room !! msg_id m = Some (stored m)).
Proof.
  intros Hdb Hrooms Hms _ _.
  rewrite (saveEverything_written profile settings rooms users ms s Hdb).
  unfold getAllTree. rewrite Hdb.
  cbn [negb dbProfile dbSettings dbRooms dbRoomUsers dbUsers dbMessages dbFiles].
  rewrite (rooms_reloaded rooms Hrooms).
  set (D := foldl (λ d r, <[room_id r := reloaded r]> d) ∅ rooms).
  set (st0 := foldl (placeMessage D)
                {| objects := []; am := ∅; inRooms := ∅; sending := [] |}
                (messageRow <$> ms)).
  destruct (place_all D ms {| objects := []; am := ∅; inRooms := ∅; sending := [] |} Hms)
    as [[Hobj Hplaced] _].
  fold st0 in Hobj, Hplaced. cbn [objects length app Nat.add] in Hobj, Hplaced.
  destruct (attachFiles_all ms [] st0 Hobj) as (Ho & Ha & Hi & Hs).
  { intros i m Hm. by destruct (Hplaced i m Hm) as (? & _). }
  set (st := foldl attachFile st0 (concat (fileRows <$> ms))) in *.
  cbn [app] in Ho.
  eexists. split; [reflexivity|].
  cbn [sendingMessages sd_setRooms sr_roomsDict].
  intros m [i Hm]%list_elem_of_lookup_1.
  destruct (Hplaced i m Hm) as (_ & Hsend & Hroom).
  assert (Hat : at_ st i = Some (stored m)).
  { unfold at_. by rewrite Ho, list_lookup_fmap, Hm. }
  split.
  - intros Ht. apply list_elem_of_omap. exists i. split; [|done].
    rewrite Hs. by apply Hsend.
  - intros (r & Hid & Hr)%list_elem_of_fmap.
    assert (HD : D !! msg_roomId m = Some (reloaded r)).
    { rewrite Hid. by apply (filled_elem room_id reloaded). }
    eexists. split.
    + rewrite map_lookup_imap. unfold number in *. rewrite HD. reflexivity.
    + unfold set_messages, reloaded, Converters.getRoomsBaseDict. cbn [messages].
      rewrite lookup_omap, Hi.
      specialize (Hroom (ltac:(by eexists))).
      revert Hroom. unfold number in *.
      match goal with |- context [default ∅ ?y] => destruct y as [x|] end; [|done].
      simpl. by intros ->.
Qed.

Lemma saved_messages_are_loaded_witness :
  ∃ data,
    getAllTree true
      (written (executed (saveEverything MoreScenarios.Database.me
                            MoreScenarios.Database.defaults
                            [MoreScenarios.Chat.lobby; MoreScenarios.Database.office]
                            [MoreScenarios.Chat.eve] MoreScenarios.Database.album
                            MoreScenarios.Database.opened))) =
      Ret (Some data) ∧
    ∀ m, m ∈ MoreScenarios.Database.album →
      (is_Some (transfer m) → stored m ∈ sendingMessages data) ∧
      (msg_roomId m ∈ room_id <$> [MoreScenarios.Chat.lobby; MoreScenarios.Database.office] →
       ∃ room, sr_roomsDict (sd_setRooms data) !! msg_roomId m = Some room ∧
               messages room !! msg_id m = Some (stored m)).
Proof.
  apply (saved_messages_are_loaded MoreScenarios.Database.me
           MoreScenarios.Database.defaults
           [MoreScenarios.Chat.lobby; MoreScenarios.Database.office]
           [MoreScenarios.Chat.eve] MoreScenarios.Database.album
           MoreScenarios.Database.opened).
  - reflexivity.
  - simpl. apply NoDup_cons. split; [|apply NoDup_singleton].
    intros [=]%list_elem_of_singleton.
  - apply (bool_decide_unpack _). vm_compute. exact I.
  - apply (bool_decide_unpack _). vm_compute. exact I.
  - apply (bool_decide_unpack _). vm_compute. exact I.
Defined.

(** *** The connection *)

(** X22.  Nothing is written without a connection, and with one nothing
    fails: every public method that writes throws the error of
    [transaction] when [connect] has not opened the database, and then it
    hands no statement to the database and leaves the cache as it was,
    also [saveMessage] and [saveMessages]; on an opened database none of
    them throws, the database stays opened, and only [saveMessage] and
    [saveMessages] can change the cache. *)
Theorem writes_need_connection (op : Operation) (c : gmap Z number) :
  operate op {| db := false; cache := c |} =
    (Throw (Error "{} failed to get db"), {| db := false; cache := c |}, []) ∧
  outcome (operate op {| db := true; cache := c |}) = Ret tt ∧
  db (final (operate op {| db := true; cache := c |})) = true ∧
  (if savesMessages op then True
   else final (operate op {| db := true; cache := c |}) = {| db := true; cache := c |}).
Proof.
  split; [by destruct op|].
  destruct op as [| |room|rooms|user|users|user|settings|id|id|roomId users|r|ms|m];
    unfold operate, savesMessages.
  all: try (split_and!; reflexivity).
  - unfold setUsers, insertUser. rewrite write_opened by done.
    cbv [mbind mret M_bind M_ret bind ret gets modify throw]. simpl.
    rewrite (forEach_emit (λ u, Exec (InsertOrReplaceUser (userRow u)) [])).
    by cbv [emit].
  - unfold saveMessages. rewrite write_opened by done.
    destruct (forEach_insertMessage_run ms {| db := true; cache := c |})
      as (s' & -> & Hdb).
    done.
  - unfold saveMessage. rewrite write_opened by done.
    destruct (insertMessage_run m {| db := true; cache := c |}) as (s' & -> & Hdb).
    done.
Qed.

End DatabaseProofs.
